(** * timetrackcli: the time-bucketed activity store

    A shallow embedding of the engine of [timetrackcli.go]: the bucket clock
    ([floorToBin]), the activity store ([upsertBin]), the compactor
    ([compactBins]), the window resolver ([fetchBins] and the grid its callers
    build around it), the aggregator ([todayTotals], [calculateFocusStats],
    [formatPercentage], [humanDuration]), the configuration update of [main]
    ([parseTimeToMinutes], [parseWorkDays]) and one iteration of its sampling
    loop.

    Conventions of the embedding.
    - A Go [int] or [int64] is a [Z]; where the program does arithmetic on it
      the two's-complement wrap-around is written out ([GoInt.wrap64]).
      [int] is 64 bits wide on the platforms the program supports (macOS).
    - A [time.Time] is its Unix time in seconds, a [Z]: every instant the
      store holds is built by [time.Unix(ts, 0)], and the clock reading of a
      tick is taken at a whole second.  Instants are not bounded: the
      arithmetic of [time.Time] is exact on them.  The process's
      [time.Local] is a zone with a constant offset from UTC, the parameter
      [loc] (seconds east of UTC) of the functions that use civil time.
    - A Go string is a [string] of bytes.  [strings.ToLower] and
      [strings.TrimSpace], which work on Unicode text, are parameters of the
      functions that call them; [Strings.asciiToLower] and
      [Strings.asciiTrimSpace] are what they compute on ASCII text.
    - [map[string]int] is a [gmap string Z], [map[time.Time]int] a
      [gmap Z Z]; [for k, v := range m] visits the entries in the order of
      [map_to_list].  Go leaves the order unspecified;
      [sortTimes_order_irrelevant] and [rawOverlay_order_irrelevant] show
      where it does not matter.
    - The document at the store's path is the store it renders ([File]); a
      save succeeds.
    - A loop whose trip count is not structural takes a fuel argument; its
      caller passes enough fuel, and the lemmas named [*_fuel] show that the
      loop stops on its own test. *)

From Stdlib Require Import ZArith Lia String Ascii List Permutation Sorted.
From stdpp Require Import gmap strings list fin_maps sorting.

Local Open Scope Z_scope.

(** ** Go integers *)

Module GoInt.

Definition min_int64 : Z := - 2 ^ 63.
Definition max_int64 : Z := 2 ^ 63 - 1.

Definition in_int64 (z : Z) : Prop := min_int64 <= z <= max_int64.

(** Reduction of a mathematical result into the range of [int64]. *)
Definition wrap64 (z : Z) : Z := (z + 2 ^ 63) mod 2 ^ 64 - 2 ^ 63.

Definition mul (a b : Z) : Z := wrap64 (a * b).
Definition add (a b : Z) : Z := wrap64 (a + b).

(** Go's [/] and [%] truncate toward zero. *)
Definition div (a b : Z) : Z := wrap64 (Z.quot a b).
Definition rem (a b : Z) : Z := Z.rem a b.

End GoInt.

(** ** Package [strings]

    [Split] and [Contains] are called with a one-byte separator at every call
    site, so the separator is an [ascii]. *)

Module Strings.

Fixpoint Contains (s : string) (sep : ascii) : bool :=
  match s with
  | EmptyString => false
  | String c r => if Ascii.eqb c sep then true else Contains r sep
  end.

(** [strings.Split(s, sep)]: the pieces of [s] between the occurrences of
    [sep]; a string without [sep] is its own single piece, also when empty. *)
Fixpoint Split (s : string) (sep : ascii) : list string :=
  match s with
  | EmptyString => [EmptyString]
  | String c r =>
      if Ascii.eqb c sep then EmptyString :: Split r sep
      else match Split r sep with
           | p :: ps => String c p :: ps
           | [] => [String c EmptyString]
           end
  end.

(** [strings.SplitN(s, sep, 2)]: cut at the first [sep] only. *)
Fixpoint SplitN2 (s : string) (sep : ascii) : list string :=
  match s with
  | EmptyString => [EmptyString]
  | String c r =>
      if Ascii.eqb c sep then [EmptyString; r]
      else match SplitN2 r sep with
           | p :: ps => String c p :: ps
           | [] => [String c EmptyString]
           end
  end.

(** The ASCII range of [strings.ToLower]. *)
Definition lower_byte (c : ascii) : ascii :=
  let n := nat_of_ascii c in
  if ((65 <=? n) && (n <=? 90))%nat then ascii_of_nat (n + 32) else c.

Fixpoint asciiToLower (s : string) : string :=
  match s with
  | EmptyString => EmptyString
  | String c r => String (lower_byte c) (asciiToLower r)
  end.

(** The ASCII range of [strings.TrimSpace]: tab, line feed, vertical tab,
    form feed, carriage return and space. *)
Definition is_space (c : ascii) : bool :=
  let n := nat_of_ascii c in
  (((9 <=? n) && (n <=? 13)) || (n =? 32))%nat.

Fixpoint trim_left (s : string) : string :=
  match s with
  | EmptyString => EmptyString
  | String c r => if is_space c then trim_left r else s
  end.

Fixpoint trim_right (s : string) : string :=
  match s with
  | EmptyString => EmptyString
  | String c r =>
      match trim_right r with
      | EmptyString => if is_space c then EmptyString else String c EmptyString
      | r' => String c r'
      end
  end.

Definition asciiTrimSpace (s : string) : string := trim_right (trim_left s).

End Strings.

(** ** Package [strconv] *)

Module Strconv.

Import GoInt.

Definition digit_of (c : ascii) : option Z :=
  let n := nat_of_ascii c in
  if ((48 <=? n) && (n <=? 57))%nat then Some (Z.of_nat n - 48) else None.

Definition digit_char (d : Z) : ascii := ascii_of_nat (48 + Z.to_nat d).

(** The digit loop of [ParseUint] in base 10: any other byte is a syntax
    error. *)
Fixpoint parse_digits (acc : Z) (s : string) : option Z :=
  match s with
  | EmptyString => Some acc
  | String c r =>
      match digit_of c with
      | Some d => parse_digits (acc * 10 + d) r
      | None => None
      end
  end.

Definition ParseUint (s : string) : option Z :=
  match s with
  | EmptyString => None
  | _ => parse_digits 0 s
  end.

(** [strconv.ParseInt(s, 10, 64)]; [None] stands for a non-nil error
    (syntax or range). *)
Definition ParseInt (s : string) : option Z :=
  match s with
  | EmptyString => None
  | String c r =>
      if Ascii.eqb c "+"%char then
        match ParseUint r with
        | Some un => if 2 ^ 63 <=? un then None else Some un
        | None => None
        end
      else if Ascii.eqb c "-"%char then
        match ParseUint r with
        | Some un => if 2 ^ 63 <? un then None else Some (- un)
        | None => None
        end
      else
        match ParseUint s with
        | Some un => if 2 ^ 63 <=? un then None else Some un
        | None => None
        end
  end.

(** [strconv.Atoi] on a 64-bit platform accepts what [ParseInt(s, 10, 64)]
    accepts, with the same value. *)
Definition Atoi (s : string) : option Z := ParseInt s.

(** The decimal digits of a non-negative number, most significant first,
    prepended to [acc]. *)
Fixpoint format_digits (fuel : nat) (n : Z) (acc : string) : string :=
  match fuel with
  | O => acc
  | S f =>
      let acc' := String (digit_char (n mod 10)) acc in
      if n <? 10 then acc' else format_digits f (n / 10) acc'
  end.

Definition FormatUint (n : Z) : string :=
  format_digits (S (Z.to_nat (Z.log2 n))) n EmptyString.

(** [strconv.FormatInt(z, 10)], which is also what [%d] prints. *)
Definition FormatInt (z : Z) : string :=
  if z <? 0 then String "-"%char (FormatUint (- z)) else FormatUint z.

End Strconv.

(** ** The bucket clock *)

Definition binMinutes : Z := 5.
Definition sampleSeconds : Z := 30.

(** [binMinutes * time.Minute], in seconds. *)
Definition binWidth : Z := binMinutes * 60.

(** [t.Truncate(time.Minute)] rounds down to a whole minute since the zero
    time, which is a whole number of minutes away from the Unix epoch. *)
Definition truncateMinute (t : Z) : Z := t - t mod 60.

(** [t.Minute()] in the zone [loc]. *)
Definition minuteOf (loc t : Z) : Z := ((t + loc) mod 3600) / 60.

(** [time.Date(t.Year(), t.Month(), t.Day(), t.Hour(), m, 0, 0, t.Location())]:
    the instant of the same civil hour as [t] at minute [m], second 0. *)
Definition dateSameHour (loc t m : Z) : Z :=
  (t + loc) - (t + loc) mod 3600 + m * 60 - loc.

Definition floorToBin (loc t : Z) : Z :=
  let t := truncateMinute t in
  let m := (minuteOf loc t / binMinutes) * binMinutes in
  dateSameHour loc t m.


(** [time.Date(now.Year(), now.Month(), now.Day(), 0, 0, 0, 0, now.Location())] *)
Definition startOfDay (loc now : Z) : Z := now - (now + loc) mod 86400.

(** ** The store *)

Record Config := mkConfig {
  DailyGoalMinutes : Z;
  WorkDays : list Z
}.

Record Range := mkRange {
  Start : Z;
  End_ : Z;
  Status : Z;
  Tag : string;
  Note : string
}.

Record Store := mkStore {
  Bins : gmap string Z;
  Ranges : list Range;
  Conf : Config;
  Tags : list string
}.

Definition setBins (s : Store) (b : gmap string Z) : Store :=
  mkStore b (Ranges s) (Conf s) (Tags s).

Definition setRanges (s : Store) (r : list Range) : Store :=
  mkStore (Bins s) r (Conf s) (Tags s).

Definition setConf (s : Store) (c : Config) : Store :=
  mkStore (Bins s) (Ranges s) c (Tags s).

(** The key under which the sample of the bucket starting at [t] is stored:
    [strconv.FormatInt(t.Unix(), 10)]. *)
Definition binKey (t : Z) : string := Strconv.FormatInt t.

(** [s.Bins[k]]: a missing key reads as the zero value. *)
Definition binStatus (bins : gmap string Z) (k : string) : Z :=
  default 0 (bins !! k).

Definition idle : Z := 0.
Definition working : Z := 1.

Definition upsertBin (s : Store) (binStart : Z) (isWorking : bool) : Store :=
  let k := binKey binStart in
  let cur := binStatus (Bins s) k in
  if isWorking && (cur =? 0) then
    setBins s (<[k := 1]> (Bins s))
  else if (cur =? 0) && negb isWorking then
    match Bins s !! k with
    | None => setBins s (<[k := 0]> (Bins s))
    | Some _ => s
    end
  else s.

(** ** The window resolver *)

(** Trip count that is enough for a loop stepping by one bucket width from
    [cur] up to, and excluding, [lim]. *)
Definition stepsTo (cur lim : Z) : nat := Z.to_nat ((lim - cur) / binWidth + 1).

(** First loop of [fetchBins], one entry of [s.Bins]. *)
Definition rawOverlay (start end_ : Z) (res : gmap Z Z) (kv : string * Z) : gmap Z Z :=
  match Strconv.ParseInt kv.1 with
  | None => res
  | Some ts =>
      if negb (ts <? start) && (ts <? end_) then <[ts := kv.2]> res else res
  end.

(** Inner loop of the second loop of [fetchBins]:
    [for cur := floorToBin(rStart); cur.Before(rEnd) && cur.Before(end); cur += 5min]. *)
Fixpoint rangeLoop (fuel : nat) (cur rEnd start end_ status : Z) (res : gmap Z Z)
  : gmap Z Z :=
  match fuel with
  | O => res
  | S f =>
      if (cur <? rEnd) && (cur <? end_) then
        rangeLoop f (cur + binWidth) rEnd start end_ status
          (if negb (cur <? start) then <[cur := status]> res else res)
      else res
  end.

(** Second loop of [fetchBins], one element of [s.Ranges]. *)
Definition rangeOverlay (loc start end_ : Z) (res : gmap Z Z) (r : Range) : gmap Z Z :=
  if (End_ r <? start) || negb (Start r <? end_) then res
  else
    let cur := floorToBin loc (Start r) in
    rangeLoop (stepsTo cur (Z.min (End_ r) end_)) cur (End_ r) start end_ (Status r) res.

Definition fetchBins (loc : Z) (s : Store) (start end_ : Z) : gmap Z Z :=
  let res := foldl (rawOverlay start end_) ∅ (map_to_list (Bins s)) in
  foldl (rangeOverlay loc start end_) res (Ranges s).

(** The grid every report builds around [fetchBins]:
    [for cur := floorToBin(start); cur.Before(floorToBin(end)); cur += 5min]
    with [seq = append(seq, cur)] as its body. *)
Fixpoint seqLoop (fuel : nat) (cur lim : Z) (seq : list Z) : list Z :=
  match fuel with
  | O => seq
  | S f => if cur <? lim then seqLoop f (cur + binWidth) lim (seq ++ [cur]) else seq
  end.

Definition buildSeq (loc start end_ : Z) : list Z :=
  let cur := floorToBin loc start in
  let lim := floorToBin loc end_ in
  seqLoop (stepsTo cur lim) cur lim [].

(** [status[t] = 0] for every [t] of the grid, then [status[t] = v] for every
    entry of [fetchBins]. *)
Definition statusMap (seq : list Z) (bins : gmap Z Z) : gmap Z Z :=
  let status := foldl (fun m t => <[t := 0]> m) ∅ seq in
  foldl (fun m tv => <[tv.1 := tv.2]> m) status (map_to_list bins).

(** [status[t]] *)
Definition statusAt (status : gmap Z Z) (t : Z) : Z := default 0 (status !! t).

(** The resolved window: the grid and the status of each of its buckets.
    [todayTotals], [buildTimelineBlocks], [calculateFocusStats] and
    [reportToday] each build it in line, in these three steps, for the
    window from local midnight to now; here the window is a parameter. *)
Definition resolveWindow (loc : Z) (s : Store) (start end_ : Z) : list (Z * Z) :=
  let seq := buildSeq loc start end_ in
  let status := statusMap seq (fetchBins loc s start end_) in
  map (fun t => (t, statusAt status t)) seq.



(** ** Focus statistics *)

Record FocusAcc := mkFocusAcc {
  longestFocus : Z;
  currentFocus : Z;
  prevStatus : Z;
  contextSwitches : Z
}.

(** Body of the scanning loop of [calculateFocusStats], on the status of the
    bucket it visits. *)
Definition focusStep (a : FocusAcc) (currentStatus : Z) : FocusAcc :=
  let current :=
    if currentStatus =? 1 then GoInt.add (currentFocus a) binMinutes else 0 in
  let longest :=
    if (currentStatus =? 1) && (longestFocus a <? current) then current
    else longestFocus a in
  let switches :=
    if negb (currentStatus =? prevStatus a) then GoInt.add (contextSwitches a) 1
    else contextSwitches a in
  mkFocusAcc longest current currentStatus switches.

(** The scan over the statuses of the grid, in grid order. *)
Definition focusScan (statuses : list Z) : Z * Z :=
  match statuses with
  | [] => (0, 0)
  | first :: _ =>
      let a := foldl focusStep (mkFocusAcc 0 0 first 0) statuses in
      (longestFocus a, contextSwitches a)
  end.

Definition calculateFocusStats (loc : Z) (s : Store) (now : Z) : Z * Z :=
  let start := startOfDay loc now in
  let bins := fetchBins loc s start now in
  let seq := buildSeq loc start now in
  let status := statusMap seq bins in
  focusScan (map (statusAt status) seq).

(** ** The compactor *)

(** [if times[i].After(times[j]) { times[i], times[j] = times[j], times[i] }] *)
Definition swapIfAfter (i j : nat) (times : list Z) : list Z :=
  match times !! i, times !! j with
  | Some ti, Some tj => if tj <? ti then <[j := ti]> (<[i := tj]> times) else times
  | _, _ => times
  end.

(** [for j := i + 1; j < len(times); j++], with [n] iterations left. *)
Fixpoint sortInner (n : nat) (i j : nat) (times : list Z) : list Z :=
  match n with
  | O => times
  | S n' => sortInner n' i (S j) (swapIfAfter i j times)
  end.

(** [for i := 0; i < len(times)-1; i++], with [n] iterations left. *)
Fixpoint sortOuter (n : nat) (i : nat) (times : list Z) : list Z :=
  match n with
  | O => times
  | S n' => sortOuter n' (S i) (sortInner (length times - S i) i (S i) times)
  end.

Definition sortTimes (times : list Z) : list Z :=
  sortOuter (length times - 1) 0 times.

(** [for j < len(times)-1 { ... j++ ... break }]: the index of the last
    instant of the run that starts with status [status] and has reached [j]. *)
Fixpoint extendRun (fuel : nat) (bins : gmap string Z) (times : list Z)
    (status : Z) (j : nat) : nat :=
  match fuel with
  | O => j
  | S f =>
      if (S j <? length times)%nat then
        match times !! j, times !! S j with
        | Some tj, Some next =>
            let nextStatus := binStatus bins (binKey next) in
            if (nextStatus =? status) && (next - tj =? binWidth)
            then extendRun f bins times status (S j)
            else j
        | _, _ => j
        end
      else j
  end.

(** [for i := 0; i < len(times); { ...; i = j + 1 }] *)
Fixpoint emitRuns (fuel : nat) (bins : gmap string Z) (times : list Z)
    (i : nat) (ranges : list Range) : list Range :=
  match fuel with
  | O => ranges
  | S f =>
      match times !! i with
      | None => ranges
      | Some start =>
          let status := binStatus bins (binKey start) in
          let j := extendRun (length times) bins times status i in
          match times !! j with
          | None => ranges
          | Some last =>
              emitRuns f bins times (S j)
                (ranges ++ [mkRange start (last + binWidth) status EmptyString EmptyString])
          end
      end
  end.

(** The instants of the parseable keys, in iteration order. *)
Definition sampledTimes (bins : gmap string Z) : list Z :=
  omap (fun kv : string * Z => Strconv.ParseInt kv.1) (map_to_list bins).

Definition compactBins (s : Store) : Store :=
  if (size (Bins s) <? 50)%nat then s
  else
    let times := sampledTimes (Bins s) in
    if (length times =? 0)%nat then s
    else
      let times := sortTimes times in
      mkStore ∅ (emitRuns (length times) (Bins s) times 0 (Ranges s))
        (Conf s) (Tags s).

(** ** Durations and goal progress *)

Definition fmtInt (z : Z) : string := Strconv.FormatInt z.

Definition humanDuration (mins : Z) : string :=
  let h := GoInt.div mins 60 in
  let m := GoInt.rem mins 60 in
  if (0 <? h) && (0 <? m) then fmtInt h ++ " hr " ++ fmtInt m ++ " mins"
  else if 0 <? h then
    if h =? 1 then "1 hr" else fmtInt h ++ " hrs"
  else if m =? 1 then "1 min"
  else fmtInt m ++ " mins".

Definition formatPercentage (workMins goalMins : Z) : string :=
  if goalMins =? 0 then "0%"
  else
    let pct := GoInt.div (GoInt.mul workMins 100) goalMins in
    fmtInt pct ++ "% of " ++ humanDuration goalMins.

(** ** Configuration input *)

Inductive error :=
| ErrTimeFormat                 (* "invalid time format, use HH:MM" *)
| ErrAtoi (part : string)       (* the error of strconv.Atoi *)
| ErrRangeFormat                (* "invalid range format" *)
| ErrDayNames                   (* "invalid day names" *)
| ErrDayName (part : string)    (* "invalid day name: %s" *)
| ErrUnknownKey                 (* "Unknown config key" *)
| ErrOpen                       (* os.Open or the JSON decoder failed *).

Inductive result (A : Type) :=
| Ok (a : A)
| Err (e : error).

Arguments Ok {A} a.
Arguments Err {A} e.

Definition is_err {A} (r : result A) : bool :=
  match r with Ok _ => false | Err _ => true end.

Definition parseTimeToMinutes (timeStr : string) : result Z :=
  match Strings.Split timeStr ":"%char with
  | [p0; p1] =>
      match Strconv.Atoi p0 with
      | None => Err (ErrAtoi p0)
      | Some hours =>
          match Strconv.Atoi p1 with
          | None => Err (ErrAtoi p1)
          | Some mins => Ok (GoInt.add (GoInt.mul hours 60) mins)
          end
      end
  | _ => Err ErrTimeFormat
  end.

Definition dayMap : gmap string Z :=
  list_to_map
    [("mon", 1); ("tue", 2); ("wed", 3); ("thu", 4); ("fri", 5); ("sat", 6);
     ("sun", 7)]%string.

Section ParseWorkDays.

(** [strings.ToLower] and [strings.TrimSpace] work on Unicode text; the parser
    is written over any pair of such functions.  [Strings.asciiToLower] and
    [Strings.asciiTrimSpace] are what they compute on ASCII input. *)
Variable ToLower TrimSpace : string -> string.

(** The loop over the comma-separated parts, with its early return. *)
Fixpoint parseDayList (parts : list string) (days : list Z) : result (list Z) :=
  match parts with
  | [] => Ok days
  | part :: rest =>
      match dayMap !! ToLower (TrimSpace part) with
      | Some day => parseDayList rest (days ++ [day])
      | None => Err (ErrDayName part)
      end
  end.

Definition parseWorkDays (workDaysStr : string) : result (list Z) :=
  if Strings.Contains workDaysStr "-"%char then
    match Strings.Split workDaysStr "-"%char with
    | [p0; p1] =>
        match dayMap !! ToLower p0, dayMap !! ToLower p1 with
        | Some start, Some end_ =>
            (* for i := start; i <= end; i++ { days = append(days, i) } *)
            Ok (seqZ start (end_ - start + 1))
        | _, _ => Err ErrDayNames
        end
    | _ => Err ErrRangeFormat
    end
  else parseDayList (Strings.Split workDaysStr ","%char) [].

End ParseWorkDays.

(** ** Persistence and the configuration update of [main] *)

(** The document at the store's path: absent, unreadable (it cannot be
    opened or is not JSON), or the JSON rendering of a store. *)
Inductive File :=
| Missing
| Unreadable
| Doc (s : Store).

Definition defaultConfig : Config := mkConfig 480 [1; 2; 3; 4; 5].

Definition loadStore (f : File) : result Store :=
  match f with
  | Missing => Ok (mkStore ∅ [] defaultConfig [])
  | Unreadable => Err ErrOpen
  | Doc s =>
      let goal :=
        if DailyGoalMinutes (Conf s) =? 0 then 480 else DailyGoalMinutes (Conf s) in
      let days :=
        if (length (WorkDays (Conf s)) =? 0)%nat then [1; 2; 3; 4; 5]
        else WorkDays (Conf s) in
      Ok (setConf s (mkConfig goal days))
  end.

(** A save that succeeds replaces the document. *)
Definition saveStore (s : Store) : File := Doc s.

Inductive exit := Exit1 | Return.

Section MainConfig.

Variable ToLower TrimSpace : string -> string.

(** The [switch parts[0]] of the configuration branch of [main]; an error is
    one of the three [os.Exit(1)]. *)
Definition applyConfig (store : Store) (key value : string) : result Store :=
  if String.eqb key "dailygoal" then
    match parseTimeToMinutes value with
    | Err e => Err e
    | Ok mins => Ok (setConf store (mkConfig mins (WorkDays (Conf store))))
    end
  else if String.eqb key "workdays" then
    match parseWorkDays ToLower TrimSpace value with
    | Err e => Err e
    | Ok days => Ok (setConf store (mkConfig (DailyGoalMinutes (Conf store)) days))
    end
  else Err ErrUnknownKey.

(** [main] when [-config] is given: the document afterwards and how the
    process ends. *)
Definition mainConfig (file : File) (configFlag : string) : File * exit :=
  match Strings.SplitN2 configFlag "="%char with
  | [key; value] =>
      match loadStore file with
      | Err _ => (file, Exit1)
      | Ok store =>
          match applyConfig store key value with
          | Err _ => (file, Exit1)
          | Ok store' => (saveStore store', Return)
          end
      end
  | _ => (file, Exit1)
  end.

End MainConfig.

(** ** The sampling loop *)

Inductive Event :=
| EvSave (s : Store)
| EvCompact.

(** One iteration of the loop of [main] up to the sleep; [la] is the result
    of [lastActivity(now)], [None] when the probe fails.  The result is the
    document, the store the loop carries on with, and what the iteration did. *)
Definition sampleTick (loc : Z) (file : File) (store : Store) (now : Z)
    (la : option Z) : File * Store * list Event :=
  let currentBin := floorToBin loc now in
  match la with
  | None => (file, store, [])
  | Some la =>
      let isWorking := negb (la <? currentBin) in
      let store := match loadStore file with Ok fresh => fresh | Err _ => store end in
      let store := upsertBin store currentBin isWorking in
      let file := saveStore store in
      if (100 <? size (Bins store))%nat then
        let store' := compactBins store in
        (saveStore store', store', [EvSave store; EvCompact; EvSave store'])
      else (file, store, [EvSave store])
  end.

(** * Specification vocabulary *)

(** ** Samples and upserts *)

(** The raw sample stored for the bucket that starts at [t]. *)
Definition sampleOf (s : Store) (t : Z) : option Z := Bins s !! binKey t.

(** A sequence of later ticks: the bucket each one observes and what it
    observes there. *)
Definition upsertAll (s : Store) (obs : list (Z * bool)) : Store :=
  foldl (fun s o => upsertBin s o.1 o.2) s obs.

(** A store with one working sample for each of the [n] buckets from [t] on. *)
Definition sampledStore (t n : Z) : Store :=
  upsertAll (mkStore ∅ [] defaultConfig [])
    ((fun i => (t + binWidth * i, true)) <$> seqZ 0 n).

(** Forty-nine consecutive working buckets from 1700000100 on, a gap, and a
    fiftieth working bucket. *)
Definition gapStore : Store :=
  upsertBin (sampledStore 1700000100 49) 1700018100 true.

(** The store of a tick right after its upsert: the document reloaded when
    that succeeds, else the store the loop holds, with the current bucket
    upserted. *)
Definition tickStore (loc : Z) (file : File) (store : Store) (now la : Z) : Store :=
  let currentBin := floorToBin loc now in
  upsertBin (match loadStore file with Ok fresh => fresh | Err _ => store end)
    currentBin (negb (la <? currentBin)).

(** ** Windows *)

(** [t] is a bucket start of the zone [loc]. *)
Definition bucketStart (loc t : Z) : Prop := (t + loc) mod binWidth = 0.

(** The bucket starts from [first] up to, and excluding, [lim], one bucket
    width apart. *)
Definition bucketGrid (first lim : Z) : list Z :=
  (fun i => first + binWidth * i) <$> seqZ 0 ((lim - first + binWidth - 1) / binWidth).

(** [t] is a bucket the range loop of [fetchBins] visits for [r], whatever the
    window. *)
Definition onRangeGrid (loc : Z) (r : Range) (t : Z) : Prop :=
  floorToBin loc (Start r) <= t < End_ r
  /\ (t - floorToBin loc (Start r)) mod binWidth = 0.

(** The decompressed range [r] assigns a status to bucket [t] of the window
    [[start, end_)]. *)
Definition rangeAssigns (loc start end_ : Z) (r : Range) (t : Z) : Prop :=
  start <= End_ r /\ Start r < end_ /\ start <= t < end_ /\ onRangeGrid loc r t.

(** A raw sample assigns status [v] to bucket [t] of the window. *)
Definition rawAssigns (s : Store) (start end_ : Z) (t v : Z) : Prop :=
  exists k, Bins s !! k = Some v /\ Strconv.ParseInt k = Some t /\ start <= t < end_.

#[global] Instance onRangeGrid_dec loc r t : Decision (onRangeGrid loc r t).
Proof. unfold onRangeGrid. apply _. Defined.

#[global] Instance rangeAssigns_dec loc start end_ r t :
  Decision (rangeAssigns loc start end_ r t).
Proof. unfold rangeAssigns. apply _. Defined.

(** The range of [rs] that assigns bucket [t] last. *)
Definition lastAssigning (loc start end_ : Z) (rs : list Range) (t : Z) : option Range :=
  last (filter (fun r => rangeAssigns loc start end_ r t) rs).

(** ** Focus statistics *)

(** The pairs of neighbouring elements of a sequence. *)
Definition adjacent (l : list Z) : list (Z * Z) := zip l (tail l).

(** The number of status changes between neighbouring buckets. *)
Definition switchCount (l : list Z) : Z :=
  Z.of_nat (length (filter (fun p : Z * Z => p.1 <> p.2) (adjacent l))).

(** The [n] buckets from position [i] on are all working. *)
Definition workingRun (l : list Z) (i n : nat) : Prop :=
  forall j, (i <= j < i + n)%nat -> l !! j = Some working.

(** [m] is the length of the longest unbroken run of working buckets. *)
Definition longestRun (l : list Z) (m : nat) : Prop :=
  (exists i, workingRun l i m) /\ (forall i n, workingRun l i n -> (n <= m)%nat).

(** The sequence ends with exactly [c] working buckets. *)
Definition trailingRun (l : list Z) (c : nat) : Prop :=
  (c <= length l)%nat
  /\ workingRun l (length l - c) c
  /\ ((c < length l)%nat -> l !! (length l - S c)%nat <> Some working).

(** ** Runs and ranges *)

(** The status the compactor reads for the instant [t]:
    [s.Bins[strconv.FormatInt(t.Unix(), 10)]]. *)
Definition sampleStatus (bins : gmap string Z) (t : Z) : Z :=
  binStatus bins (binKey t).

(** A run: neighbouring instants are exactly one bucket width apart and have
    the same status. *)
Inductive isRun (st : Z -> Z) : list Z -> Prop :=
| isRun_one t : isRun st [t]
| isRun_cons t t' l :
    t' - t = binWidth -> st t' = st t -> isRun st (t' :: l) ->
    isRun st (t :: t' :: l).

(** [runs] cuts [times] into maximal runs: each piece is a run and no two
    neighbouring pieces form a run together. *)
Definition maximalRuns (st : Z -> Z) (times : list Z) (runs : list (list Z)) : Prop :=
  concat runs = times
  /\ Forall (isRun st) runs
  /\ forall i r1 r2, runs !! i = Some r1 -> runs !! S i = Some r2 ->
       ~ isRun st (r1 ++ r2).

(** The range emitted for a run: from its first instant to one bucket width
    past its last, with the status of the run, untagged. *)
Definition rangeOfRun (st : Z -> Z) (run : list Z) : Range :=
  mkRange (List.hd 0 run) (List.last run 0 + binWidth) (st (List.hd 0 run))
    EmptyString EmptyString.

(** ** Well-formed stores *)

(** A key is canonical when it is the decimal rendering [FormatInt] gives to
    the instant it parses to; [upsertBin] writes no other keys. *)
Definition canonicalKey (k : string) : Prop :=
  match Strconv.ParseInt k with
  | Some t => binKey t = k
  | None => False
  end.

#[global] Instance canonicalKey_dec k : Decision (canonicalKey k).
Proof. unfold canonicalKey. destruct (Strconv.ParseInt k); apply _. Defined.

Definition canonicalBins (s : Store) : Prop :=
  map_Forall (fun k _ => canonicalKey k) (Bins s).

(** Every raw sample sits on a bucket start as [floorToBin] computes it. *)
Definition alignedBins (loc : Z) (s : Store) : Prop :=
  map_Forall (fun k _ =>
    match Strconv.ParseInt k with
    | Some t => floorToBin loc t = t
    | None => True
    end) (Bins s).

(** No stored range gives a raw-sampled bucket a status other than its
    sample's. *)
Definition rangesAgree (loc : Z) (s : Store) : Prop :=
  map_Forall (fun k v =>
    match Strconv.ParseInt k with
    | Some t => Forall (fun r => onRangeGrid loc r t -> Status r = v) (Ranges s)
    | None => True
    end) (Bins s).

#[global] Instance canonicalBins_dec s : Decision (canonicalBins s).
Proof. unfold canonicalBins. apply _. Defined.

#[global] Instance alignedBins_dec loc s : Decision (alignedBins loc s).
Proof.
  unfold alignedBins. apply map_Forall_dec. intros k _.
  destruct (Strconv.ParseInt k); apply _.
Defined.

#[global] Instance rangesAgree_dec loc s : Decision (rangesAgree loc s).
Proof.
  unfold rangesAgree. apply map_Forall_dec. intros k v.
  destruct (Strconv.ParseInt k); apply _.
Defined.

(** ** The loops of the compactor, by recursion on the slice *)

(** The inner loop of the sort as it acts on [times[i]] and the elements
    after it: the smaller of the two stays at position [i]. *)
Fixpoint bubbleMin (x : Z) (rest : list Z) : Z * list Z :=
  match rest with
  | [] => (x, [])
  | y :: r =>
      if y <? x then let mr := bubbleMin y r in (mr.1, x :: mr.2)
      else let mr := bubbleMin x r in (mr.1, y :: mr.2)
  end.

(** [n] iterations of the outer loop of the sort on the part of the slice
    they act on. *)
Fixpoint selSort (n : nat) (l : list Z) : list Z :=
  match n, l with
  | S n', x :: rest => let mr := bubbleMin x rest in mr.1 :: selSort n' mr.2
  | _, _ => l
  end.

(** The instants after [prev] that continue its run, and what is left. *)
Fixpoint takeRun (st : Z -> Z) (status prev : Z) (rest : list Z) : list Z * list Z :=
  match rest with
  | [] => ([], [])
  | next :: rest' =>
      if (st next =? status) && (next - prev =? binWidth) then
        let rr := takeRun st status next rest' in (next :: rr.1, rr.2)
      else ([], rest)
  end.

(** The runs the emitting loop walks through. *)
Fixpoint runsOf (fuel : nat) (st : Z -> Z) (times : list Z) : list (list Z) :=
  match fuel, times with
  | S f, start :: rest =>
      let rr := takeRun st (st start) start rest in
      (start :: rr.1) :: runsOf f st rr.2
  | _, _ => []
  end.

(** ** Configuration input *)

(** An integer literal: an optional sign and at least one decimal digit. *)
Fixpoint allDigits (s : string) : bool :=
  match s with
  | EmptyString => true
  | String c r =>
      match Strconv.digit_of c with
      | Some _ => allDigits r
      | None => false
      end
  end.

Definition intLiteral (s : string) : Prop :=
  exists sign digits,
    s = (sign ++ digits)%string
    /\ (sign = "" \/ sign = "+" \/ sign = "-")%string
    /\ digits <> EmptyString /\ allDigits digits = true.

(** A daily goal of the form HH:MM with two integer parts. *)
Definition hhmmForm (s : string) : Prop :=
  exists hh mm, s = (hh ++ ":" ++ mm)%string /\ intLiteral hh /\ intLiteral mm.

(** The tokens of a workday string: the two ends of a range, or the trimmed
    members of a comma-separated list. *)
Definition workdayTokens (TrimSpace : string -> string) (s : string) : list string :=
  if Strings.Contains s "-"%char then Strings.Split s "-"%char
  else TrimSpace <$> Strings.Split s ","%char.

Definition namesDay (ToLower : string -> string) (tok : string) : Prop :=
  is_Some (dayMap !! ToLower tok).

(** An invalid configuration update, by key. *)
Definition invalidConfig (ToLower TrimSpace : string -> string)
    (key value : string) : Prop :=
  (key = "dailygoal"%string /\ ~ hhmmForm value)
  \/ (key = "workdays"%string
      /\ exists tok, tok ∈ workdayTokens TrimSpace value /\ ~ namesDay ToLower tok).

(** * More of the program

    The reports, the timeline and the handlers of the dashboard, over the
    same conventions.  In addition:
    - with the constant zone offset, [t.AddDate(0, 0, n)] is [n] times 24
      hours later ([AddDays]) and the local midnight of an instant is
      [startOfDay]; the month and the year of the calendar are not modelled,
      so the month and year parts of the reports are left out;
    - a run-time panic (an index out of range, a negative count of
      [strings.Repeat]) is the result [None];
    - what a function prints or renders is the list of the values it prints,
      without their layout and styling. *)

(** ** Totals of a window *)

(** [for _, v := range bins { if v == 1 { workMins += binMinutes } }], the
    loop by which [reportAggregateDaily], [reportYearMonthly],
    [create7DayWorkingHours], [create30DayGrid], [findBestWorstDays] and
    [calculatePeriodProgress] add up a window of [fetchBins]. *)
Definition workMinutes (bins : gmap Z Z) : Z :=
  foldl (fun acc tv => if tv.2 =? 1 then GoInt.add acc binMinutes else acc)
    0 (map_to_list bins).

(** ** Days and weeks *)

(** [t.Weekday()], Sunday being 0: the first of January 1970 was a
    Thursday. *)
Definition Weekday (loc t : Z) : Z := ((t + loc) / 86400 + 4) mod 7.

(** [t.AddDate(0, 0, n)]: with a constant zone offset, the same wall-clock
    time [n] days later. *)
Definition AddDays (t n : Z) : Z := t + 86400 * n.


(** The minutes of the day of [d], as the daily reports add them up:
    [dayStart] is the local midnight of [d], [dayEnd] 24 hours later. *)
Definition dayMinutes (loc : Z) (s : Store) (d : Z) : Z :=
  let dayStart := startOfDay loc d in
  let dayEnd := dayStart + 86400 in
  workMinutes (fetchBins loc s dayStart dayEnd).


(** The start of the week of [report] and [calculatePeriodProgress]: the
    local midnight of today, [weekday - 1] days back. *)
Definition weekStart (loc now : Z) : Z :=
  let weekday := Weekday loc now in
  let weekday := if weekday =? 0 then 7 else weekday in
  AddDays (startOfDay loc now) (- (weekday - 1)).




(** ** The timeline of today *)

Record TimelineBlock := mkBlock {
  blockStart : Z;
  blockEnd : Z;
  blockStatus : Z;
  blockDuration : Z;
  blockTag : string;
  blockNote : string;
  rangeIdx : Z
}.

(** [int(b.Sub(a).Minutes())] for two instants of one window: they are less
    than 292 years apart, so [Sub] does not saturate, and the conversion to
    [int] drops the fraction of a minute. *)
Definition minutesBetween (a b : Z) : Z := Z.quot (b - a) 60.

(** [for j < len(seq) && status[seq[j]] == st { j++ }] *)
Fixpoint sameStatusEnd (fuel : nat) (seq : list Z) (status : gmap Z Z) (st : Z)
    (j : nat) : nat :=
  match fuel with
  | O => j
  | S f =>
      match seq !! j with
      | Some t =>
          if statusAt status t =? st then sameStatusEnd f seq status st (S j)
          else j
      | None => j
      end
  end.

(** The merging loop that [buildTimelineBlocks] and [reportToday] share,
    [for i := 0; i < len(seq); { ...; i = j }]: [body] is what each of them
    does with a merged block, given its first bucket, its status and its
    end. *)
Fixpoint mergeLoop {A} (fuel : nat) (seq : list Z) (status : gmap Z Z)
    (body : Z -> Z -> Z -> A -> A) (i : nat) (acc : A) : A :=
  match fuel with
  | O => acc
  | S f =>
      match seq !! i with
      | None => acc
      | Some startBin =>
          let st := statusAt status startBin in
          let j := sameStatusEnd (length seq) seq status st i in
          let endBin := default 0 (seq !! (j - 1)%nat) + binWidth in
          mergeLoop f seq status body j (body startBin st endBin acc)
      end
  end.

(** The search for the tag of a block: the first range, in stored order,
    that holds the start of the block, with its index; [-1] when there is
    none. *)
Fixpoint findRange (ranges : list Range) (idx : Z) (startBin : Z)
  : string * string * Z :=
  match ranges with
  | [] => (EmptyString, EmptyString, -1)
  | r :: rest =>
      if negb (startBin <? Start r) && (startBin <? End_ r)
      then (Tag r, Note r, idx)
      else findRange rest (idx + 1) startBin
  end.

Definition blockOf (ranges : list Range) (startBin st endBin : Z) : TimelineBlock :=
  let found := findRange ranges 0 startBin in
  mkBlock startBin endBin st (minutesBetween startBin endBin)
    found.1.1 found.1.2 found.2.

Definition buildTimelineBlocks (loc : Z) (s : Store) (now : Z) : list TimelineBlock :=
  let start := startOfDay loc now in
  let bins := fetchBins loc s start now in
  let seq := buildSeq loc start now in
  let status := statusMap seq bins in
  mergeLoop (length seq) seq status
    (fun startBin st endBin blocks => blocks ++ [blockOf (Ranges s) startBin st endBin])
    0%nat [].


(** [saveTag]: the store after tagging a block. *)
Definition saveTag (s : Store) (block : TimelineBlock) (tag : string) : Store :=
  if (0 <=? rangeIdx block) && (rangeIdx block <? Z.of_nat (length (Ranges s)))
  then
    setRanges s
      (alter (fun r => mkRange (Start r) (End_ r) (Status r) tag (Note r))
         (Z.to_nat (rangeIdx block)) (Ranges s))
  else
    setRanges s
      (Ranges s ++ [mkRange (blockStart block) (blockEnd block)
                      (blockStatus block) tag EmptyString]).

(** ** Best and worst day *)

(** The four results of [findBestWorstDays]; a day that was never assigned
    is the zero [time.Time], here [None]. *)
Record BestWorst := mkBestWorst {
  bestDay : option Z;
  bestMins : Z;
  worstDay : option Z;
  worstMins : Z
}.

(** What the loop of [findBestWorstDays] does with one day and its working
    minutes. *)
Definition bestWorstDay (acc : BestWorst) (targetDay workMins : Z) : BestWorst :=
  if workMins =? 0 then acc
  else
    let acc :=
      if bestMins acc <? workMins
      then mkBestWorst (Some targetDay) workMins (worstDay acc) (worstMins acc)
      else acc in
    if workMins <? worstMins acc
    then mkBestWorst (bestDay acc) (bestMins acc) (Some targetDay) workMins
    else acc.

Definition findBestWorstDays (loc : Z) (s : Store) (now : Z) : BestWorst :=
  foldl (fun acc dayIndex =>
           let targetDay := AddDays now (- (29 - dayIndex)) in
           bestWorstDay acc targetDay (dayMinutes loc s targetDay))
    (mkBestWorst None (-1) None 9999) (seqZ 0 30).

(** ** Progress bars *)

(** [strings.Repeat]: it panics, here [None], when the count is negative.
    A string is the list of its characters. *)
Definition Repeat {A} (x : A) (count : Z) : option (list A) :=
  if count <? 0 then None else Some (replicate (Z.to_nat count) x).

(** The two characters of a bar: a full block and a light shade. *)
Inductive cell := Filled | Shade.

(** The bar of [createProgressBar] before it is styled. *)
Definition createProgressBar (percentage width : Z) : option (list cell) :=
  let percentage := if 100 <? percentage then 100 else percentage in
  let filled := GoInt.div (GoInt.mul percentage width) 100 in
  match Repeat Filled filled, Repeat Shade (GoInt.wrap64 (width - filled)) with
  | Some a, Some b => Some (a ++ b)
  | _, _ => None
  end.

(** The width [View] gives to the week, month and year bars:
    [leftColWidth := m.width/3 - 2] and then [leftColWidth-15]. *)
Definition periodBarWidth (termWidth : Z) : Z :=
  GoInt.wrap64 (GoInt.wrap64 (GoInt.div termWidth 3 - 2) - 15).

(** ** The marks of a day *)







(** ** The dashboard *)

Definition setTags (s : Store) (tags : list string) : Store :=
  mkStore (Bins s) (Ranges s) (Conf s) tags.

Fixpoint contains (slice : list string) (item : string) : bool :=
  match slice with
  | [] => false
  | s :: rest => if String.eqb s item then true else contains rest item
  end.

(** The order of [sort.Strings]: byte by byte. *)
Definition strLe (a b : string) : Prop := String.leb a b = true.

#[global] Instance strLe_dec a b : Decision (strLe a b).
Proof. unfold strLe. apply _. Defined.

(** [sort.Strings]: the sorted arrangement of the slice. *)
Definition sortStrings (l : list string) : list string := merge_sort strLe l.

(** [s[:len(s)-1]] *)
Fixpoint dropLastByte (s : string) : string :=
  match s with
  | EmptyString => EmptyString
  | String c EmptyString => EmptyString
  | String c r => String c (dropLastByte r)
  end.

(** The fields of [dashboardModel] that the handlers read and write; the
    document at [filePath] is passed beside the model. *)
Record dashboardModel := mkModel {
  mStore : Store;
  mWidth : Z;
  mHeight : Z;
  selectedTimeline : Z;
  showTagDialog : bool;
  tagInput : string;
  availableTags : list string;
  selectedTag : Z;
  timelineBlocks : list TimelineBlock;
  showingTagSuggestions : bool
}.

Definition setSelectedTimeline (m : dashboardModel) (i : Z) : dashboardModel :=
  mkModel (mStore m) (mWidth m) (mHeight m) i (showTagDialog m) (tagInput m)
    (availableTags m) (selectedTag m) (timelineBlocks m) (showingTagSuggestions m).

Definition setShowTagDialog (m : dashboardModel) (b : bool) : dashboardModel :=
  mkModel (mStore m) (mWidth m) (mHeight m) (selectedTimeline m) b (tagInput m)
    (availableTags m) (selectedTag m) (timelineBlocks m) (showingTagSuggestions m).

Definition setTagInput (m : dashboardModel) (t : string) : dashboardModel :=
  mkModel (mStore m) (mWidth m) (mHeight m) (selectedTimeline m) (showTagDialog m) t
    (availableTags m) (selectedTag m) (timelineBlocks m) (showingTagSuggestions m).

Definition setAvailableTags (m : dashboardModel) (l : list string) : dashboardModel :=
  mkModel (mStore m) (mWidth m) (mHeight m) (selectedTimeline m) (showTagDialog m)
    (tagInput m) l (selectedTag m) (timelineBlocks m) (showingTagSuggestions m).

Definition setSelectedTag (m : dashboardModel) (i : Z) : dashboardModel :=
  mkModel (mStore m) (mWidth m) (mHeight m) (selectedTimeline m) (showTagDialog m)
    (tagInput m) (availableTags m) i (timelineBlocks m) (showingTagSuggestions m).

Definition setShowingTagSuggestions (m : dashboardModel) (b : bool) : dashboardModel :=
  mkModel (mStore m) (mWidth m) (mHeight m) (selectedTimeline m) (showTagDialog m)
    (tagInput m) (availableTags m) (selectedTag m) (timelineBlocks m) b.

Definition setSize (m : dashboardModel) (w h : Z) : dashboardModel :=
  mkModel (mStore m) w h (selectedTimeline m) (showTagDialog m)
    (tagInput m) (availableTags m) (selectedTag m) (timelineBlocks m)
    (showingTagSuggestions m).

(** [m.store = store] followed by [m.buildTimelineBlocks()]. *)
Definition setStore (loc now : Z) (m : dashboardModel) (store : Store) : dashboardModel :=
  mkModel store (mWidth m) (mHeight m) (selectedTimeline m) (showTagDialog m)
    (tagInput m) (availableTags m) (selectedTag m)
    (buildTimelineBlocks loc store now) (showingTagSuggestions m).

(** [len(slice)] *)
Definition len {A} (l : list A) : Z := Z.of_nat (length l).

(** [slice[i]]; [None] is the panic of an index out of range. *)
Definition index {A} (l : list A) (i : Z) : option A :=
  if i <? 0 then None else l !! Z.to_nat i.

(** The store after the tag of the dialog is saved for [block]: [saveTag],
    then the tag joins the catalogue when it is new and not empty. *)
Definition tagStore (store : Store) (block : TimelineBlock) (tag : string) : Store :=
  let store := saveTag store block tag in
  if negb (String.eqb tag EmptyString) && negb (contains (Tags store) tag)
  then setTags store (sortStrings (Tags store ++ [tag]))
  else store.

(** [handleTagDialog]; the result is the model and the document, [None]
    when an index is out of range. *)
Definition handleTagDialog (loc now : Z) (file : File) (m : dashboardModel)
    (key : string) : option (dashboardModel * File) :=
  if String.eqb key "esc" then
    Some (setShowingTagSuggestions (setShowTagDialog m false) false, file)
  else if String.eqb key "enter" then
    if showingTagSuggestions m && (selectedTag m <? len (availableTags m)) then
      match index (availableTags m) (selectedTag m) with
      | None => None
      | Some tag =>
          Some (setShowingTagSuggestions (setTagInput m tag) false, file)
      end
    else
      let saved :=
        if selectedTimeline m <? len (timelineBlocks m) then
          match index (timelineBlocks m) (selectedTimeline m) with
          | None => None
          | Some block =>
              let store := tagStore (mStore m) block (tagInput m) in
              Some (setStore loc now m store, saveStore store)
          end
        else Some (m, file) in
      match saved with
      | None => None
      | Some (m, file) =>
          Some (setShowingTagSuggestions (setShowTagDialog m false) false, file)
      end
  else if String.eqb key "up" then
    if showingTagSuggestions m && (0 <? selectedTag m)
    then Some (setSelectedTag m (selectedTag m - 1), file)
    else Some (m, file)
  else if String.eqb key "down" then
    if showingTagSuggestions m && (selectedTag m <? len (availableTags m) - 1)
    then Some (setSelectedTag m (selectedTag m + 1), file)
    else Some (m, file)
  else if String.eqb key "tab" then
    if 0 <? len (availableTags m) then
      let m := setShowingTagSuggestions m (negb (showingTagSuggestions m)) in
      if showingTagSuggestions m then Some (setSelectedTag m 0, file)
      else Some (m, file)
    else Some (m, file)
  else if String.eqb key "backspace" then
    if (0 <? String.length (tagInput m))%nat
    then Some (setTagInput m (dropLastByte (tagInput m)), file)
    else Some (m, file)
  else if (String.length key =? 1)%nat
  then Some (setTagInput m (tagInput m ++ key), file)
  else Some (m, file).

Inductive Msg :=
| KeyMsg (key : string)
| WindowSizeMsg (w h : Z)
| TickMsg
| OtherMsg.

Inductive Cmd := CmdNil | CmdQuit | CmdTick.

Definition Update (loc now : Z) (file : File) (m : dashboardModel) (msg : Msg)
  : option (dashboardModel * File * Cmd) :=
  match msg with
  | KeyMsg key =>
      if showTagDialog m then
        match handleTagDialog loc now file m key with
        | Some (m, file) => Some (m, file, CmdNil)
        | None => None
        end
      else if String.eqb key "q" || String.eqb key "esc" || String.eqb key "ctrl+c"
      then Some (m, file, CmdQuit)
      else if String.eqb key "up" || String.eqb key "k" then
        if 0 <? selectedTimeline m
        then Some (setSelectedTimeline m (selectedTimeline m - 1), file, CmdNil)
        else Some (m, file, CmdNil)
      else if String.eqb key "down" || String.eqb key "j" then
        if selectedTimeline m <? len (timelineBlocks m) - 1
        then Some (setSelectedTimeline m (selectedTimeline m + 1), file, CmdNil)
        else Some (m, file, CmdNil)
      else if String.eqb key "enter" then
        if 0 <? len (timelineBlocks m) then
          let m := setShowTagDialog m true in
          let m := setTagInput m EmptyString in
          let m := setSelectedTag m 0 in
          let m := setShowingTagSuggestions m false in
          let m := setAvailableTags m (Tags (mStore m)) in
          Some (m, file, CmdNil)
        else Some (m, file, CmdNil)
      else Some (m, file, CmdNil)
  | WindowSizeMsg w h => Some (setSize m w h, file, CmdNil)
  | TickMsg =>
      if negb (showTagDialog m) then
        match loadStore file with
        | Ok store => Some (setStore loc now m store, file, CmdTick)
        | Err _ => Some (m, file, CmdTick)
        end
      else Some (m, file, CmdTick)
  | OtherMsg => Some (m, file, CmdNil)
  end.

(** ** Tag analytics *)

(** The first loop of [calculateTagHours], one stored range: the tagged
    minutes by tag and the untagged minutes. *)
Definition tagStep (start end_ : Z) (acc : gmap string Z * Z) (r : Range)
  : gmap string Z * Z :=
  if negb (Status r =? 1) || (End_ r <? start) || negb (Start r <? end_) then acc
  else
    let actualStart := if Start r <? start then start else Start r in
    let actualEnd := if end_ <? End_ r then end_ else End_ r in
    let mins := minutesBetween actualStart actualEnd in
    if 0 <? mins then
      if negb (String.eqb (Tag r) EmptyString)
      then (<[Tag r := GoInt.add (default 0 (acc.1 !! Tag r)) mins]> acc.1, acc.2)
      else (acc.1, GoInt.add acc.2 mins)
    else acc.

(** The inner loop of the second loop: some stored range holds [t]. *)
Definition covered (ranges : list Range) (t : Z) : bool :=
  existsb (fun r => negb (t <? Start r) && (t <? End_ r)) ranges.

(** [calculateTagHours] after its [switch]: [start] and [end_] are the
    bounds of the period, for a day the local midnight and 24 hours later,
    for a week [weekStart] and seven days later. *)
Definition calculateTagHours (loc : Z) (s : Store) (start end_ : Z) : gmap string Z :=
  let acc := foldl (tagStep start end_) (∅, 0) (Ranges s) in
  let tagHours := acc.1 in
  let bins := fetchBins loc s start end_ in
  let untaggedHours :=
    foldl (fun untagged (tv : Z * Z) =>
             if tv.2 =? 1 then
               if covered (Ranges s) tv.1 then untagged
               else GoInt.add untagged binMinutes
             else untagged)
      acc.2 (map_to_list bins) in
  if 0 <? untaggedHours then <["(untagged)"%string := untaggedHours]> tagHours
  else tagHours.

(** * More specification vocabulary *)

(** The whole minutes of a range that lie in the window. *)
Definition clippedMinutes (start end_ : Z) (r : Range) : Z :=
  minutesBetween (Z.max (Start r) start) (Z.min (End_ r) end_).

(** A working range with a tag that has at least one whole minute in the
    window. *)
Definition taggedIn (start end_ : Z) (r : Range) : Prop :=
  Status r = working /\ start <= End_ r /\ Start r < end_
  /\ 0 < clippedMinutes start end_ r /\ Tag r <> EmptyString.

#[global] Instance taggedIn_dec start end_ r : Decision (taggedIn start end_ r).
Proof. unfold taggedIn. apply _. Defined.

(** What the handlers of the dashboard keep: the two cursors are not
    negative, and while suggestions are shown the tag cursor is on one of
    them. *)
Definition cursorsOK (m : dashboardModel) : Prop :=
  0 <= selectedTimeline m /\ 0 <= selectedTag m
  /\ (showingTagSuggestions m = true -> selectedTag m < len (availableTags m)).

#[global] Instance cursorsOK_dec m : Decision (cursorsOK m).
Proof. unfold cursorsOK. apply _. Defined.

(** The thirty days [findBestWorstDays] looks at, oldest first, each with
    its working minutes. *)
Definition lastThirtyDays (loc : Z) (s : Store) (now : Z) : list (Z * Z) :=
  (fun i => (AddDays now (- (29 - i)), dayMinutes loc s (AddDays now (- (29 - i)))))
    <$> seqZ 0 30.

(** The range [r] holds the instant [t]. *)
Definition holds (r : Range) (t : Z) : Prop := Start r <= t < End_ r.

#[global] Instance holds_dec r t : Decision (holds r t).
Proof. unfold holds. apply _. Defined.



(** The observations of a sequence of ticks that fall into the bucket of
    [t]. *)
Definition observedAt (t : Z) (obs : list (Z * bool)) : list bool :=
  snd <$> filter (fun o : Z * bool => binKey o.1 = binKey t) obs.

(** The sample of a bucket after one more observation, as [upsertBin]
    leaves it. *)
Definition upsertStatus (o : option Z) (w : bool) : option Z :=
  match o with
  | None => Some (if w then 1 else 0)
  | Some v => Some (if w && (v =? 0) then 1 else v)
  end.

(** The number of working buckets of a map of statuses. *)
Definition workingCount (bins : gmap Z Z) : Z :=
  Z.of_nat (size (filter (fun tv : Z * Z => tv.2 = working) bins)).

(** The ranges [compactBins] appends to those of [s]. *)
Definition emittedRanges (s : Store) : list Range :=
  drop (length (Ranges s)) (Ranges (compactBins s)).

(** [compactBins] acts on [s]: there are at least 50 raw samples and one of
    the keys parses. *)
Definition compacts (s : Store) : Prop :=
  (50 <= size (Bins s))%nat /\ sampledTimes (Bins s) <> [].

#[global] Instance compacts_dec s : Decision (compacts s).
Proof. unfold compacts. apply _. Defined.

(** A store as the sampling loop keeps it: canonical keys, samples on
    bucket starts. *)
Definition wellKept (loc : Z) (s : Store) : Prop :=
  canonicalBins s /\ alignedBins loc s.

#[global] Instance wellKept_dec loc s : Decision (wellKept loc s).
Proof. unfold wellKept. apply _. Defined.

(** A document that holds such a store, or none. *)
Definition fileKept (loc : Z) (f : File) : Prop :=
  match f with
  | Doc s => wellKept loc s
  | _ => True
  end.

(** A timeline block as the merging loop makes it: its tag, note and range
    index are those [findRange] gives for its start, it starts and ends on
    bucket starts, its duration is its length in minutes, and every bucket
    of the grid inside it has its status. *)
Definition blockOK (loc : Z) (ranges : list Range) (seq : list Z)
    (status : gmap Z Z) (b : TimelineBlock) : Prop :=
  b = blockOf ranges (blockStart b) (blockStatus b) (blockEnd b)
  /\ blockStart b < blockEnd b
  /\ bucketStart loc (blockStart b) /\ bucketStart loc (blockEnd b)
  /\ blockDuration b = (blockEnd b - blockStart b) / 60
  /\ forall t, t ∈ seq -> blockStart b <= t < blockEnd b ->
       statusAt status t = blockStatus b.

(** Each block ends where the next one starts, with another status. *)
Definition chained (bs : list TimelineBlock) : Prop :=
  forall k b b', bs !! k = Some b -> bs !! S k = Some b' ->
    blockEnd b = blockStart b' /\ blockStatus b <> blockStatus b'.

(** * Properties *)

(** ** Go integers *)

Lemma wrap64_id z : GoInt.in_int64 z -> GoInt.wrap64 z = z.
Proof.
  unfold GoInt.in_int64, GoInt.min_int64, GoInt.max_int64, GoInt.wrap64.
  intros H. rewrite Z.mod_small; lia.
Qed.

Lemma wrap64_range z : GoInt.in_int64 (GoInt.wrap64 z).
Proof.
  unfold GoInt.in_int64, GoInt.min_int64, GoInt.max_int64, GoInt.wrap64.
  pose proof (Z.mod_pos_bound (z + 2 ^ 63) (2 ^ 64)). lia.
Qed.

(** ** The store: sticky promotion *)

Lemma upsertBin_lookup s t w k :
  Bins (upsertBin s t w) !! k =
    if decide (k = binKey t) then
      match Bins s !! k with
      | None => Some (if w then 1 else 0)
      | Some v => Some (if w && (v =? 0) then 1 else v)
      end
    else Bins s !! k.
Proof.
  unfold upsertBin, binStatus.
  destruct (decide (k = binKey t)) as [->|Hne].
  - destruct (Bins s !! binKey t) as [v|] eqn:E; simpl.
    + destruct w; simpl.
      * destruct (v =? 0) eqn:Ev; simpl.
        -- apply lookup_insert_eq.
        -- exact E.
      * destruct (v =? 0); simpl; exact E.
    + destruct w; simpl; rewrite ?E; simpl; apply lookup_insert_eq.
  - destruct (w && (default 0 (Bins s !! binKey t) =? 0)); simpl.
    + by rewrite lookup_insert_ne.
    + destruct ((default 0 (Bins s !! binKey t) =? 0) && negb w); [|done].
      destruct (Bins s !! binKey t); [done|].
      simpl. by rewrite lookup_insert_ne.
Qed.





(** ** Goal progress *)

(** C8 as stated does not hold: the product [workMins * 100] wraps around
    for [workMins = 2^62], a non-negative Go integer. *)
Lemma formatPercentage_overflow :
  ~ (forall workMins goalMins : Z,
       GoInt.in_int64 workMins -> GoInt.in_int64 goalMins ->
       0 <= workMins -> 0 <= goalMins ->
       formatPercentage workMins goalMins =
         if goalMins =? 0 then "0%"%string
         else (fmtInt (workMins * 100 / goalMins) ++ "% of "
               ++ humanDuration goalMins)%string).
Proof.
  intros H. specialize (H (2 ^ 62) 1).
  assert (Hf : formatPercentage (2 ^ 62) 1 = "0% of 1 min"%string)
    by (vm_compute; reflexivity).
  rewrite Hf in H.
  assert (Hg : (fmtInt (2 ^ 62 * 100 / 1) ++ "% of " ++ humanDuration 1)%string
               = "461168601842738790400% of 1 min"%string)
    by (vm_compute; reflexivity).
  change (1 =? 0) with false in H. cbv iota in H. rewrite Hg in H.
  assert (Hr : GoInt.in_int64 (2 ^ 62) /\ GoInt.in_int64 1)
    by (unfold GoInt.in_int64, GoInt.min_int64, GoInt.max_int64; lia).
  specialize (H (proj1 Hr) (proj2 Hr) ltac:(lia) ltac:(lia)).
  discriminate H.
Qed.

(** C8, amended.  When [workMins * 100] fits a Go [int], the result is "0%"
    for a zero goal and otherwise the floor of [workMins * 100 / goalMins]
    followed by "% of " and the goal as [humanDuration] prints it;
    [formatPercentage(240, 480)] is "50% of 8 hrs" and
    [formatPercentage(0, 0)] is "0%". *)
Theorem formatPercentage_spec (workMins goalMins : Z) :
  0 <= workMins -> workMins * 100 <= GoInt.max_int64 -> 0 <= goalMins ->
  formatPercentage workMins goalMins =
    (if goalMins =? 0 then "0%"%string
     else (fmtInt (workMins * 100 / goalMins) ++ "% of " ++ humanDuration goalMins)%string)
  /\ formatPercentage 240 480 = "50% of 8 hrs"%string
  /\ formatPercentage 0 0 = "0%"%string.
Proof.
  intros Hw Hb Hg. split; [|split; vm_compute; reflexivity].
  unfold formatPercentage.
  destruct (goalMins =? 0) eqn:E; [reflexivity|].
  apply Z.eqb_neq in E.
  unfold GoInt.mul, GoInt.div.
  assert (Hin : GoInt.in_int64 (workMins * 100))
    by (unfold GoInt.in_int64, GoInt.min_int64, GoInt.max_int64 in *; lia).
  rewrite (wrap64_id _ Hin).
  rewrite Z.quot_div_nonneg by lia.
  assert (Hq : 0 <= workMins * 100 / goalMins <= workMins * 100).
  { split; [apply Z.div_pos; lia|].
    apply Z.div_le_upper_bound; [lia|]. nia. }
  rewrite wrap64_id; [reflexivity|].
  unfold GoInt.in_int64, GoInt.min_int64, GoInt.max_int64 in *. lia.
Qed.

Lemma formatPercentage_spec_witness :
  formatPercentage 90 480 =
    (if 480 =? 0 then "0%"%string
     else (fmtInt (90 * 100 / 480) ++ "% of " ++ humanDuration 480)%string)
  /\ formatPercentage 240 480 = "50% of 8 hrs"%string
  /\ formatPercentage 0 0 = "0%"%string.
Proof.
  apply (formatPercentage_spec 90 480); unfold GoInt.max_int64; lia.
Defined.

(** ** Focus statistics: the scan *)

Lemma adjacent_cons a b l : adjacent (a :: b :: l) = (a, b) :: adjacent (b :: l).
Proof. reflexivity. Qed.

Lemma switchCount_cons a b l :
  switchCount (a :: b :: l) = (if decide (a = b) then 0 else 1) + switchCount (b :: l).
Proof.
  unfold switchCount. rewrite adjacent_cons, filter_cons. simpl.
  destruct (decide (a <> b)) as [Hne|He]; destruct (decide (a = b));
    try tauto; simpl length; lia.
Qed.


Lemma focus_switches l : forall a,
  0 <= contextSwitches a ->
  contextSwitches a + Z.of_nat (length l) <= GoInt.max_int64 ->
  contextSwitches (foldl focusStep a l)
    = contextSwitches a + switchCount (prevStatus a :: l).
Proof.
  induction l as [|x l IH]; intros a H0 Hb.
  - simpl. unfold switchCount. simpl. lia.
  - cbn [foldl]. rewrite switchCount_cons.
    assert (Hstep : contextSwitches (focusStep a x)
                    = contextSwitches a + (if decide (prevStatus a = x) then 0 else 1)).
    { unfold focusStep. cbn [contextSwitches].
      destruct (decide (prevStatus a = x)) as [->|Hne].
      - rewrite Z.eqb_refl. simpl. lia.
      - assert (E : (x =? prevStatus a) = false) by (apply Z.eqb_neq; congruence).
        rewrite E. simpl. unfold GoInt.add. apply wrap64_id.
        unfold GoInt.in_int64, GoInt.min_int64, GoInt.max_int64 in *.
        simpl length in Hb. lia. }
    assert (Hp : prevStatus (focusStep a x) = x) by reflexivity.
    simpl length in Hb.
    rewrite IH, Hstep, Hp; [lia| |].
    + rewrite Hstep. destruct (decide _); lia.
    + rewrite Hstep. destruct (decide _); lia.
Qed.

Lemma workingRun_app_l l x i n :
  (i + n <= length l)%nat -> workingRun (l ++ [x]) i n <-> workingRun l i n.
Proof.
  intros Hb. unfold workingRun. split; intros H j Hj.
  - specialize (H j Hj). rewrite lookup_app_l in H by lia. exact H.
  - rewrite lookup_app_l by lia. by apply H.
Qed.

Lemma workingRun_in_range l i n :
  workingRun l i n -> (0 < n)%nat -> (i + n <= length l)%nat.
Proof.
  intros H Hn. specialize (H (i + n - 1)%nat ltac:(lia)).
  apply lookup_lt_Some in H. lia.
Qed.

Lemma focus_runs l : forall first,
  Z.of_nat (length l) * binMinutes <= GoInt.max_int64 ->
  let a := foldl focusStep (mkFocusAcc 0 0 first 0) l in
  exists c m : nat,
    trailingRun l c /\ longestRun l m /\ (c <= m)%nat
    /\ currentFocus a = binMinutes * Z.of_nat c
    /\ longestFocus a = binMinutes * Z.of_nat m.
Proof.
  intros first. induction l as [|x l IH] using rev_ind; intros Hb.
  - exists 0%nat, 0%nat. simpl. repeat split; try lia.
    + intros j Hj. lia.
    + simpl. lia.
    + exists 0%nat. intros j Hj. lia.
    + intros i n H. destruct n; [lia|].
      specialize (H i ltac:(lia)). done.
  - rewrite length_app in Hb. simpl length in Hb.
    destruct IH as (c & m & (Hc1 & Hc2 & Hc3) & (Hm1 & Hm2) & Hcm & Ecur & Elong);
      [unfold binMinutes in *; lia|].
    intros a. subst a. rewrite foldl_app. cbn [foldl].
    set (a := foldl focusStep (mkFocusAcc 0 0 first 0) l) in *.
    unfold focusStep. cbn [currentFocus longestFocus].
    destruct (decide (x = working)) as [->|Hx].
    + (* the run goes on *)
      change (working =? 1) with true. cbn [andb].
      assert (Eadd : GoInt.add (currentFocus a) binMinutes
                     = binMinutes * Z.of_nat (S c)).
      { unfold GoInt.add. rewrite Ecur, wrap64_id.
        - unfold binMinutes. lia.
        - unfold GoInt.in_int64, GoInt.min_int64, GoInt.max_int64, binMinutes in *.
          lia. }
      rewrite Eadd.
      assert (Ht : trailingRun (l ++ [working]) (S c)).
      { unfold trailingRun. rewrite length_app. simpl length.
        repeat split; [lia| |].
        - intros j Hj.
          destruct (decide (j = length l)) as [->|Hne].
          + rewrite lookup_app_r by lia. by rewrite Nat.sub_diag.
          + rewrite lookup_app_l by lia. apply Hc2. lia.
        - intros Hlt. rewrite lookup_app_l by lia.
          replace (length l + 1 - S (S c))%nat with (length l - S c)%nat by lia.
          apply Hc3. lia. }
      destruct (decide (m < S c)%nat) as [Hlt|Hge].
      * exists (S c), (S c). rewrite Elong.
        assert (E : (binMinutes * Z.of_nat m <? binMinutes * Z.of_nat (S c)) = true)
          by (apply Z.ltb_lt; unfold binMinutes; lia).
        rewrite E.
        refine (conj Ht (conj (conj _ _) (conj _ (conj _ _)))); try done.
        -- exists (length (l ++ [working]) - S c)%nat. apply Ht.
        -- intros i n H.
           destruct (decide (n = 0)%nat) as [->|Hn]; [lia|].
           pose proof (workingRun_in_range _ _ _ H ltac:(lia)) as Hr.
           rewrite length_app in Hr. simpl length in Hr.
           destruct (decide (i + n <= length l)%nat) as [Hin|Hout].
           ++ apply workingRun_app_l in H; [|done]. apply Hm2 in H. lia.
           ++ destruct (decide (n <= S c)%nat); [done|]. exfalso.
              apply Hc3; [lia|].
              specialize (H (length l - S c)%nat ltac:(lia)).
              rewrite lookup_app_l in H by lia. exact H.
      * exists (S c), m. rewrite Elong.
        assert (E : (binMinutes * Z.of_nat m <? binMinutes * Z.of_nat (S c)) = false)
          by (apply Z.ltb_ge; unfold binMinutes; lia).
        rewrite E.
        refine (conj Ht (conj (conj _ _) (conj _ (conj _ _)))); try done; try lia.
        -- destruct Hm1 as [i Hi]. exists i.
           destruct (decide (m = 0)%nat) as [->|Hn]; [intros j Hj; lia|].
           apply workingRun_app_l; [|done].
           apply workingRun_in_range; [done|lia].
        -- intros i n H.
           destruct (decide (n = 0)%nat) as [->|Hn]; [lia|].
           pose proof (workingRun_in_range _ _ _ H ltac:(lia)) as Hr.
           rewrite length_app in Hr. simpl length in Hr.
           destruct (decide (i + n <= length l)%nat) as [Hin|Hout].
           ++ apply workingRun_app_l in H; [|done]. by apply (Hm2 i).
           ++ destruct (decide (n <= S c)%nat); [lia|]. exfalso.
              apply Hc3; [lia|].
              specialize (H (length l - S c)%nat ltac:(lia)).
              rewrite lookup_app_l in H by lia. exact H.
    + (* an idle bucket ends the run *)
      assert (E : (x =? 1) = false) by (apply Z.eqb_neq; exact Hx).
      rewrite E. cbn [andb].
      exists 0%nat, m. rewrite Elong.
      assert (Hlast : (l ++ [x]) !! length l = Some x).
      { rewrite lookup_app_r by lia. by rewrite Nat.sub_diag. }
      refine (conj (conj _ (conj _ _)) (conj (conj _ _) (conj _ (conj _ _))));
        try done; try lia.
      * intros j Hj. lia.
      * intros _. rewrite length_app. simpl length.
        replace (length l + 1 - 1)%nat with (length l) by lia.
        rewrite Hlast. congruence.
      * destruct Hm1 as [i Hi]. exists i.
        destruct (decide (m = 0)%nat) as [->|Hn]; [intros j Hj; lia|].
        apply workingRun_app_l; [|done].
        apply workingRun_in_range; [done|lia].
      * intros i n H.
        destruct (decide (n = 0)%nat) as [->|Hn]; [lia|].
        pose proof (workingRun_in_range _ _ _ H ltac:(lia)) as Hr.
        rewrite length_app in Hr. simpl length in Hr.
        destruct (decide (i + n <= length l)%nat) as [Hin|Hout].
        -- apply workingRun_app_l in H; [|done]. by apply (Hm2 i).
        -- exfalso. specialize (H (length l) ltac:(lia)).
           rewrite Hlast in H. congruence.
Qed.

(** The scan of [calculateFocusStats] on any sequence of statuses short
    enough for its counters. *)
Lemma focusScan_spec l :
  Z.of_nat (length l) * binMinutes <= GoInt.max_int64 ->
  exists m : nat,
    longestRun l m
    /\ focusScan l = (binMinutes * Z.of_nat m, switchCount l).
Proof.
  intros Hb. destruct l as [|first l'].
  - exists 0%nat. split; [|reflexivity]. split.
    + exists 0%nat. intros j Hj. lia.
    + intros i n H. destruct n; [lia|]. specialize (H i ltac:(lia)). done.
  - destruct (focus_runs (first :: l') first Hb) as (c & m & _ & Hm & _ & _ & Elong).
    exists m. split; [done|].
    change (focusScan (first :: l')) with
      (longestFocus (foldl focusStep (mkFocusAcc 0 0 first 0) (first :: l')),
       contextSwitches (foldl focusStep (mkFocusAcc 0 0 first 0) (first :: l'))).
    cbv zeta in Elong. rewrite Elong. f_equal.
    rewrite focus_switches; cbn [contextSwitches prevStatus].
    + rewrite switchCount_cons, decide_True by done. lia.
    + lia.
    + unfold binMinutes, GoInt.max_int64 in *. lia.
Qed.

(** ** The bucket clock *)

Ltac zmod := unfold binWidth, binMinutes in *; Z.div_mod_to_equations; lia.

Lemma floorToBin_eq loc t :
  floorToBin loc t = truncateMinute t - (truncateMinute t + loc) mod binWidth.
Proof.
  unfold floorToBin, dateSameHour, minuteOf, truncateMinute. zmod.
Qed.

Lemma floorToBin_bucketStart loc t : bucketStart loc (floorToBin loc t).
Proof. unfold bucketStart. rewrite floorToBin_eq. unfold truncateMinute. zmod. Qed.

Lemma floorToBin_le loc t : floorToBin loc t <= t.
Proof. rewrite floorToBin_eq. unfold truncateMinute. zmod. Qed.


(** In a zone whose offset is a whole number of minutes, [floorToBin] is the
    start of the bucket that holds [t]. *)
Lemma floorToBin_whole_minutes loc t :
  loc mod 60 = 0 ->
  floorToBin loc t = t - (t + loc) mod binWidth.
Proof. intros H. rewrite floorToBin_eq. unfold truncateMinute. zmod. Qed.

Lemma floorToBin_fixed loc t :
  loc mod 60 = 0 -> bucketStart loc t -> floorToBin loc t = t.
Proof.
  intros H Hb. rewrite floorToBin_whole_minutes by done.
  unfold bucketStart in Hb. lia.
Qed.

Lemma startOfDay_le loc now : startOfDay loc now <= now < startOfDay loc now + 86400.
Proof. unfold startOfDay. zmod. Qed.

(** ** The grid of a window *)

Lemma bucketGrid_nil first lim : lim <= first -> bucketGrid first lim = [].
Proof.
  intros H. unfold bucketGrid.
  assert (E : (lim - first + binWidth - 1) / binWidth <= 0) by zmod.
  destruct ((lim - first + binWidth - 1) / binWidth) eqn:Eq; try lia; reflexivity.
Qed.

Lemma bucketGrid_cons first lim :
  first < lim -> bucketGrid first lim = first :: bucketGrid (first + binWidth) lim.
Proof.
  intros H. unfold bucketGrid.
  assert (Hn : 0 < (lim - first + binWidth - 1) / binWidth) by zmod.
  rewrite seqZ_cons by done. rewrite fmap_cons.
  f_equal; [lia|].
  replace (Z.pred ((lim - first + binWidth - 1) / binWidth))
    with ((lim - (first + binWidth) + binWidth - 1) / binWidth) by zmod.
  replace (Z.succ 0) with (1 + 0) by lia.
  rewrite <- fmap_add_seqZ, <- list_fmap_compose.
  apply list_fmap_ext. intros _ i _. simpl. lia.
Qed.

Lemma elem_of_bucketGrid first lim t :
  t ∈ bucketGrid first lim <-> first <= t < lim /\ (t - first) mod binWidth = 0.
Proof.
  unfold bucketGrid. rewrite list_elem_of_fmap. split.
  - intros (i & -> & Hi). apply elem_of_seqZ in Hi. zmod.
  - intros [Hr Hm]. exists ((t - first) / binWidth). split; [zmod|].
    apply elem_of_seqZ. zmod.
Qed.

Lemma bucketGrid_lookup first lim (i : nat) t :
  bucketGrid first lim !! i = Some t -> t = first + binWidth * Z.of_nat i.
Proof.
  unfold bucketGrid. rewrite list_lookup_fmap. intros H.
  destruct (seqZ 0 _ !! i) as [j|] eqn:E; [|done].
  apply lookup_seqZ in E. simpl in H. injection H as <-. lia.
Qed.

Lemma bucketGrid_length first lim :
  Z.of_nat (length (bucketGrid first lim))
  = Z.max 0 ((lim - first + binWidth - 1) / binWidth).
Proof. unfold bucketGrid. rewrite length_fmap, length_seqZ. lia. Qed.

Lemma bucketGrid_NoDup first lim : NoDup (bucketGrid first lim).
Proof.
  unfold bucketGrid. apply NoDup_fmap_2; [|apply NoDup_seqZ].
  intros i j Hij. unfold binWidth, binMinutes in Hij. lia.
Qed.

(** The loop that builds the grid stops on its own test, not for lack of
    fuel. *)
Lemma seqLoop_fuel fuel : forall cur lim acc,
  (lim - cur) / binWidth + 1 <= Z.of_nat fuel ->
  seqLoop fuel cur lim acc = acc ++ bucketGrid cur lim.
Proof.
  induction fuel as [|f IH]; intros cur lim acc Hf.
  - simpl. rewrite bucketGrid_nil by zmod. by rewrite app_nil_r.
  - simpl. destruct (cur <? lim) eqn:E.
    + apply Z.ltb_lt in E. rewrite IH by zmod.
      rewrite (bucketGrid_cons cur) by done. by rewrite <- app_assoc.
    + apply Z.ltb_ge in E. rewrite bucketGrid_nil by done. by rewrite app_nil_r.
Qed.

Lemma buildSeq_grid loc start end_ :
  buildSeq loc start end_ = bucketGrid (floorToBin loc start) (floorToBin loc end_).
Proof.
  unfold buildSeq. rewrite seqLoop_fuel; [done|].
  unfold stepsTo. lia.
Qed.

Lemma elem_of_buildSeq loc start end_ t :
  t ∈ buildSeq loc start end_
  <-> floorToBin loc start <= t < floorToBin loc end_ /\ bucketStart loc t.
Proof.
  rewrite buildSeq_grid, elem_of_bucketGrid.
  pose proof (floorToBin_bucketStart loc start) as Hs.
  unfold bucketStart in *. split; intros [H1 H2]; (split; [done|]); zmod.
Qed.

(** ** The status map of a window *)

Lemma fill_idle_lookup (seq : list Z) : forall (m : gmap Z Z) t,
  foldl (fun m t => <[t := 0]> m) m seq !! t
  = if decide (t ∈ seq) then Some 0 else m !! t.
Proof.
  induction seq as [|x seq IH]; intros m t; cbn [foldl].
  - destruct (decide (t ∈ [])) as [H|_]; [by apply elem_of_nil in H|done].
  - rewrite IH.
    destruct (decide (t ∈ seq)) as [Hin|Hnin];
      destruct (decide (t ∈ x :: seq)) as [Hin'|Hnin']; try done.
    + exfalso. apply Hnin'. apply elem_of_cons. by right.
    + apply elem_of_cons in Hin' as [->|?]; [apply lookup_insert_eq|done].
    + rewrite lookup_insert_ne; [done|].
      intros ->. apply Hnin'. apply elem_of_cons. by left.
Qed.

Lemma overlay_list_lookup (l : list (Z * Z)) : forall (m : gmap Z Z) t,
  NoDup l.*1 ->
  foldl (fun m tv => <[tv.1 := tv.2]> m) m l !! t
  = match (list_to_map l : gmap Z Z) !! t with
    | Some v => Some v
    | None => m !! t
    end.
Proof.
  induction l as [|[k v] l IH]; intros m t Hnd; simpl.
  - by rewrite lookup_empty.
  - apply NoDup_cons in Hnd as [Hk Hnd]. rewrite IH by done.
    destruct (decide (t = k)) as [->|Hne].
    + rewrite lookup_insert_eq.
      rewrite (not_elem_of_list_to_map_1 (M := gmap Z)) by done.
      by rewrite lookup_insert_eq.
    + rewrite !(lookup_insert_ne _ k t) by done. done.
Qed.

Lemma statusMap_lookup seq (bins : gmap Z Z) t :
  statusMap seq bins !! t
  = match bins !! t with
    | Some v => Some v
    | None => if decide (t ∈ seq) then Some 0 else None
    end.
Proof.
  unfold statusMap. rewrite overlay_list_lookup by apply NoDup_fst_map_to_list.
  rewrite list_to_map_to_list. destruct (bins !! t); [done|].
  by rewrite fill_idle_lookup, lookup_empty.
Qed.

(** ** The window resolver: what [fetchBins] returns *)

(** The range loop writes the status to the buckets of its grid that lie in
    the range and the window, and nowhere else; the fuel its caller passes
    covers every bucket. *)
Lemma rangeLoop_fuel fuel : forall cur rEnd start end_ st (res : gmap Z Z) t,
  (Z.min rEnd end_ - cur) / binWidth + 1 <= Z.of_nat fuel ->
  rangeLoop fuel cur rEnd start end_ st res !! t
  = if decide (cur <= t /\ t < rEnd /\ start <= t < end_
               /\ (t - cur) mod binWidth = 0)
    then Some st else res !! t.
Proof.
  induction fuel as [|f IH]; intros cur rEnd start end_ st res t Hf.
  - simpl. destruct (decide _) as [H|_]; [|done]. exfalso. zmod.
  - simpl. destruct ((cur <? rEnd) && (cur <? end_)) eqn:E.
    + apply andb_true_iff in E as [E1 E2].
      apply Z.ltb_lt in E1, E2.
      rewrite IH by zmod.
      destruct (decide (cur + binWidth <= t /\ _)) as [H|H].
      * rewrite decide_True; [done|]. zmod.
      * destruct (decide (t = cur)) as [->|Hne].
        -- destruct (cur <? start) eqn:Es; cbn [negb].
           ++ apply Z.ltb_lt in Es. rewrite decide_False; [done|]. lia.
           ++ apply Z.ltb_ge in Es. rewrite lookup_insert_eq.
              rewrite decide_True; [done|].
              rewrite Z.sub_diag. zmod.
        -- assert (Hres : (if negb (cur <? start) then <[cur:=st]> res else res) !! t
                          = res !! t).
           { destruct (negb (cur <? start)); [|done]. by rewrite lookup_insert_ne. }
           rewrite Hres. destruct (decide _) as [H'|_]; [|done].
           exfalso. apply H. zmod.
    + apply andb_false_iff in E.
      destruct (decide _) as [H|_]; [|done]. exfalso.
      destruct E as [E|E]; apply Z.ltb_ge in E; lia.
Qed.

Lemma rangeOverlay_lookup loc start end_ (res : gmap Z Z) r t :
  rangeOverlay loc start end_ res r !! t
  = if decide (rangeAssigns loc start end_ r t) then Some (Status r) else res !! t.
Proof.
  unfold rangeOverlay, rangeAssigns, onRangeGrid.
  destruct ((End_ r <? start) || negb (Start r <? end_)) eqn:E.
  - rewrite decide_False; [done|]. intros (H1 & H2 & _).
    apply orb_true_iff in E as [E|E].
    + apply Z.ltb_lt in E. lia.
    + apply negb_true_iff, Z.ltb_ge in E. lia.
  - apply orb_false_iff in E as [E1 E2].
    apply Z.ltb_ge in E1. apply negb_false_iff, Z.ltb_lt in E2.
    rewrite rangeLoop_fuel by (unfold stepsTo; lia).
    destruct (decide (floorToBin loc (Start r) <= t /\ _)) as [H|H].
    + rewrite decide_True; [done|]. tauto.
    + rewrite decide_False; [done|]. intros H'. apply H. tauto.
Qed.

Lemma lastAssigning_snoc loc start end_ rs r t :
  lastAssigning loc start end_ (rs ++ [r]) t
  = if decide (rangeAssigns loc start end_ r t) then Some r
    else lastAssigning loc start end_ rs t.
Proof.
  unfold lastAssigning. rewrite filter_app, filter_cons, filter_nil.
  destruct (decide _); [apply last_snoc|by rewrite app_nil_r].
Qed.

Lemma rangesOverlay_lookup loc start end_ rs : forall (res : gmap Z Z) t,
  foldl (rangeOverlay loc start end_) res rs !! t
  = match lastAssigning loc start end_ rs t with
    | Some r => Some (Status r)
    | None => res !! t
    end.
Proof.
  induction rs as [|r rs IH] using rev_ind; intros res t; [done|].
  rewrite foldl_app. cbn [foldl].
  rewrite rangeOverlay_lookup, lastAssigning_snoc.
  destruct (decide _); [done|apply IH].
Qed.

(** The range that assigns last is one of the ranges, it assigns the bucket,
    and no range after it does. *)
Lemma lastAssigning_Some loc start end_ rs t r :
  lastAssigning loc start end_ rs t = Some r <->
  exists l1 l2, rs = l1 ++ r :: l2
    /\ rangeAssigns loc start end_ r t
    /\ Forall (fun r' => ~ rangeAssigns loc start end_ r' t) l2.
Proof.
  revert r. induction rs as [|x rs IH] using rev_ind; intros r.
  - split; [done|]. intros (l1 & l2 & H & _). by destruct l1.
  - rewrite lastAssigning_snoc. destruct (decide _) as [Hx|Hx].
    + split.
      * intros [= <-]. exists rs, []. split; [done|]. split; [done|constructor].
      * intros (l1 & l2 & E & Hr & Hl2).
        destruct l2 as [|y l2 _] using rev_ind.
        -- apply app_inj_tail in E as [_ <-]. done.
        -- exfalso. rewrite app_comm_cons, app_assoc in E.
           apply app_inj_tail in E as [_ ->].
           apply Forall_app in Hl2 as [_ Hy]. by inversion Hy.
    + rewrite IH. split.
      * intros (l1 & l2 & -> & Hr & Hl2). exists l1, (l2 ++ [x]).
        rewrite <- app_assoc. split; [done|]. split; [done|].
        apply Forall_app. split; [done|]. by apply Forall_singleton.
      * intros (l1 & l2 & E & Hr & Hl2).
        destruct l2 as [|y l2 _] using rev_ind.
        -- apply app_inj_tail in E as [_ <-]. done.
        -- rewrite app_comm_cons, app_assoc in E.
           apply app_inj_tail in E as [-> ->].
           apply Forall_app in Hl2 as [Hl2 _]. by exists l1, l2.
Qed.

Lemma lastAssigning_None loc start end_ rs t :
  lastAssigning loc start end_ rs t = None <->
  Forall (fun r => ~ rangeAssigns loc start end_ r t) rs.
Proof.
  induction rs as [|x rs IH] using rev_ind.
  - split; [constructor|done].
  - rewrite lastAssigning_snoc, Forall_app, Forall_singleton.
    destruct (decide _) as [Hx|Hx]; [split; [done|tauto]|].
    rewrite IH. tauto.
Qed.

(** The raw loop. *)
Lemma rawOverlay_list_Some start end_ (l : list (string * Z)) :
  forall (res : gmap Z Z) t v,
  foldl (rawOverlay start end_) res l !! t = Some v ->
  res !! t = Some v
  \/ exists k, (k, v) ∈ l /\ Strconv.ParseInt k = Some t /\ start <= t < end_.
Proof.
  induction l as [|[k w] l IH] using rev_ind; intros res t v H; [by left|].
  rewrite foldl_app in H. cbn [foldl] in H.
  unfold rawOverlay at 1 in H. cbn [fst snd] in H.
  assert (Hin : forall k', (k', v) ∈ l -> (k', v) ∈ l ++ [(k, w)])
    by (intros k' Hk; apply elem_of_app; by left).
  destruct (Strconv.ParseInt k) as [ts|] eqn:Ek.
  - destruct (negb (ts <? start) && (ts <? end_)) eqn:Ew.
    + destruct (decide (t = ts)) as [->|Hne].
      * rewrite lookup_insert_eq in H. injection H as ->. right. exists k.
        apply andb_true_iff in Ew as [E1 E2].
        apply negb_true_iff, Z.ltb_ge in E1. apply Z.ltb_lt in E2.
        repeat split; try done; try lia.
        apply elem_of_app. right. by apply list_elem_of_singleton.
      * rewrite lookup_insert_ne in H by done.
        destruct (IH _ _ _ H) as [?|(k' & ? & ?)]; [by left|right; eauto].
    + destruct (IH _ _ _ H) as [?|(k' & ? & ?)]; [by left|right; eauto].
  - destruct (IH _ _ _ H) as [?|(k' & ? & ?)]; [by left|right; eauto].
Qed.

Lemma rawOverlay_list_unique start end_ (l : list (string * Z)) :
  forall (res : gmap Z Z) t k v,
  (k, v) ∈ l -> Strconv.ParseInt k = Some t -> start <= t < end_ ->
  (forall k' v', (k', v') ∈ l -> Strconv.ParseInt k' = Some t -> k' = k /\ v' = v) ->
  foldl (rawOverlay start end_) res l !! t = Some v.
Proof.
  induction l as [|[k' w] l IH] using rev_ind; intros res t k v Hin Hk Hw Hu.
  - by apply elem_of_nil in Hin.
  - rewrite foldl_app. cbn [foldl]. unfold rawOverlay at 1. cbn [fst snd].
    assert (Hlast : (k', w) ∈ l ++ [(k', w)])
      by (apply elem_of_app; right; by apply list_elem_of_singleton).
    destruct (Strconv.ParseInt k') as [ts|] eqn:Ek.
    + destruct (decide (ts = t)) as [->|Hne].
      * destruct (Hu k' w Hlast Ek) as [-> ->].
        assert (Ew : negb (t <? start) && (t <? end_) = true).
        { apply andb_true_iff. split; [apply negb_true_iff, Z.ltb_ge|apply Z.ltb_lt]; lia. }
        rewrite Ew. apply lookup_insert_eq.
      * assert (Hl : (k, v) ∈ l).
        { apply elem_of_app in Hin as [?|Hin]; [done|].
          apply list_elem_of_singleton in Hin. congruence. }
        assert (IH' : foldl (rawOverlay start end_) res l !! t = Some v).
        { apply (IH res t k v); try done.
          intros k2 v2 H2. apply Hu. apply elem_of_app. by left. }
        destruct (negb (ts <? start) && (ts <? end_)); [|done].
        by rewrite lookup_insert_ne.
    + assert (Hl : (k, v) ∈ l).
      { apply elem_of_app in Hin as [?|Hin]; [done|].
        apply list_elem_of_singleton in Hin. congruence. }
      apply (IH res t k v); try done.
      intros k2 v2 H2. apply Hu. apply elem_of_app. by left.
Qed.

(** What [fetchBins] holds for a bucket: the status of the range that
    assigns it last, and only without such a range what the raw loop left. *)
Lemma fetchBins_lookup loc s start end_ t :
  fetchBins loc s start end_ !! t
  = match lastAssigning loc start end_ (Ranges s) t with
    | Some r => Some (Status r)
    | None => foldl (rawOverlay start end_) ∅ (map_to_list (Bins s)) !! t
    end.
Proof. unfold fetchBins. apply rangesOverlay_lookup. Qed.

Lemma fetchBins_raw_Some s start end_ t v :
  foldl (rawOverlay start end_) ∅ (map_to_list (Bins s)) !! t = Some v ->
  rawAssigns s start end_ t v.
Proof.
  intros H. apply rawOverlay_list_Some in H as [H|(k & Hk & Hp & Hw)]; [done|].
  exists k. by apply elem_of_map_to_list in Hk.
Qed.

Lemma fetchBins_unassigned loc s start end_ t :
  (forall v, ~ rawAssigns s start end_ t v) ->
  Forall (fun r => ~ rangeAssigns loc start end_ r t) (Ranges s) ->
  fetchBins loc s start end_ !! t = None.
Proof.
  intros Hraw Hr. rewrite fetchBins_lookup.
  apply lastAssigning_None in Hr. rewrite Hr.
  destruct (foldl _ _ _ !! t) as [v|] eqn:E; [|done].
  exfalso. apply (Hraw v). by eapply fetchBins_raw_Some.
Qed.

(** ** Raw samples against ranges *)




(** ** Grid completeness *)

Lemma resolveWindow_fst loc s start end_ :
  (resolveWindow loc s start end_).*1 = buildSeq loc start end_.
Proof.
  unfold resolveWindow. rewrite <- list_fmap_compose.
  rewrite <- (list_fmap_id (buildSeq loc start end_)) at 2.
  by apply list_fmap_ext.
Qed.

Lemma resolveWindow_snd loc s start end_ :
  (resolveWindow loc s start end_).*2
  = statusAt (statusMap (buildSeq loc start end_) (fetchBins loc s start end_))
      <$> buildSeq loc start end_.
Proof.
  unfold resolveWindow. rewrite <- list_fmap_compose. by apply list_fmap_ext.
Qed.


(** C6.  The resolved sequence of a window is the grid of bucket starts from
    [floorToBin start] up to, and excluding, [floorToBin end_], one bucket
    width apart: it holds every bucket start of that interval, each once;
    the status map has an entry for each of them; and a bucket to which
    neither a raw sample nor a range assigns a status is idle.  With no
    samples and no ranges the whole grid is idle. *)
Theorem resolveWindow_grid_complete loc s start end_ :
  (resolveWindow loc s start end_).*1
    = bucketGrid (floorToBin loc start) (floorToBin loc end_)
  /\ (forall t, t ∈ (resolveWindow loc s start end_).*1
        <-> floorToBin loc start <= t < floorToBin loc end_ /\ bucketStart loc t)
  /\ NoDup (resolveWindow loc s start end_).*1
  /\ (forall t, t ∈ buildSeq loc start end_ ->
        is_Some (statusMap (buildSeq loc start end_)
                   (fetchBins loc s start end_) !! t))
  /\ (forall t v, (t, v) ∈ resolveWindow loc s start end_ ->
        (forall w, ~ rawAssigns s start end_ t w) ->
        Forall (fun r => ~ rangeAssigns loc start end_ r t) (Ranges s) ->
        v = idle)
  /\ (Bins s = ∅ -> Ranges s = [] ->
        resolveWindow loc s start end_
        = (fun t => (t, idle))
            <$> bucketGrid (floorToBin loc start) (floorToBin loc end_)).
Proof.
  rewrite resolveWindow_fst.
  split; [apply buildSeq_grid|].
  split; [apply elem_of_buildSeq|].
  split; [rewrite buildSeq_grid; apply bucketGrid_NoDup|].
  split; [|split].
  - intros t Ht. rewrite statusMap_lookup.
    destruct (fetchBins loc s start end_ !! t); [by eexists|].
    rewrite decide_True by done. by eexists.
  - intros t v Hin Hraw Hr. unfold resolveWindow in Hin.
    apply list_elem_of_fmap in Hin as (t' & Heq & Ht).
    simplify_eq.
    unfold statusAt. rewrite statusMap_lookup.
    rewrite fetchBins_unassigned by done.
    by rewrite decide_True.
  - intros Hb Hrs. unfold resolveWindow. rewrite <- buildSeq_grid.
    apply list_fmap_ext. intros i t Ht. f_equal.
    unfold statusAt. rewrite statusMap_lookup.
    rewrite fetchBins_unassigned.
    + apply list_elem_of_lookup_2 in Ht. by rewrite decide_True.
    + intros w (k & Hk & _). rewrite Hb in Hk. by rewrite lookup_empty in Hk.
    + rewrite Hrs. constructor.
Qed.

(** ** Focus statistics *)

Lemma floorToBin_lower loc t : t - 359 <= floorToBin loc t.
Proof. rewrite floorToBin_eq. unfold truncateMinute. zmod. Qed.

(** The grid of a day has at most 291 buckets. *)
Lemma buildSeq_today_length loc now :
  Z.of_nat (length (buildSeq loc (startOfDay loc now) now)) <= 291.
Proof.
  rewrite buildSeq_grid, bucketGrid_length.
  pose proof (startOfDay_le loc now).
  pose proof (floorToBin_lower loc (startOfDay loc now)).
  pose proof (floorToBin_le loc now).
  zmod.
Qed.

(** C7.  [calculateFocusStats] scans the resolved sequence of the day.  On
    the sequence idle, idle, working, working, idle the scan counts 2 context
    switches and a longest focus of two bucket widths, 10 minutes.  In
    general the context switches are the status changes between neighbouring
    buckets (the first bucket is compared with itself and adds none), and
    the longest focus is the bucket width in minutes times the length of the
    longest unbroken run of working buckets. *)
Theorem calculateFocusStats_spec loc s now :
  let sts := (resolveWindow loc s (startOfDay loc now) now).*2 in
  calculateFocusStats loc s now = focusScan sts
  /\ focusScan [idle; idle; working; working; idle] = (2 * binMinutes, 2)
  /\ exists m : nat,
       longestRun sts m
       /\ calculateFocusStats loc s now = (binMinutes * Z.of_nat m, switchCount sts).
Proof.
  intros sts.
  assert (E : calculateFocusStats loc s now = focusScan sts).
  { unfold sts. rewrite resolveWindow_snd. reflexivity. }
  split; [exact E|]. split; [reflexivity|].
  rewrite E. apply focusScan_spec.
  unfold sts. rewrite resolveWindow_snd, length_fmap.
  pose proof (buildSeq_today_length loc now).
  unfold binMinutes, GoInt.max_int64. lia.
Qed.

(** ** The sampling loop and the compaction thresholds *)

Lemma compactBins_below_50 s : (size (Bins s) < 50)%nat -> compactBins s = s.
Proof.
  intros H. unfold compactBins.
  destruct (size (Bins s) <? 50)%nat eqn:E; [done|].
  apply Nat.ltb_ge in E. lia.
Qed.

(** C5 as stated does not hold.  The document holds 100 raw samples and the
    tick falls into the last of their buckets: the count after the upsert is
    100 and the iteration saves without compacting. *)
Lemma sampleTick_100_not_compacted :
  ~ ((forall loc file store now la,
        (100 <= size (Bins (tickStore loc file store now la)))%nat ->
        EvCompact ∈ (sampleTick loc file store now (Some la)).2)
     /\ (forall s, (size (Bins s) < 50)%nat -> compactBins s = s)).
Proof.
  intros [H _].
  pose (s := sampledStore 1700000100 100).
  pose (now := 1700029810).
  specialize (H 0 (Doc s) s now now).
  assert (Hsize : size (Bins (tickStore 0 (Doc s) s now now)) = 100%nat)
    by (vm_compute; reflexivity).
  rewrite Hsize in H. specialize (H (le_n _)).
  assert (Htrace : (sampleTick 0 (Doc s) s now (Some now)).2
                   = [EvSave (sampleTick 0 (Doc s) s now (Some now)).1.2])
    by (vm_compute; reflexivity).
  rewrite Htrace in H. apply list_elem_of_singleton in H. discriminate H.
Qed.

(** C5, amended.  An iteration of the sampling loop compacts exactly when
    the raw sample count after its upsert exceeds 100 (count > 100): it then
    saves, compacts and saves again; at 100 samples or fewer it only saves.
    The compactor leaves a store with fewer than 50 raw samples unchanged. *)
Theorem sampleTick_compaction_threshold loc file store now la :
  let u := tickStore loc file store now la in
  ((100 < size (Bins u))%nat ->
     sampleTick loc file store now (Some la)
     = (saveStore (compactBins u), compactBins u,
        [EvSave u; EvCompact; EvSave (compactBins u)]))
  /\ ((size (Bins u) <= 100)%nat ->
        sampleTick loc file store now (Some la) = (saveStore u, u, [EvSave u]))
  /\ (forall s, (size (Bins s) < 50)%nat -> compactBins s = s).
Proof.
  intros u. unfold sampleTick. fold (tickStore loc file store now la). fold u.
  split; [|split].
  - intros H. apply Nat.ltb_lt in H. by rewrite H.
  - intros H. apply Nat.ltb_ge in H. by rewrite H.
  - apply compactBins_below_50.
Qed.

(** ** Package [strings] *)

Lemma Split_cons_inv s sep : exists p ps, Strings.Split s sep = p :: ps.
Proof.
  destruct s as [|c r]; simpl; [by eexists _, _|].
  destruct (Ascii.eqb c sep); [by eexists _, _|].
  destruct (Strings.Split r sep); by eexists _, _.
Qed.

Lemma Split_no_sep s sep :
  Strings.Contains s sep = false -> Strings.Split s sep = [s].
Proof.
  induction s as [|c r IH]; simpl; [done|].
  destruct (Ascii.eqb c sep); [done|]. intros H. by rewrite IH.
Qed.

Lemma Split_app_sep a b sep :
  Strings.Contains a sep = false ->
  Strings.Split (a ++ String sep b) sep = a :: Strings.Split b sep.
Proof.
  induction a as [|c r IH]; simpl.
  - intros _. by rewrite Ascii.eqb_refl.
  - destruct (Ascii.eqb c sep); [done|]. intros H. by rewrite IH.
Qed.


Lemma Split_singleton s sep b :
  Strings.Split s sep = [b] -> Strings.Contains s sep = false.
Proof.
  revert b. induction s as [|c r IH]; intros b; simpl; [done|].
  destruct (Split_cons_inv r sep) as (p & ps & Er). rewrite Er.
  destruct (Ascii.eqb c sep); [done|].
  intros [= _ ->]. by apply (IH p).
Qed.

(** A string with exactly two pieces is the two pieces around one separator. *)
Lemma Split_two s sep a b :
  Strings.Split s sep = [a; b] -> s = (a ++ String sep b)%string.
Proof.
  revert a. induction s as [|c r IH]; intros a; simpl; [done|].
  destruct (Ascii.eqb c sep) eqn:E.
  - apply Ascii.eqb_eq in E as ->. intros [= <- H].
    pose proof (Split_singleton _ _ _ H) as Hc.
    rewrite Split_no_sep in H by done. by injection H as ->.
  - destruct (Strings.Split r sep) as [|p ps] eqn:Er; [done|].
    intros [= <- ->].
    change (String c r = String c (p ++ String sep b)%string).
    f_equal. by apply IH.
Qed.

Lemma SplitN2_prefix key value :
  Strings.Contains key "="%char = false ->
  Strings.SplitN2 (key ++ String "="%char value) "="%char = [key; value].
Proof.
  induction key as [|c r IH]; simpl; [done|].
  destruct (Ascii.eqb c "="); [done|]. intros H. by rewrite IH.
Qed.

(** ** Configuration input *)

Lemma parse_digits_allDigits s : forall acc z,
  Strconv.parse_digits acc s = Some z -> allDigits s = true.
Proof.
  induction s as [|c r IH]; intros acc z; simpl; [done|].
  destruct (Strconv.digit_of c); [apply IH|done].
Qed.

Lemma ParseUint_literal s z :
  Strconv.ParseUint s = Some z -> s <> EmptyString /\ allDigits s = true.
Proof.
  destruct s as [|c r]; [done|]. unfold Strconv.ParseUint.
  intros H. split; [done|]. by eapply parse_digits_allDigits.
Qed.

Lemma ParseInt_literal s z : Strconv.ParseInt s = Some z -> intLiteral s.
Proof.
  destruct s as [|c r]; [done|]. unfold Strconv.ParseInt.
  destruct (Ascii.eqb c "+") eqn:Ep.
  - apply Ascii.eqb_eq in Ep as ->.
    destruct (Strconv.ParseUint r) as [un|] eqn:Eu; [|done]. intros _.
    apply ParseUint_literal in Eu as [? ?].
    exists "+"%string, r. repeat split; auto.
  - destruct (Ascii.eqb c "-") eqn:Em.
    + apply Ascii.eqb_eq in Em as ->.
      destruct (Strconv.ParseUint r) as [un|] eqn:Eu; [|done]. intros _.
      apply ParseUint_literal in Eu as [? ?].
      exists "-"%string, r. repeat split; auto.
    + destruct (Strconv.ParseUint (String c r)) as [un|] eqn:Eu; [|done]. intros _.
      apply ParseUint_literal in Eu as [? ?].
      exists ""%string, (String c r). repeat split; auto.
Qed.

Lemma parseTimeToMinutes_Ok timeStr mins :
  parseTimeToMinutes timeStr = Ok mins -> hhmmForm timeStr.
Proof.
  unfold parseTimeToMinutes.
  destruct (Strings.Split timeStr ":") as [|p0 [|p1 [|p2 ps]]] eqn:Es; try done.
  unfold Strconv.Atoi.
  destruct (Strconv.ParseInt p0) as [hours|] eqn:E0; [|done].
  destruct (Strconv.ParseInt p1) as [m|] eqn:E1; [|done].
  intros _. exists p0, p1. split.
  - by apply Split_two.
  - split; by eapply ParseInt_literal.
Qed.

Section WorkDays.

Variable ToLower TrimSpace : string -> string.

Lemma parseDayList_Ok parts : forall days r,
  parseDayList ToLower TrimSpace parts days = Ok r ->
  forall part, part ∈ parts -> namesDay ToLower (TrimSpace part).
Proof.
  induction parts as [|p parts IH]; intros days r H part Hin.
  - by apply elem_of_nil in Hin.
  - simpl in H.
    destruct (dayMap !! ToLower (TrimSpace p)) as [d|] eqn:Ed; [|done].
    apply elem_of_cons in Hin as [->|Hin].
    + unfold namesDay. by rewrite Ed.
    + by eapply IH.
Qed.

Lemma parseWorkDays_Ok workDaysStr days :
  parseWorkDays ToLower TrimSpace workDaysStr = Ok days ->
  forall tok, tok ∈ workdayTokens TrimSpace workDaysStr -> namesDay ToLower tok.
Proof.
  unfold parseWorkDays, workdayTokens.
  destruct (Strings.Contains workDaysStr "-").
  - destruct (Strings.Split workDaysStr "-") as [|p0 [|p1 [|p2 ps]]]; try done.
    destruct (dayMap !! ToLower p0) as [d0|] eqn:E0; [|done].
    destruct (dayMap !! ToLower p1) as [d1|] eqn:E1; [|done].
    intros _ tok Hin. unfold namesDay.
    apply elem_of_cons in Hin as [->|Hin]; [by rewrite E0|].
    apply list_elem_of_singleton in Hin as ->. by rewrite E1.
  - intros H tok Hin. apply list_elem_of_fmap in Hin as (part & -> & Hin).
    by eapply parseDayList_Ok.
Qed.

Lemma applyConfig_invalid store key value :
  invalidConfig ToLower TrimSpace key value ->
  is_err (applyConfig ToLower TrimSpace store key value) = true.
Proof.
  unfold applyConfig.
  intros [[-> Hbad]|[-> (tok & Hin & Hbad)]].
  - change (String.eqb "dailygoal" "dailygoal") with true. cbv iota.
    destruct (parseTimeToMinutes value) as [mins|e] eqn:E; [|done].
    exfalso. apply Hbad. by eapply parseTimeToMinutes_Ok.
  - change (String.eqb "workdays" "dailygoal") with false.
    change (String.eqb "workdays" "workdays") with true. cbv iota.
    destruct (parseWorkDays ToLower TrimSpace value) as [days|e] eqn:E; [|done].
    exfalso. apply Hbad. by eapply parseWorkDays_Ok.
Qed.

(** C9.  An invalid configuration update, a daily goal that is not of the
    form HH:MM with two integer parts or a workday string with a token that
    names no day, makes the parser return an error; [main] then exits with
    status 1 before it assigns to the store or saves it, and the document,
    with the configuration it holds, is what it was. *)
Theorem invalid_config_rejected (file : File) (key value : string) :
  invalidConfig ToLower TrimSpace key value ->
  (key = "dailygoal"%string -> is_err (parseTimeToMinutes value) = true)
  /\ (key = "workdays"%string ->
        is_err (parseWorkDays ToLower TrimSpace value) = true)
  /\ (forall store, is_err (applyConfig ToLower TrimSpace store key value) = true)
  /\ mainConfig ToLower TrimSpace file (key ++ "=" ++ value) = (file, Exit1).
Proof.
  intros Hinv.
  assert (Happ := fun store => applyConfig_invalid store key value Hinv).
  split; [|split; [|split; [exact Happ|]]].
  - intros ->. specialize (Happ (mkStore ∅ [] defaultConfig [])).
    unfold applyConfig in Happ.
    change (String.eqb "dailygoal" "dailygoal") with true in Happ. cbv iota in Happ.
    by destruct (parseTimeToMinutes value).
  - intros ->. specialize (Happ (mkStore ∅ [] defaultConfig [])).
    unfold applyConfig in Happ.
    change (String.eqb "workdays" "dailygoal") with false in Happ.
    change (String.eqb "workdays" "workdays") with true in Happ. cbv iota in Happ.
    by destruct (parseWorkDays ToLower TrimSpace value).
  - unfold mainConfig.
    change (key ++ "=" ++ value)%string with (key ++ String "=" value)%string.
    rewrite SplitN2_prefix by (destruct Hinv as [[-> _]|[-> _]]; reflexivity).
    destruct (loadStore file) as [store|e]; [|done].
    specialize (Happ store).
    by destruct (applyConfig ToLower TrimSpace store key value).
Qed.

End WorkDays.

Lemma invalid_config_rejected_witness :
  let file := Doc (mkStore ∅ [] (mkConfig 450 [1; 2; 3]) []) in
  (("workdays" = "dailygoal")%string -> is_err (parseTimeToMinutes "mon,xyz") = true)
  /\ (("workdays" = "workdays")%string ->
        is_err (parseWorkDays Strings.asciiToLower Strings.asciiTrimSpace "mon,xyz") = true)
  /\ (forall store,
        is_err (applyConfig Strings.asciiToLower Strings.asciiTrimSpace store
                  "workdays" "mon,xyz") = true)
  /\ mainConfig Strings.asciiToLower Strings.asciiTrimSpace file
       ("workdays" ++ "=" ++ "mon,xyz") = (file, Exit1).
Proof.
  intros file.
  apply (invalid_config_rejected Strings.asciiToLower Strings.asciiTrimSpace
           file "workdays" "mon,xyz").
  right. split; [reflexivity|]. exists "xyz"%string. split.
  - apply elem_of_cons. right. apply elem_of_cons. left. reflexivity.
  - intros [d Hd]. vm_compute in Hd. discriminate Hd.
Defined.

(** ** Reversed workday ranges *)

Lemma lower_byte_dash c : Strings.lower_byte c = "-"%char -> c = "-"%char.
Proof.
  destruct c as [[] [] [] [] [] [] [] []]; vm_compute; intros H;
    first [reflexivity | discriminate H].
Qed.





(** The document saved with an empty workday list reads back with the
    default workdays, Monday to Friday. *)
Lemma loadStore_empty_workdays store goal :
  goal <> 0 ->
  Conf <$> (match loadStore (Doc (setConf store (mkConfig goal []))) with
            | Ok s => Some s
            | Err _ => None
            end)
  = Some (mkConfig goal [1; 2; 3; 4; 5]).
Proof.
  intros Hg. simpl. apply Z.eqb_neq in Hg. by rewrite Hg.
Qed.

(** ** The compactor: the sort *)

Lemma bubbleMin_spec rest : forall x,
  Permutation ((bubbleMin x rest).1 :: (bubbleMin x rest).2) (x :: rest)
  /\ (bubbleMin x rest).1 <= x
  /\ Forall (Z.le (bubbleMin x rest).1) (bubbleMin x rest).2
  /\ length (bubbleMin x rest).2 = length rest.
Proof.
  induction rest as [|y r IH]; intros x; simpl.
  - repeat split; [done|lia|constructor].
  - destruct (y <? x) eqn:E; simpl.
    + apply Z.ltb_lt in E. destruct (IH y) as (Hp & Hle & Hall & Hlen).
      repeat split.
      * etransitivity; [apply perm_swap|]. by apply perm_skip.
      * lia.
      * constructor; [lia|done].
      * by rewrite Hlen.
    + apply Z.ltb_ge in E. destruct (IH x) as (Hp & Hle & Hall & Hlen).
      repeat split.
      * etransitivity; [apply perm_swap|].
        etransitivity; [apply perm_skip, Hp|]. apply perm_swap.
      * done.
      * constructor; [lia|done].
      * by rewrite Hlen.
Qed.

Lemma swapIfAfter_middle pre x mid y rest :
  swapIfAfter (length pre) (length pre + S (length mid))
    (pre ++ x :: mid ++ y :: rest)
  = if y <? x then pre ++ y :: mid ++ x :: rest
    else pre ++ x :: mid ++ y :: rest.
Proof.
  unfold swapIfAfter.
  rewrite list_lookup_middle by done.
  assert (Hj : (pre ++ x :: mid ++ y :: rest) !! (length pre + S (length mid))%nat
               = Some y).
  { rewrite lookup_app_r by lia.
    replace (length pre + S (length mid) - length pre)%nat
      with (S (length mid)) by lia.
    simpl. by rewrite list_lookup_middle. }
  rewrite Hj. destruct (y <? x); [|done].
  replace (length pre) with (length pre + 0)%nat at 2 by lia.
  rewrite insert_app_r. simpl.
  rewrite insert_app_r. simpl.
  replace (length mid) with (length mid + 0)%nat at 1 by lia.
  by rewrite insert_app_r.
Qed.

(** The inner loop leaves the prefix and the elements it has passed alone. *)
Lemma sortInner_bubbleMin rest : forall pre x mid,
  sortInner (length rest) (length pre) (length pre + S (length mid))
    (pre ++ x :: mid ++ rest)
  = pre ++ (bubbleMin x rest).1 :: mid ++ (bubbleMin x rest).2.
Proof.
  induction rest as [|y r IH]; intros pre x mid; [done|].
  cbn [length sortInner]. rewrite swapIfAfter_middle. cbn [bubbleMin].
  destruct (y <? x).
  - specialize (IH pre y (mid ++ [x])).
    rewrite length_app in IH. simpl length in IH.
    replace (length pre + S (length mid + 1))%nat
      with (S (length pre + S (length mid))) in IH by lia.
    rewrite <- !app_assoc in IH. simpl in IH. exact IH.
  - specialize (IH pre x (mid ++ [y])).
    rewrite length_app in IH. simpl length in IH.
    replace (length pre + S (length mid + 1))%nat
      with (S (length pre + S (length mid))) in IH by lia.
    rewrite <- !app_assoc in IH. simpl in IH. exact IH.
Qed.

Lemma sortOuter_selSort n : forall pre l,
  length l = S n ->
  sortOuter n (length pre) (pre ++ l) = pre ++ selSort n l.
Proof.
  induction n as [|n IH]; intros pre l Hl; [done|].
  destruct l as [|x rest]; [done|]. simpl in Hl.
  cbn [sortOuter selSort].
  replace (length (pre ++ x :: rest) - S (length pre))%nat with (length rest)
    by (rewrite length_app; simpl; lia).
  pose proof (sortInner_bubbleMin rest pre x []) as Hin.
  simpl in Hin. replace (length pre + 1)%nat with (S (length pre)) in Hin by lia.
  rewrite Hin.
  destruct (bubbleMin_spec rest x) as (_ & _ & _ & Hlen).
  specialize (IH (pre ++ [(bubbleMin x rest).1]) (bubbleMin x rest).2).
  rewrite length_app in IH. simpl length in IH.
  replace (length pre + 1)%nat with (S (length pre)) in IH by lia.
  rewrite <- !app_assoc in IH. simpl in IH. apply IH. lia.
Qed.

Lemma selSort_spec n : forall l,
  length l = S n ->
  Permutation (selSort n l) l /\ StronglySorted Z.le (selSort n l).
Proof.
  induction n as [|n IH]; intros l Hl.
  - destruct l as [|x [|y l]]; try done. simpl. split; [done|].
    repeat constructor.
  - destruct l as [|x rest]; [done|]. simpl in Hl. cbn [selSort].
    destruct (bubbleMin_spec rest x) as (Hp & _ & Hall & Hlen).
    destruct (IH (bubbleMin x rest).2 ltac:(lia)) as [IHp IHs].
    split.
    + by rewrite IHp.
    + constructor; [done|]. by rewrite IHp.
Qed.

(** The exchange sort of [compactBins] returns its input in ascending
    order. *)
Lemma sortTimes_spec times :
  Permutation (sortTimes times) times /\ StronglySorted Z.le (sortTimes times).
Proof.
  unfold sortTimes. destruct times as [|x rest].
  - split; [done|constructor].
  - pose proof (sortOuter_selSort (length rest) [] (x :: rest) eq_refl) as H.
    simpl in H.
    replace (length (x :: rest) - 1)%nat with (length rest) by (simpl; lia).
    rewrite H. by apply selSort_spec.
Qed.

(** The order in which the keys of the map are visited does not matter. *)
Lemma sortTimes_order_irrelevant times times' :
  Permutation times times' -> sortTimes times = sortTimes times'.
Proof.
  intros Hp.
  destruct (sortTimes_spec times) as [Hp1 Hs1].
  destruct (sortTimes_spec times') as [Hp2 Hs2].
  apply (StronglySorted_unique Z.le); [done|done|].
  by rewrite Hp1, Hp2.
Qed.

(** ** The compactor: the runs *)

Lemma takeRun_app st status rest : forall prev,
  rest = (takeRun st status prev rest).1 ++ (takeRun st status prev rest).2.
Proof.
  induction rest as [|next rest IH]; intros prev; simpl; [done|].
  destruct ((st next =? status) && (next - prev =? binWidth)); simpl; [|done].
  f_equal. apply IH.
Qed.

Lemma takeRun_length st status rest prev :
  (length (takeRun st status prev rest).2 <= length rest)%nat.
Proof.
  rewrite (takeRun_app st status rest prev) at 2. rewrite length_app. lia.
Qed.

Lemma last_of_run (run : list Z) : forall start,
  (start :: run) !! length run = Some (List.last (start :: run) 0).
Proof.
  induction run as [|x run IH]; intros start; [done|].
  cbn [length]. rewrite lookup_cons. rewrite IH. by destruct run.
Qed.

(** The index loop that extends a run stops where [takeRun] cuts, given fuel
    for the instants that are left. *)
Lemma extendRun_fuel bins status rest : forall fuel pre prev,
  (length rest <= fuel)%nat ->
  extendRun fuel bins (pre ++ prev :: rest) status (length pre)
  = (length pre + length (takeRun (sampleStatus bins) status prev rest).1)%nat.
Proof.
  induction rest as [|next rest IH]; intros fuel pre prev Hf.
  - simpl. destruct fuel as [|f]; simpl; [lia|].
    rewrite length_app. simpl length.
    destruct (S (length pre) <? length pre + 1)%nat eqn:E; [|lia].
    apply Nat.ltb_lt in E. lia.
  - destruct fuel as [|f]; [simpl in Hf; lia|]. cbn [extendRun takeRun].
    assert (Hlt : (S (length pre) <? length (pre ++ prev :: next :: rest))%nat = true).
    { apply Nat.ltb_lt. rewrite length_app. simpl. lia. }
    rewrite Hlt, list_lookup_middle by done.
    assert (Hn : (pre ++ prev :: next :: rest) !! S (length pre) = Some next).
    { change (pre ++ prev :: next :: rest) with (pre ++ [prev] ++ next :: rest).
      rewrite (app_assoc pre [prev] (next :: rest)).
      apply list_lookup_middle. rewrite length_app. simpl. lia. }
    rewrite Hn. fold (sampleStatus bins next).
    destruct ((sampleStatus bins next =? status) && (next - prev =? binWidth));
      [|simpl; lia].
    specialize (IH f (pre ++ [prev]) next).
    rewrite <- app_assoc, length_app in IH. simpl in IH.
    replace (length pre + 1)%nat with (S (length pre)) in IH by lia.
    rewrite IH by (simpl in Hf; lia). simpl. lia.
Qed.

Lemma runsOf_nil fuel st : runsOf fuel st [] = [].
Proof. by destruct fuel. Qed.

Lemma runsOf_fuel st f : forall f' l,
  (length l <= f)%nat -> (length l <= f')%nat -> runsOf f st l = runsOf f' st l.
Proof.
  induction f as [|f IH]; intros f' l Hf Hf'.
  - destruct l; [|simpl in Hf; lia]. by rewrite !runsOf_nil.
  - destruct l as [|start rest]; [by rewrite !runsOf_nil|].
    destruct f' as [|f']; [simpl in Hf'; lia|]. simpl.
    f_equal. simpl in Hf, Hf'.
    pose proof (takeRun_length st (st start) rest start).
    apply IH; lia.
Qed.

(** The emitting loop appends the range of each run, given fuel for the
    instants that are left. *)
Lemma emitRuns_fuel bins fuel : forall l pre acc,
  (length l <= fuel)%nat ->
  emitRuns fuel bins (pre ++ l) (length pre) acc
  = acc ++ (rangeOfRun (sampleStatus bins)
              <$> runsOf (length l) (sampleStatus bins) l).
Proof.
  induction fuel as [|f IH]; intros l pre acc Hf.
  - destruct l; [|simpl in Hf; lia]. simpl. by rewrite app_nil_r.
  - destruct l as [|start rest].
    + simpl. rewrite app_nil_r, lookup_ge_None_2 by lia. by rewrite app_nil_r.
    + cbn [emitRuns]. rewrite list_lookup_middle by done.
      rewrite extendRun_fuel by (rewrite length_app; simpl; lia).
      fold (sampleStatus bins start).
      set (st := sampleStatus bins).
      set (rr := takeRun st (st start) start rest).
      pose proof (takeRun_app st (st start) rest start) as Happ.
      pose proof (takeRun_length st (st start) rest start) as Hlen.
      fold rr in Happ, Hlen.
      assert (Hlast : (pre ++ start :: rest) !! (length pre + length rr.1)%nat
                      = Some (List.last (start :: rr.1) 0)).
      { rewrite lookup_app_r by lia.
        replace (length pre + length rr.1 - length pre)%nat with (length rr.1) by lia.
        rewrite Happ, app_comm_cons, lookup_app_l by (simpl; lia).
        apply last_of_run. }
      rewrite Hlast.
      assert (Htimes : pre ++ start :: rest = (pre ++ start :: rr.1) ++ rr.2).
      { rewrite <- app_assoc. simpl. by rewrite <- Happ. }
      rewrite Htimes.
      replace (S (length pre + length rr.1)) with (length (pre ++ start :: rr.1))
        by (rewrite length_app; simpl; lia).
      rewrite IH by (simpl in Hf; lia).
      rewrite <- app_assoc. f_equal. cbn [length runsOf fmap list_fmap].
      fold st. fold rr. simpl. f_equal. f_equal.
      apply runsOf_fuel; lia.
Qed.

Lemma takeRun_isRun st status rest : forall prev,
  st prev = status -> isRun st (prev :: (takeRun st status prev rest).1).
Proof.
  induction rest as [|next rest IH]; intros prev Hp; simpl; [constructor|].
  destruct ((st next =? status) && (next - prev =? binWidth)) eqn:E; simpl;
    [|constructor].
  apply andb_true_iff in E as [E1 E2].
  apply Z.eqb_eq in E1, E2.
  constructor; [done|congruence|]. by apply IH.
Qed.

Lemma isRun_status st l : isRun st l -> forall t, t ∈ l -> st t = st (List.hd 0 l).
Proof.
  induction 1 as [t|t t' l Hd Hs Hr IH]; intros x Hx.
  - by apply list_elem_of_singleton in Hx as ->.
  - apply elem_of_cons in Hx as [->|Hx]; [done|].
    rewrite (IH x Hx). simpl. done.
Qed.


(** A run that is cut in two joins at the cut. *)
Lemma isRun_app_inv st a : forall x b,
  isRun st (a ++ x :: b) -> a <> [] ->
  x - List.last a 0 = binWidth /\ st x = st (List.last a 0).
Proof.
  induction a as [|y a IH]; intros x b H Hne; [done|].
  destruct a as [|z a].
  - simpl in *. inversion H; subst. done.
  - simpl in H. inversion H; subst.
    change (List.last (y :: z :: a) 0) with (List.last (z :: a) 0).
    by apply (IH x b).
Qed.

(** Where [takeRun] stops, the next instant does not continue the run. *)
Lemma takeRun_stops st status rest : forall prev next rem,
  (takeRun st status prev rest).2 = next :: rem ->
  ~ (st next = status
     /\ next - List.last (prev :: (takeRun st status prev rest).1) 0 = binWidth).
Proof.
  induction rest as [|x rest IH]; intros prev next rem; simpl; [done|].
  destruct ((st x =? status) && (x - prev =? binWidth)) eqn:E; simpl.
  - intros H. specialize (IH x next rem H).
    by destruct (takeRun st status x rest).1.
  - intros [= -> ->] [H1 H2].
    apply andb_false_iff in E as [E|E]; apply Z.eqb_neq in E; done.
Qed.

Lemma runsOf_spec st fuel : forall times,
  (length times <= fuel)%nat ->
  maximalRuns st times (runsOf fuel st times).
Proof.
  induction fuel as [|f IH]; intros times Hf.
  - destruct times; [|simpl in Hf; lia].
    repeat split; [constructor|]. intros i r1 r2 H. by destruct i.
  - destruct times as [|start rest].
    + repeat split; [constructor|]. intros i r1 r2 H. by destruct i.
    + cbn [runsOf].
      set (rr := takeRun st (st start) start rest).
      pose proof (takeRun_app st (st start) rest start) as Happ.
      pose proof (takeRun_length st (st start) rest start) as Hlen.
      pose proof (takeRun_isRun st (st start) rest start eq_refl) as Hrun.
      fold rr in Happ, Hlen, Hrun.
      destruct (IH rr.2 ltac:(simpl in Hf; lia)) as (Hc & Hall & Hmax).
      split; [|split].
      * simpl. rewrite Hc. f_equal. by rewrite <- Happ.
      * by constructor.
      * intros i r1 r2 H1 H2. destruct i as [|i]; [|by apply (Hmax i)].
        simpl in H1, H2. injection H1 as <-.
        destruct rr.2 as [|next rem] eqn:Er.
        { by rewrite runsOf_nil in H2. }
        destruct f as [|f']; [done|]. simpl in H2. injection H2 as <-.
        intros Hj.
        apply isRun_app_inv in Hj as [Hd Hs]; [|done].
        apply (takeRun_stops st (st start) rest start next rem Er).
        split; [|done].
        rewrite Hs. apply (isRun_status st _ Hrun).
        destruct rr.1 as [|y l] using rev_ind; [apply elem_of_cons; by left|].
        rewrite app_comm_cons, List.last_last.
        apply elem_of_cons. right. apply elem_of_app. right.
        by apply list_elem_of_singleton.
Qed.

(** ** The compactor: what [compactBins] does *)

Lemma compactBins_acts s :
  (50 <= size (Bins s))%nat -> sampledTimes (Bins s) <> [] ->
  compactBins s
  = mkStore ∅
      (Ranges s ++ (rangeOfRun (sampleStatus (Bins s))
                      <$> runsOf (length (sampledTimes (Bins s)))
                            (sampleStatus (Bins s))
                            (sortTimes (sampledTimes (Bins s)))))
      (Conf s) (Tags s).
Proof.
  intros Hsize Hne. unfold compactBins.
  destruct (size (Bins s) <? 50)%nat eqn:E; [apply Nat.ltb_lt in E; lia|].
  destruct (length (sampledTimes (Bins s)) =? 0)%nat eqn:El.
  { apply Nat.eqb_eq in El. by destruct (sampledTimes (Bins s)). }
  f_equal.
  pose proof (emitRuns_fuel (Bins s) (length (sortTimes (sampledTimes (Bins s))))
                (sortTimes (sampledTimes (Bins s))) [] (Ranges s) (le_n _)) as H.
  simpl in H. rewrite H. do 3 f_equal.
  destruct (sortTimes_spec (sampledTimes (Bins s))) as [Hp _].
  by rewrite Hp.
Qed.

Lemma elem_of_sampledTimes (bins : gmap string Z) t :
  t ∈ sampledTimes bins
  <-> exists k v, bins !! k = Some v /\ Strconv.ParseInt k = Some t.
Proof.
  unfold sampledTimes. rewrite list_elem_of_omap. split.
  - intros ([k v] & Hin & Hp). apply elem_of_map_to_list in Hin. by exists k, v.
  - intros (k & v & Hk & Hp). exists (k, v). split; [|done].
    by apply elem_of_map_to_list.
Qed.

Lemma canonical_status s k v t :
  canonicalBins s -> Bins s !! k = Some v -> Strconv.ParseInt k = Some t ->
  binKey t = k /\ sampleStatus (Bins s) t = v.
Proof.
  intros Hc Hk Hp. specialize (Hc k v Hk). unfold canonicalKey in Hc.
  rewrite Hp in Hc. split; [done|].
  unfold sampleStatus, binStatus. by rewrite Hc, Hk.
Qed.

(** What [compactBins] does when it acts: the sorted instants, their cut
    into maximal runs, and the store it leaves. *)
Lemma compactBins_cut (s : Store) :
  (50 <= size (Bins s))%nat -> sampledTimes (Bins s) <> [] ->
  let st := sampleStatus (Bins s) in
  let times := sortTimes (sampledTimes (Bins s)) in
  let runs := runsOf (length (sampledTimes (Bins s))) st times in
  Permutation times (sampledTimes (Bins s))
  /\ StronglySorted Z.le times
  /\ maximalRuns st times runs
  /\ compactBins s
     = mkStore ∅ (Ranges s ++ (rangeOfRun st <$> runs)) (Conf s) (Tags s).
Proof.
  intros Hsize Hne st times runs.
  destruct (sortTimes_spec (sampledTimes (Bins s))) as [Hp Hs].
  split; [done|]. split; [done|]. split.
  - apply runsOf_spec. unfold times. by rewrite Hp.
  - by apply compactBins_acts.
Qed.



(** The example of the run boundaries: the consecutive working buckets and
    the working bucket after the gap compact into two ranges. *)
Example compactBins_gap :
  Ranges (compactBins gapStore)
  = [mkRange 1700000100 1700014800 working EmptyString EmptyString;
     mkRange 1700018100 1700018400 working EmptyString EmptyString]
  /\ Bins (compactBins gapStore) = ∅.
Proof. split; vm_compute; reflexivity. Qed.

(** The same on the emitting loop alone, for the four instants
    [t, t+5m, t+10m] and [t+20m], all working. *)
Example emitRuns_gap :
  let bins : gmap string Z :=
    list_to_map [("0", 1); ("300", 1); ("600", 1); ("1200", 1)]%string in
  emitRuns 4 bins [0; 300; 600; 1200] 0 []
  = [mkRange 0 900 working EmptyString EmptyString;
     mkRange 1200 1500 working EmptyString EmptyString].
Proof. vm_compute. reflexivity. Qed.

(** ** Compaction and the window resolver *)









(** The hypothesis on bucket starts is needed as well: a sample seven seconds
    off the grid resolves to its own instant before compaction and to the
    two buckets its range touches afterwards. *)
Example compaction_misaligned_sample :
  let s := upsertBin (sampledStore 1700000100 49) 1700018107 true in
  map_to_list (fetchBins 0 s 1700018000 1700019000) = [(1700018107, working)]
  /\ map_to_list (fetchBins 0 (compactBins s) 1700018000 1700019000)
     = [(1700018100, working); (1700018400, working)].
Proof. split; vm_compute; reflexivity. Qed.

(** With canonical keys the order in which the raw loop of [fetchBins]
    visits the map does not matter. *)
Lemma rawOverlay_order_irrelevant s start end_ (l : list (string * Z)) :
  canonicalBins s -> Permutation l (map_to_list (Bins s)) ->
  foldl (rawOverlay start end_) ∅ l
  = foldl (rawOverlay start end_) ∅ (map_to_list (Bins s)).
Proof.
  intros Hcan Hperm.
  assert (Hlookup : forall l', Permutation l' (map_to_list (Bins s)) -> forall t,
            foldl (rawOverlay start end_) ∅ l' !! t
            = if decide (start <= t < end_) then
                match Bins s !! binKey t with
                | Some v => if decide (Strconv.ParseInt (binKey t) = Some t)
                            then Some v else None
                | None => None
                end
              else None).
  { intros l' Hp t.
    destruct (foldl (rawOverlay start end_) ∅ l' !! t) as [v|] eqn:E.
    - apply rawOverlay_list_Some in E as [E|(k & Hin & Hparse & Hw)];
        [by rewrite lookup_empty in E|].
      rewrite Hp in Hin. apply elem_of_map_to_list in Hin.
      destruct (canonical_status s k v t Hcan Hin Hparse) as [Hkey _].
      rewrite decide_True, Hkey, Hin by done. by rewrite decide_True.
    - destruct (decide (start <= t < end_)) as [Hw|]; [|done].
      destruct (Bins s !! binKey t) as [v|] eqn:Ev; [|done].
      destruct (decide _) as [Hparse|]; [|done].
      rewrite (rawOverlay_list_unique start end_ l' ∅ t (binKey t) v) in E;
        [done| |done|done|].
      + rewrite Hp. by apply elem_of_map_to_list.
      + intros k' v' Hin' Hp'. rewrite Hp in Hin'.
        apply elem_of_map_to_list in Hin'.
        destruct (canonical_status s k' v' t Hcan Hin' Hp') as [Hkey' _].
        subst k'. split; [done|]. congruence. }
  apply map_eq. intros t. by rewrite (Hlookup l Hperm), (Hlookup _ (reflexivity _)).
Qed.

(** ** Keys: [ParseInt] reads back what [FormatInt] writes *)

Lemma digit_of_char d : 0 <= d < 10 -> Strconv.digit_of (Strconv.digit_char d) = Some d.
Proof.
  intros H.
  assert (Hd : d = 0 \/ d = 1 \/ d = 2 \/ d = 3 \/ d = 4 \/ d = 5 \/ d = 6
               \/ d = 7 \/ d = 8 \/ d = 9) by lia.
  repeat (destruct Hd as [->|Hd]; [reflexivity|]). by subst.
Qed.

Lemma format_digits_parse fuel : forall n,
  0 <= n < 2 ^ Z.of_nat fuel ->
  exists k, 0 <= k /\ forall a acc,
    Strconv.parse_digits a (Strconv.format_digits fuel n acc)
    = Strconv.parse_digits (a * 10 ^ k + n) acc.
Proof.
  induction fuel as [|f IH]; intros n Hn.
  - exists 0. split; [lia|]. intros a acc. simpl.
    f_equal. change (2 ^ Z.of_nat 0) with 1 in Hn. lia.
  - cbn [Strconv.format_digits].
    assert (Hmod : 0 <= n mod 10 < 10) by (apply Z.mod_pos_bound; lia).
    destruct (n <? 10) eqn:E.
    + apply Z.ltb_lt in E. exists 1. split; [lia|]. intros a acc.
      cbn [Strconv.parse_digits]. rewrite digit_of_char by done.
      f_equal. rewrite Z.mod_small by lia. lia.
    + apply Z.ltb_ge in E.
      destruct (IH (n / 10)) as (k & Hk & Hparse).
      { rewrite Nat2Z.inj_succ, Z.pow_succ_r in Hn by lia.
        split; [apply Z.div_pos; lia|].
        apply Z.div_lt_upper_bound; lia. }
      exists (k + 1). split; [lia|]. intros a acc.
      rewrite Hparse. cbn [Strconv.parse_digits].
      rewrite digit_of_char by done. f_equal.
      rewrite Z.pow_add_r by lia.
      pose proof (Z.div_mod n 10 ltac:(lia)). lia.
Qed.

Lemma format_digits_head f : forall n acc,
  exists c r, Strconv.format_digits (S f) n acc = String c r
              /\ is_Some (Strconv.digit_of c).
Proof.
  induction f as [|f IH]; intros n acc; cbn [Strconv.format_digits].
  - assert (Hmod : 0 <= n mod 10 < 10) by (apply Z.mod_pos_bound; lia).
    exists (Strconv.digit_char (n mod 10)), acc.
    rewrite digit_of_char by done. split; [by destruct (n <? 10)|by eexists].
  - assert (Hmod : 0 <= n mod 10 < 10) by (apply Z.mod_pos_bound; lia).
    destruct (n <? 10).
    + exists (Strconv.digit_char (n mod 10)), acc.
      rewrite digit_of_char by done. split; [done|by eexists].
    + apply IH.
Qed.

Lemma ParseUint_FormatUint n :
  0 <= n ->
  Strconv.ParseUint (Strconv.FormatUint n) = Some n
  /\ exists c r, Strconv.FormatUint n = String c r
                 /\ is_Some (Strconv.digit_of c).
Proof.
  intros Hn. unfold Strconv.FormatUint.
  destruct (format_digits_head (Z.to_nat (Z.log2 n)) n EmptyString)
    as (c & r & E & Hc).
  split; [|by exists c, r].
  unfold Strconv.ParseUint. rewrite E at 1. cbv iota.
  destruct (format_digits_parse (S (Z.to_nat (Z.log2 n))) n) as (k & Hk & Hp).
  { split; [done|].
    rewrite Nat2Z.inj_succ, Z2Nat.id by apply Z.log2_nonneg.
    destruct (decide (n = 0)) as [->|Hne]; [reflexivity|].
    pose proof (Z.log2_spec n ltac:(lia)). lia. }
  rewrite Hp. simpl. f_equal.
Qed.

Lemma ParseInt_FormatInt z :
  GoInt.in_int64 z -> Strconv.ParseInt (Strconv.FormatInt z) = Some z.
Proof.
  unfold GoInt.in_int64, GoInt.min_int64, GoInt.max_int64. intros Hz.
  unfold Strconv.FormatInt. destruct (z <? 0) eqn:E.
  - apply Z.ltb_lt in E.
    destruct (ParseUint_FormatUint (- z) ltac:(lia)) as [Hp _].
    cbn [Strconv.ParseInt]. change (Ascii.eqb "-" "+") with false.
    change (Ascii.eqb "-" "-") with true. cbv iota. rewrite Hp.
    destruct (2 ^ 63 <? - z) eqn:Er; [apply Z.ltb_lt in Er; lia|].
    f_equal. lia.
  - apply Z.ltb_ge in E.
    destruct (ParseUint_FormatUint z E) as [Hp (c & r & Ef & [d Hd])].
    rewrite Ef in *. cbn [Strconv.ParseInt].
    assert (Hplus : Ascii.eqb c "+" = false).
    { destruct (Ascii.eqb c "+") eqn:Ec; [|done].
      apply Ascii.eqb_eq in Ec. subst c. discriminate Hd. }
    assert (Hminus : Ascii.eqb c "-" = false).
    { destruct (Ascii.eqb c "-") eqn:Ec; [|done].
      apply Ascii.eqb_eq in Ec. subst c. discriminate Hd. }
    rewrite Hplus, Hminus, Hp.
    destruct (2 ^ 63 <=? z) eqn:Er; [apply Z.leb_le in Er; lia|done].
Qed.

(** ** Invariants of the sampling loop *)

Lemma binKey_canonical t : GoInt.in_int64 t -> canonicalKey (binKey t).
Proof.
  intros H. unfold canonicalKey, binKey. by rewrite ParseInt_FormatInt.
Qed.

Lemma upsertBin_dom s t w k :
  is_Some (Bins (upsertBin s t w) !! k) -> k = binKey t \/ is_Some (Bins s !! k).
Proof.
  rewrite upsertBin_lookup. destruct (decide (k = binKey t)); [by left|by right].
Qed.

(** [upsertBin] writes canonical keys. *)
Lemma upsertBin_canonical s t w :
  GoInt.in_int64 t -> canonicalBins s -> canonicalBins (upsertBin s t w).
Proof.
  intros Ht Hc k v Hk.
  destruct (upsertBin_dom s t w k) as [->|[v' Hv']]; [by eexists| |].
  - by apply binKey_canonical.
  - by apply (Hc k v').
Qed.

(** The loop upserts the bucket [floorToBin] computes, which is a bucket
    start in a zone whose offset is a whole number of minutes. *)
Lemma upsertBin_aligned loc s now w :
  loc mod 60 = 0 -> GoInt.in_int64 (floorToBin loc now) ->
  alignedBins loc s -> alignedBins loc (upsertBin s (floorToBin loc now) w).
Proof.
  intros Hloc Ht Ha k v Hk.
  destruct (upsertBin_dom s (floorToBin loc now) w k) as [->|[v' Hv']];
    [by eexists| |].
  - unfold binKey. rewrite ParseInt_FormatInt by done.
    apply floorToBin_fixed; [done|apply floorToBin_bucketStart].
  - by apply (Ha k v').
Qed.

(** Statuses stay idle or working. *)
Lemma upsertBin_status s t w :
  map_Forall (fun _ v => v = idle \/ v = working) (Bins s) ->
  map_Forall (fun _ v => v = idle \/ v = working) (Bins (upsertBin s t w)).
Proof.
  intros H k v Hk. rewrite upsertBin_lookup in Hk.
  destruct (decide (k = binKey t)) as [->|Hne]; [|by apply (H k)].
  destruct (Bins s !! binKey t) as [v'|] eqn:E.
  - destruct (H _ _ E) as [-> | ->]; destruct w; simplify_eq; auto.
  - destruct w; simplify_eq; auto.
Qed.

(** * Further properties *)

(** ** The bucket clock *)



(** In a zone whose offset has odd seconds the floor of a floor is an
    earlier bucket. *)
Example floorToBin_odd_offset :
  floorToBin 1234 266 = -34 /\ floorToBin 1234 (-34) = -334.
Proof. split; reflexivity. Qed.

(** ** The store: what an upsert leaves alone *)

Lemma upsertBin_setBins s t w :
  upsertBin s t w = setBins s (Bins (upsertBin s t w)).
Proof.
  destruct s as [b r c g]. unfold upsertBin, setBins. cbn [Bins Ranges Conf Tags].
  destruct (w && _); [done|]. destruct (_ && negb w); [|done].
  by destruct (b !! binKey t).
Qed.

Lemma upsertBin_bins_cases s t w :
  Bins (upsertBin s t w) = Bins s
  \/ exists v, Bins (upsertBin s t w) = <[binKey t := v]> (Bins s).
Proof.
  unfold upsertBin.
  destruct (w && _); [right; by eexists|].
  destruct (_ && negb w); [|by left].
  destruct (Bins s !! binKey t); [by left|right; by eexists].
Qed.

Lemma upsertBin_fields s t w :
  Ranges (upsertBin s t w) = Ranges s
  /\ Conf (upsertBin s t w) = Conf s
  /\ Tags (upsertBin s t w) = Tags s.
Proof. rewrite upsertBin_setBins. by destruct s. Qed.

Lemma upsertBin_sample_Some s t w : is_Some (sampleOf (upsertBin s t w) t).
Proof.
  unfold sampleOf. rewrite upsertBin_lookup, decide_True by done.
  destruct (Bins s !! binKey t); by eexists.
Qed.

(** X3.  An upsert touches the sample of its bucket and nothing else: the
    ranges, the configuration, the tag catalogue and every other sample are
    what they were, the bucket has a sample afterwards, the number of samples
    grows by one at most, and the same observation repeated changes nothing
    more. *)
Theorem upsertBin_frame (s : Store) (t : Z) (w : bool) :
  Ranges (upsertBin s t w) = Ranges s
  /\ Conf (upsertBin s t w) = Conf s
  /\ Tags (upsertBin s t w) = Tags s
  /\ (forall k, k <> binKey t -> Bins (upsertBin s t w) !! k = Bins s !! k)
  /\ is_Some (sampleOf (upsertBin s t w) t)
  /\ (size (Bins s) <= size (Bins (upsertBin s t w)) <= S (size (Bins s)))%nat
  /\ upsertBin (upsertBin s t w) t w = upsertBin s t w.
Proof.
  destruct (upsertBin_fields s t w) as (Hr & Hc & Hg).
  split; [done|]. split; [done|]. split; [done|]. split; [|split; [|split]].
  - intros k Hk. rewrite upsertBin_lookup. by rewrite decide_False.
  - apply upsertBin_sample_Some.
  - destruct (upsertBin_bins_cases s t w) as [->|[v ->]]; [lia|].
    rewrite map_size_insert. destruct (Bins s !! binKey t); simpl; lia.
  - rewrite (upsertBin_setBins (upsertBin s t w) t w).
    assert (Hb : Bins (upsertBin (upsertBin s t w) t w) = Bins (upsertBin s t w)).
    { apply map_eq. intros k. rewrite (upsertBin_lookup (upsertBin s t w)).
      destruct (decide (k = binKey t)) as [->|]; [|done].
      rewrite upsertBin_lookup, decide_True by done.
      destruct (Bins s !! binKey t) as [v|]; destruct w; simpl; try done.
      destruct (v =? 0) eqn:E; simpl; [done|]. by rewrite E. }
    rewrite Hb. by destruct (upsertBin s t w).
Qed.

(** ** The store: a bucket is working when one of its ticks saw activity *)

Lemma upsertAll_fold obs : forall s t,
  sampleOf (upsertAll s obs) t = foldl upsertStatus (sampleOf s t) (observedAt t obs).
Proof.
  induction obs as [|[t' w] obs IH]; intros s t; [done|].
  change (upsertAll s ((t', w) :: obs)) with (upsertAll (upsertBin s t' w) obs).
  rewrite IH. unfold observedAt. rewrite filter_cons. cbn [fst].
  unfold sampleOf at 1. rewrite upsertBin_lookup.
  destruct (decide (binKey t' = binKey t)) as [E|E].
  - rewrite decide_True by done. rewrite fmap_cons. cbn [foldl snd].
    unfold sampleOf, upsertStatus at 3. by destruct (Bins s !! binKey t).
  - by rewrite decide_False by done.
Qed.

Lemma upsertStatus_fold ws : forall b : bool,
  foldl upsertStatus (Some (if b then 1 else 0)) ws
  = Some (if b || existsb id ws then 1 else 0).
Proof.
  induction ws as [|w ws IH]; intros b; simpl.
  - by rewrite orb_false_r.
  - destruct b, w; simpl; try apply (IH true); apply (IH false).
Qed.

(** X4.  The sample of a bucket that had none is the disjunction of what the
    ticks of the bucket observed, in whatever order they and the ticks of
    other buckets come: it is absent when no tick fell into the bucket,
    working when one of them saw activity, idle otherwise. *)
Theorem upsertAll_any_working (s : Store) (t : Z) (obs : list (Z * bool)) :
  sampleOf s t = None ->
  sampleOf (upsertAll s obs) t
  = match observedAt t obs with
    | [] => None
    | ws => Some (if existsb id ws then working else idle)
    end.
Proof.
  intros Hs. rewrite upsertAll_fold, Hs.
  destruct (observedAt t obs) as [|w ws]; [done|].
  cbn [foldl upsertStatus]. rewrite upsertStatus_fold. by destruct w.
Qed.

Lemma upsertAll_any_working_witness :
  let s := mkStore ∅ [] defaultConfig [] in
  let obs := [(1700000100, false); (1700000400, false); (1700000100, true);
              (1700000100, false)] in
  sampleOf (upsertAll s obs) 1700000100
  = match observedAt 1700000100 obs with
    | [] => None
    | ws => Some (if existsb id ws then working else idle)
    end.
Proof.
  intros s obs. apply (upsertAll_any_working s 1700000100 obs). reflexivity.
Defined.

(** ** The window resolver: what it returns and where *)




(** X9.  [fetchBins] never returns a bucket outside its window, and every
    status it returns is the status of a raw sample or of a stored range
    that assigns the bucket; a window that ends where it starts, or before,
    resolves to nothing. *)
Theorem fetchBins_within_window (loc : Z) (s : Store) (start end_ : Z) :
  (forall t v, fetchBins loc s start end_ !! t = Some v ->
     start <= t < end_
     /\ (rawAssigns s start end_ t v
         \/ exists r, r ∈ Ranges s /\ rangeAssigns loc start end_ r t
                      /\ Status r = v))
  /\ (end_ <= start -> fetchBins loc s start end_ = ∅).
Proof.
  assert (H : forall t v, fetchBins loc s start end_ !! t = Some v ->
     start <= t < end_
     /\ (rawAssigns s start end_ t v
         \/ exists r, r ∈ Ranges s /\ rangeAssigns loc start end_ r t
                      /\ Status r = v)).
  { intros t v. rewrite fetchBins_lookup.
    destruct (lastAssigning loc start end_ (Ranges s) t) as [r|] eqn:E.
    - intros [= <-]. apply lastAssigning_Some in E as (l1 & l2 & El & Hr & _).
      split; [apply Hr|]. right. exists r. split; [|done].
      rewrite El. apply elem_of_app. right. apply elem_of_cons. by left.
    - intros Hraw. apply fetchBins_raw_Some in Hraw.
      split; [|by left]. by destruct Hraw as (k & _ & _ & Hw). }
  split; [exact H|]. intros Hempty. apply map_eq. intros t.
  rewrite lookup_empty. destruct (fetchBins loc s start end_ !! t) as [v|] eqn:E;
    [|done].
  apply H in E as [Hw _]. lia.
Qed.

(** ** The compactor: what it keeps and what it drops *)

Lemma compactBins_idle s : ~ compacts s -> compactBins s = s.
Proof.
  intros Hn. unfold compactBins.
  destruct (size (Bins s) <? 50)%nat eqn:E; [done|].
  destruct (length (sampledTimes (Bins s)) =? 0)%nat eqn:El; [done|].
  exfalso. apply Hn. split.
  - apply Nat.ltb_ge in E. lia.
  - intros H. rewrite H in El. done.
Qed.

Lemma compactBins_emitted s :
  compacts s ->
  compactBins s = mkStore ∅ (Ranges s ++ emittedRanges s) (Conf s) (Tags s)
  /\ emittedRanges s
     = rangeOfRun (sampleStatus (Bins s))
         <$> runsOf (length (sampledTimes (Bins s))) (sampleStatus (Bins s))
               (sortTimes (sampledTimes (Bins s))).
Proof.
  intros [H1 H2]. pose proof (compactBins_acts s H1 H2) as E.
  assert (Hem : emittedRanges s
     = rangeOfRun (sampleStatus (Bins s))
         <$> runsOf (length (sampledTimes (Bins s))) (sampleStatus (Bins s))
               (sortTimes (sampledTimes (Bins s)))).
  { unfold emittedRanges. rewrite E. cbn [Ranges]. by rewrite drop_app_length. }
  split; [|done]. by rewrite Hem.
Qed.

(** X5.  Compaction is idempotent and never touches what is stored beside
    the raw samples: the configuration and the tag catalogue are kept, the
    stored ranges stay in place, with their tags and notes, in front of the
    ranges it appends, and those carry no tag and no note.  It either leaves
    the store as it is or empties the raw samples. *)
Theorem compactBins_preserves (s : Store) :
  compactBins (compactBins s) = compactBins s
  /\ Conf (compactBins s) = Conf s
  /\ Tags (compactBins s) = Tags s
  /\ Ranges (compactBins s) = Ranges s ++ emittedRanges s
  /\ Forall (fun r => Tag r = EmptyString /\ Note r = EmptyString) (emittedRanges s)
  /\ (compactBins s = s \/ Bins (compactBins s) = ∅).
Proof.
  destruct (decide (compacts s)) as [Hc|Hn].
  - destruct (compactBins_emitted s Hc) as [E Hem].
    rewrite E. cbn [Conf Tags Ranges Bins].
    split; [|split; [done|split; [done|split; [done|split; [|by right]]]]].
    + apply compactBins_below_50. cbn [Bins]. rewrite map_size_empty. lia.
    + rewrite Hem. apply Forall_fmap, Forall_forall. by intros run _.
  - rewrite !(compactBins_idle s Hn).
    assert (Hem : emittedRanges s = []).
    { unfold emittedRanges. rewrite (compactBins_idle s Hn).
      by rewrite drop_all. }
    rewrite Hem, app_nil_r. repeat split; try done. by left.
Qed.

(** X6.  [compactBins] acts exactly when the store holds at least 50 raw
    samples and one of their keys parses as an instant.  Below that, or when
    no key parses, however many there are, the store is unchanged; when it
    acts it drops every raw sample, with or without a key that parses, and
    appends at least one range and at most one per key that parses. *)
Theorem compactBins_acts_iff (s : Store) :
  (compacts s ->
     Bins (compactBins s) = ∅
     /\ (0 < length (emittedRanges s) <= length (sampledTimes (Bins s)))%nat
     /\ (length (sampledTimes (Bins s)) <= size (Bins s))%nat)
  /\ (~ compacts s -> compactBins s = s)
  /\ (sampledTimes (Bins s) = [] -> compactBins s = s).
Proof.
  split; [|split].
  - intros Hc. destruct (compactBins_emitted s Hc) as [E Hem].
    rewrite E. cbn [Bins]. split; [done|].
    destruct Hc as [Hsize Hne].
    destruct (compactBins_cut s Hsize Hne) as (Hp & _ & (Hcat & Hruns & _) & _).
    set (runs := runsOf _ _ _) in *.
    assert (Hlen : (length runs <= length (concat runs))%nat).
    { clear -Hruns. induction Hruns as [|r rs Hr _ IH]; [done|].
      simpl. rewrite length_app. destruct Hr; simpl; lia. }
    rewrite Hem, length_fmap. fold runs.
    rewrite Hcat, Hp in Hlen. split; [split; [|done]|].
    + destruct runs as [|r rs]; [|simpl; lia].
      simpl in Hcat. rewrite <- Hcat in Hp. by apply Permutation_nil in Hp.
    + unfold sampledTimes. rewrite <- length_map_to_list.
      clear. induction (map_to_list (Bins s)) as [|kv l IH]; [done|].
      cbn [omap list_omap]. cbv beta. destruct (Strconv.ParseInt kv.1); simpl length;
        change (list_omap ?f ?l) with (omap f l) in *; lia.
  - apply compactBins_idle.
  - intros H. apply compactBins_idle. intros [_ Hne]. done.
Qed.

(** ** The compactor: the ranges it emits *)













(** ** Totals of windows *)

Lemma wrap64_add_l a b : GoInt.wrap64 (GoInt.wrap64 a + b) = GoInt.wrap64 (a + b).
Proof.
  unfold GoInt.wrap64. f_equal.
  replace ((a + 2 ^ 63) mod 2 ^ 64 - 2 ^ 63 + b + 2 ^ 63)
    with ((a + 2 ^ 63) mod 2 ^ 64 + b) by lia.
  rewrite Zplus_mod_idemp_l. f_equal. lia.
Qed.


Lemma workMinutes_fold (l : list (Z * Z)) : forall acc,
  foldl (fun acc tv => if tv.2 =? 1 then GoInt.add acc binMinutes else acc)
    (GoInt.wrap64 acc) l
  = GoInt.wrap64
      (acc + binMinutes * Z.of_nat (length (filter (fun tv : Z * Z => tv.2 = working) l))).
Proof.
  induction l as [|[t v] l IH]; intros acc.
  - simpl. f_equal. lia.
  - cbn [foldl snd]. rewrite filter_cons. cbn [snd]. unfold working at 1.
    destruct (decide (v = 1)) as [->|Hv].
    + change (1 =? 1) with true. cbv iota. unfold GoInt.add at 2.
      rewrite wrap64_add_l, IH. f_equal. rewrite length_cons. lia.
    + destruct (v =? 1) eqn:E; [lia|]. apply IH.
Qed.

Lemma NoDup_fst_filter {A B} (P : A * B -> Prop) `{!forall x, Decision (P x)}
    (l : list (A * B)) :
  NoDup l.*1 -> NoDup (filter P l).*1.
Proof.
  induction l as [|x l IH]; [done|]. rewrite fmap_cons, NoDup_cons.
  intros [Hx Hl]. rewrite filter_cons. destruct (decide (P x)); [|by apply IH].
  rewrite fmap_cons, NoDup_cons. split; [|by apply IH].
  intros Hin. apply Hx. apply list_elem_of_fmap in Hin as (y & -> & Hy).
  apply list_elem_of_filter in Hy as [_ Hy]. apply list_elem_of_fmap. by exists y.
Qed.

Lemma workMinutes_count bins :
  workMinutes bins = GoInt.wrap64 (binMinutes * workingCount bins).
Proof.
  unfold workMinutes, workingCount.
  change 0 with (GoInt.wrap64 0) at 1. rewrite workMinutes_fold.
  rewrite Z.add_0_l. do 3 f_equal.
  rewrite map_filter_alt, map_size_list_to_map; [done|].
  apply NoDup_fst_filter, NoDup_fst_map_to_list.
Qed.




Lemma fetchBins_in_window loc s start end_ t v :
  fetchBins loc s start end_ !! t = Some v -> start <= t < end_.
Proof.
  rewrite fetchBins_lookup.
  destruct (lastAssigning loc start end_ (Ranges s) t) as [r|] eqn:E.
  - intros _. apply lastAssigning_Some in E as (l1 & l2 & El & Hr & _). apply Hr.
  - intros Hraw. apply fetchBins_raw_Some in Hraw.
    by destruct Hraw as (k & _ & _ & Hw).
Qed.

Lemma fetchBins_empty_window loc s start end_ :
  end_ <= start -> fetchBins loc s start end_ = ∅.
Proof.
  intros He. apply map_eq. intros t. rewrite lookup_empty.
  destruct (fetchBins loc s start end_ !! t) as [v|] eqn:E; [|done].
  apply fetchBins_in_window in E. lia.
Qed.










(** ** Days and weeks *)

Ltac zday :=
  unfold startOfDay, AddDays, Weekday, bucketStart, binWidth, binMinutes in *;
  Z.div_mod_to_equations; lia.







Lemma weekStart_midnight loc now :
  Weekday loc (weekStart loc now) = 1
  /\ startOfDay loc (weekStart loc now) = weekStart loc now
  /\ weekStart loc now <= now < AddDays (weekStart loc now) 7.
Proof.
  unfold weekStart. cbv zeta.
  destruct (Weekday loc now =? 0) eqn:E.
  - apply Z.eqb_eq in E. revert E. zday.
  - apply Z.eqb_neq in E. revert E. zday.
Qed.



(** X12.  The week of the week report and of the dashboard is the calendar
    week from Monday: [weekStart] is a local midnight, its weekday is Monday,
    the seven days from it on hold the present instant, and every instant of
    those seven days has the same week start. *)
Theorem weekStart_monday (loc now : Z) :
  Weekday loc (weekStart loc now) = 1
  /\ startOfDay loc (weekStart loc now) = weekStart loc now
  /\ weekStart loc now <= now < AddDays (weekStart loc now) 7
  /\ (forall t, weekStart loc now <= t < AddDays (weekStart loc now) 7 ->
        weekStart loc t = weekStart loc now).
Proof.
  destruct (weekStart_midnight loc now) as (H1 & H2 & H3).
  split; [done|]. split; [done|]. split; [done|].
  intros t Ht. destruct (weekStart_midnight loc t) as (G1 & G2 & G3).
  revert H1 H2 H3 G1 G2 G3 Ht.
  generalize (weekStart loc now) (weekStart loc t). intros a b. zday.
Qed.














(** ** The totals of today *)






(** ** Focus statistics against the totals *)






(** ** Configuration input: what is accepted *)

Lemma allDigits_no_colon s :
  allDigits s = true -> Strings.Contains s ":"%char = false.
Proof.
  induction s as [|c r IH]; [done|]. cbn [allDigits Strings.Contains].
  destruct (Strconv.digit_of c) eqn:E; [|done]. intros H.
  destruct (Ascii.eqb c ":") eqn:Ec.
  - apply Ascii.eqb_eq in Ec as ->. by vm_compute in E.
  - by apply IH.
Qed.

Lemma intLiteral_no_colon s : intLiteral s -> Strings.Contains s ":"%char = false.
Proof.
  intros (sign & digits & -> & Hs & _ & Hd). apply allDigits_no_colon in Hd.
  destruct Hs as [->|[->| ->]]; [done| |].
  - change ("+" ++ digits)%string with (String "+" digits). by cbn.
  - change ("-" ++ digits)%string with (String "-" digits). by cbn.
Qed.

Lemma FormatInt_no_colon z :
  GoInt.in_int64 z -> Strings.Contains (Strconv.FormatInt z) ":"%char = false.
Proof.
  intros Hz. apply intLiteral_no_colon, (ParseInt_literal _ z).
  by apply ParseInt_FormatInt.
Qed.

(** X16.  The daily goal is parsed without any range check: two integers
    around a colon, whatever their sign and size, give hours times 60 plus
    minutes in 64-bit arithmetic.  A negative goal and minutes above 59 are
    accepted. *)
Theorem parseTimeToMinutes_unchecked (h m : Z) :
  GoInt.in_int64 h -> GoInt.in_int64 m ->
  parseTimeToMinutes (fmtInt h ++ ":" ++ fmtInt m)
  = Ok (GoInt.add (GoInt.mul h 60) m).
Proof.
  intros Hh Hm. unfold parseTimeToMinutes, fmtInt.
  change (Strconv.FormatInt h ++ ":" ++ Strconv.FormatInt m)%string
    with (Strconv.FormatInt h ++ String ":" (Strconv.FormatInt m))%string.
  rewrite Split_app_sep by (by apply FormatInt_no_colon).
  rewrite Split_no_sep by (by apply FormatInt_no_colon).
  unfold Strconv.Atoi. by rewrite !ParseInt_FormatInt.
Qed.

Lemma parseTimeToMinutes_unchecked_witness :
  parseTimeToMinutes (fmtInt (-1) ++ ":" ++ fmtInt 75)
  = Ok (GoInt.add (GoInt.mul (-1) 60) 75).
Proof.
  apply (parseTimeToMinutes_unchecked (-1) 75).
  - unfold GoInt.in_int64, GoInt.min_int64, GoInt.max_int64. lia.
  - unfold GoInt.in_int64, GoInt.min_int64, GoInt.max_int64. lia.
Defined.


Section WorkDaysAccepted.

Variable ToLower TrimSpace : string -> string.



End WorkDaysAccepted.


(** ** Persistence and the configuration update *)

Lemma loadStore_Doc s :
  exists c, loadStore (Doc s) = Ok (setConf s c)
            /\ DailyGoalMinutes c <> 0 /\ WorkDays c <> []
            /\ (DailyGoalMinutes (Conf s) <> 0 -> DailyGoalMinutes c = DailyGoalMinutes (Conf s))
            /\ (WorkDays (Conf s) <> [] -> WorkDays c = WorkDays (Conf s)).
Proof.
  eexists. split; [reflexivity|]. cbn [DailyGoalMinutes WorkDays].
  destruct (DailyGoalMinutes (Conf s) =? 0) eqn:Eg;
    destruct (WorkDays (Conf s)) as [|d ds] eqn:Ew; simpl; repeat split;
    try done; try lia.
Qed.

Lemma setConf_same s : setConf s (Conf s) = s.
Proof. by destruct s. Qed.

(** X18.  Loading normalises the configuration and nothing else.  A store
    that [loadStore] returns never has a daily goal of zero nor an empty list
    of work days; samples, ranges and tags are those of the document; and
    loading what was saved from a loaded store returns that store. *)
Theorem loadStore_normalises (f : File) (s : Store) :
  loadStore f = Ok s ->
  DailyGoalMinutes (Conf s) <> 0
  /\ WorkDays (Conf s) <> []
  /\ loadStore (saveStore s) = Ok s
  /\ (forall d, f = Doc d ->
        Bins s = Bins d /\ Ranges s = Ranges d /\ Tags s = Tags d
        /\ (DailyGoalMinutes (Conf d) <> 0 ->
              DailyGoalMinutes (Conf s) = DailyGoalMinutes (Conf d))
        /\ (DailyGoalMinutes (Conf d) = 0 -> DailyGoalMinutes (Conf s) = 480)).
Proof.
  intros H.
  assert (Hn : DailyGoalMinutes (Conf s) <> 0 /\ WorkDays (Conf s) <> []).
  { destruct f as [| |d]; [injection H as <-; by cbn|done|].
    destruct (loadStore_Doc d) as (c & E & Hg & Hw & _).
    rewrite E in H. injection H as <-. by destruct d. }
  destruct Hn as [Hg Hw]. split; [done|]. split; [done|]. split.
  - unfold saveStore. destruct (loadStore_Doc s) as (c & E & _ & _ & Hg' & Hw').
    rewrite E. f_equal. rewrite <- (setConf_same s) at 2. f_equal.
    specialize (Hg' Hg). specialize (Hw' Hw). destruct c, (Conf s). simpl in *.
    by subst.
  - intros d ->. unfold loadStore in H. injection H as <-.
    destruct d as [b r c g]. cbn [setConf Bins Ranges Tags Conf DailyGoalMinutes].
    split; [done|]. split; [done|]. split; [done|]. split.
    + intros Hd. destruct (DailyGoalMinutes c =? 0) eqn:E; [lia|done].
    + intros ->. done.
Qed.

Lemma loadStore_normalises_witness :
  let d := mkStore ∅ [] (mkConfig 0 []) [] in
  let s := mkStore ∅ [] defaultConfig [] in
  DailyGoalMinutes (Conf s) <> 0
  /\ WorkDays (Conf s) <> []
  /\ loadStore (saveStore s) = Ok s
  /\ (forall d', Doc d = Doc d' ->
        Bins s = Bins d' /\ Ranges s = Ranges d' /\ Tags s = Tags d'
        /\ (DailyGoalMinutes (Conf d') <> 0 ->
              DailyGoalMinutes (Conf s) = DailyGoalMinutes (Conf d'))
        /\ (DailyGoalMinutes (Conf d') = 0 -> DailyGoalMinutes (Conf s) = 480)).
Proof.
  apply (loadStore_normalises (Doc (mkStore ∅ [] (mkConfig 0 []) []))
           (mkStore ∅ [] defaultConfig [])).
  reflexivity.
Defined.

Section ConfigUpdate.

Variable ToLower TrimSpace : string -> string.

Lemma applyConfig_Ok store key value store' :
  applyConfig ToLower TrimSpace store key value = Ok store' ->
  Bins store' = Bins store /\ Ranges store' = Ranges store
  /\ Tags store' = Tags store
  /\ ((key = "dailygoal"%string
       /\ parseTimeToMinutes value = Ok (DailyGoalMinutes (Conf store'))
       /\ WorkDays (Conf store') = WorkDays (Conf store))
      \/ (key = "workdays"%string
          /\ parseWorkDays ToLower TrimSpace value = Ok (WorkDays (Conf store'))
          /\ DailyGoalMinutes (Conf store') = DailyGoalMinutes (Conf store))).
Proof.
  unfold applyConfig. intros H.
  destruct (String.eqb key "dailygoal") eqn:E1.
  - apply String.eqb_eq in E1 as ->.
    destruct (parseTimeToMinutes value) as [mins|] eqn:Ep; [|done].
    injection H as <-. destruct store. cbn. repeat split. left. done.
  - destruct (String.eqb key "workdays") eqn:E2; [|done].
    apply String.eqb_eq in E2 as ->.
    destruct (parseWorkDays ToLower TrimSpace value) as [days|] eqn:Ep; [|done].
    injection H as <-. destruct store. cbn. repeat split. right. done.
Qed.

(** X19.  A configuration update either fails and leaves the document as it
    was, or succeeds and changes one setting only: the document then holds
    the loaded store with the parsed value in the setting the key names, the
    other setting, the samples, the ranges and the tags being those that
    were loaded.  The key is matched as written, so any other key, and any
    other spelling of the two keys, fails. *)
Theorem mainConfig_frame (file : File) (configFlag : string) :
  let r := mainConfig ToLower TrimSpace file configFlag in
  (r.2 = Exit1 -> r.1 = file)
  /\ (r.2 = Return ->
        exists key value store store',
          Strings.SplitN2 configFlag "="%char = [key; value]
          /\ loadStore file = Ok store /\ r.1 = Doc store'
          /\ Bins store' = Bins store /\ Ranges store' = Ranges store
          /\ Tags store' = Tags store
          /\ ((key = "dailygoal"%string
               /\ parseTimeToMinutes value = Ok (DailyGoalMinutes (Conf store'))
               /\ WorkDays (Conf store') = WorkDays (Conf store))
              \/ (key = "workdays"%string
                  /\ parseWorkDays ToLower TrimSpace value
                     = Ok (WorkDays (Conf store'))
                  /\ DailyGoalMinutes (Conf store')
                     = DailyGoalMinutes (Conf store)))).
Proof.
  intros r. unfold r, mainConfig.
  destruct (Strings.SplitN2 configFlag "=") as [|key [|value [|x xs]]];
    try (split; [done|discriminate]).
  destruct (loadStore file) as [store|e] eqn:El; [|split; [done|discriminate]].
  destruct (applyConfig ToLower TrimSpace store key value) as [store'|e] eqn:Ea;
    [|split; [done|discriminate]].
  split; [discriminate|]. intros _.
  exists key, value, store, store'. split; [done|]. split; [done|].
  split; [done|]. by apply applyConfig_Ok.
Qed.

End ConfigUpdate.

(** A goal of zero cannot be kept: the update stores it, the next load reads
    the default. *)
Example zero_goal_reads_default (file : File) (store : Store) :
  loadStore file = Ok store ->
  exists store',
    mainConfig Strings.asciiToLower Strings.asciiTrimSpace file "dailygoal=0:00"
    = (Doc store', Return)
    /\ DailyGoalMinutes (Conf store') = 0
    /\ exists s, loadStore (Doc store') = Ok s /\ DailyGoalMinutes (Conf s) = 480.
Proof.
  intros H. unfold mainConfig.
  change (Strings.SplitN2 "dailygoal=0:00" "=") with ["dailygoal"; "0:00"]%string.
  rewrite H. unfold applyConfig.
  change (String.eqb "dailygoal" "dailygoal") with true. cbv iota.
  change (parseTimeToMinutes "0:00") with (Ok (A := Z) 0).
  eexists. split; [reflexivity|]. split; [by destruct store|].
  eexists. split; [reflexivity|]. by destruct store.
Qed.

(** ** The sampling loop: what every iteration maintains *)

Lemma sampleTick_cases loc file store now la :
  let u := tickStore loc file store now la in
  sampleTick loc file store now (Some la)
  = if (100 <? size (Bins u))%nat
    then (saveStore (compactBins u), compactBins u,
          [EvSave u; EvCompact; EvSave (compactBins u)])
    else (saveStore u, u, [EvSave u]).
Proof. reflexivity. Qed.

Lemma upsertBin_compacts s t w :
  GoInt.in_int64 t -> (50 <= size (Bins (upsertBin s t w)))%nat ->
  compacts (upsertBin s t w).
Proof.
  intros Ht Hsz. split; [done|]. intros Hnil.
  destruct (upsertBin_sample_Some s t w) as [v Hv]. unfold sampleOf in Hv.
  assert (Hin : t ∈ sampledTimes (Bins (upsertBin s t w))).
  { apply elem_of_sampledTimes. exists (binKey t), v. split; [done|].
    by apply ParseInt_FormatInt. }
  rewrite Hnil in Hin. by apply elem_of_nil in Hin.
Qed.

(** X20.  After every iteration of the sampling loop whose probe succeeded,
    the document holds the store the loop carries on with, that store has at
    most 100 raw samples, and the last thing the iteration did was to save
    it: the sample just written has a key that parses, so a compaction that
    is due always empties the samples. *)
Theorem sampleTick_bounded (loc : Z) (file : File) (store : Store) (now la : Z) :
  GoInt.in_int64 (floorToBin loc now) ->
  let r := sampleTick loc file store now (Some la) in
  r.1.1 = Doc r.1.2
  /\ (size (Bins r.1.2) <= 100)%nat
  /\ last r.2 = Some (EvSave r.1.2)
  /\ Conf r.1.2 = Conf (tickStore loc file store now la)
  /\ Tags r.1.2 = Tags (tickStore loc file store now la)
  /\ (is_Some (sampleOf r.1.2 (floorToBin loc now)) \/ Bins r.1.2 = ∅).
Proof.
  intros Hin r. unfold r. rewrite sampleTick_cases. cbv zeta.
  set (u := tickStore loc file store now la).
  destruct (100 <? size (Bins u))%nat eqn:E.
  - apply Nat.ltb_lt in E. cbn [fst snd].
    assert (Hc : compacts u).
    { revert E. unfold u, tickStore. cbv zeta. intros E.
      apply upsertBin_compacts; [done|lia]. }
    destruct (compactBins_emitted u Hc) as [-> _]. cbn [Bins Conf Tags].
    rewrite map_size_empty. repeat split; try done; [lia|by right].
  - apply Nat.ltb_ge in E. cbn [fst snd]. repeat split; try done.
    left. apply upsertBin_sample_Some.
Qed.

Lemma sampleTick_bounded_witness :
  let r := sampleTick 0 Missing (sampledStore 1700000100 3) 1700000400
             (Some 1700000399) in
  r.1.1 = Doc r.1.2
  /\ (size (Bins r.1.2) <= 100)%nat
  /\ last r.2 = Some (EvSave r.1.2)
  /\ Conf r.1.2
     = Conf (tickStore 0 Missing (sampledStore 1700000100 3) 1700000400 1700000399)
  /\ Tags r.1.2
     = Tags (tickStore 0 Missing (sampledStore 1700000100 3) 1700000400 1700000399)
  /\ (is_Some (sampleOf r.1.2 (floorToBin 0 1700000400)) \/ Bins r.1.2 = ∅).
Proof.
  apply (sampleTick_bounded 0 Missing (sampledStore 1700000100 3)
           1700000400 1700000399).
  vm_compute. split; discriminate.
Defined.

Lemma compactBins_kept loc s : wellKept loc s -> wellKept loc (compactBins s).
Proof.
  intros Hk. destruct (decide (compacts s)) as [Hc|Hc].
  - destruct (compactBins_emitted s Hc) as [-> _].
    split; unfold canonicalBins, alignedBins; cbn [Bins]; apply map_Forall_empty.
  - by rewrite compactBins_idle.
Qed.

Lemma loadStore_kept loc file s :
  fileKept loc file -> loadStore file = Ok s -> wellKept loc s.
Proof.
  intros Hf H. destruct file as [| |d]; [|done|].
  - injection H as <-.
    split; unfold canonicalBins, alignedBins; cbn [Bins]; apply map_Forall_empty.
  - unfold loadStore in H. injection H as <-. by destruct d.
Qed.

(** X21.  The sampling loop keeps its store well formed.  With a zone offset
    of whole minutes, when the document and the store the loop holds have
    canonical keys and samples on bucket starts, so have the store and the
    document after the iteration, also when the probe fails. *)
Theorem sampleTick_keeps (loc : Z) (file : File) (store : Store) (now : Z)
    (la : option Z) :
  loc mod 60 = 0 -> GoInt.in_int64 (floorToBin loc now) ->
  fileKept loc file -> wellKept loc store ->
  let r := sampleTick loc file store now la in
  fileKept loc r.1.1 /\ wellKept loc r.1.2.
Proof.
  intros Hl Hin Hf Hs r. unfold r. destruct la as [la|]; [|done].
  rewrite sampleTick_cases. cbv zeta.
  assert (Hu : wellKept loc (tickStore loc file store now la)).
  { unfold tickStore. cbv zeta.
    assert (Hb : wellKept loc (match loadStore file with
                               | Ok fresh => fresh
                               | Err _ => store
                               end)).
    { destruct (loadStore file) as [fresh|e] eqn:E; [|done].
      by eapply loadStore_kept. }
    destruct Hb as [Hc Ha]. split.
    - by apply upsertBin_canonical.
    - by apply upsertBin_aligned. }
  destruct (100 <? size (Bins (tickStore loc file store now la)))%nat;
    cbn [fst snd saveStore fileKept]; [|done].
  split; by apply compactBins_kept.
Qed.

Lemma sampleTick_keeps_witness :
  let r := sampleTick 0 Missing (sampledStore 1700000100 3) 1700000400
             (Some 1700000399) in
  fileKept 0 r.1.1 /\ wellKept 0 r.1.2.
Proof.
  apply (sampleTick_keeps 0 Missing (sampledStore 1700000100 3) 1700000400
           (Some 1700000399)).
  - reflexivity.
  - vm_compute. split; discriminate.
  - exact I.
  - apply (bool_decide_unpack _). vm_compute. exact I.
Defined.

(** ** The timeline of today *)

Lemma sameStatusEnd_spec seq status st : forall fuel j,
  (length seq - j <= fuel)%nat ->
  let e := sameStatusEnd fuel seq status st j in
  (j <= e)%nat
  /\ (j <= length seq -> e <= length seq)%nat
  /\ (forall k t, (j <= k < e)%nat -> seq !! k = Some t -> statusAt status t = st)
  /\ (forall t, seq !! e = Some t -> statusAt status t <> st).
Proof.
  induction fuel as [|f IH]; intros j Hf.
  - simpl. split; [lia|]. split; [lia|]. split; [intros; lia|].
    intros t Ht. apply lookup_lt_Some in Ht. lia.
  - cbn [sameStatusEnd]. destruct (seq !! j) as [t|] eqn:Ej.
    + destruct (statusAt status t =? st) eqn:Es.
      * apply Z.eqb_eq in Es. apply lookup_lt_Some in Ej as Hlt.
        destruct (IH (S j) ltac:(lia)) as (H1 & H2 & H3 & H4).
        split; [lia|]. split; [lia|]. split; [|done].
        intros k u Hk Hu. destruct (decide (k = j)) as [->|].
        -- congruence.
        -- apply (H3 k); [lia|done].
      * apply Z.eqb_neq in Es. apply lookup_lt_Some in Ej as Hlt.
        split; [lia|]. split; [lia|]. split; [intros; lia|]. congruence.
    + split; [lia|]. split; [lia|]. split; [intros; lia|]. congruence.
Qed.

(** An invariant of the merging loop holds at its end when the body keeps it
    over every maximal stretch of one status. *)
Lemma mergeLoop_inv {A} (Inv : nat -> A -> Prop) seq status
    (body : Z -> Z -> Z -> A -> A) :
  (forall i j t acc, seq !! i = Some t -> (i < j <= length seq)%nat ->
     (forall k u, (i <= k < j)%nat -> seq !! k = Some u ->
        statusAt status u = statusAt status t) ->
     (forall u, seq !! j = Some u -> statusAt status u <> statusAt status t) ->
     Inv i acc ->
     Inv j (body t (statusAt status t)
              (default 0 (seq !! (j - 1)%nat) + binWidth) acc)) ->
  forall fuel i acc, (length seq - i <= fuel)%nat -> (i <= length seq)%nat ->
  Inv i acc -> Inv (length seq) (mergeLoop fuel seq status body i acc).
Proof.
  intros Hstep. induction fuel as [|f IH]; intros i acc Hf Hi Hinv.
  - simpl. by replace (length seq) with i by lia.
  - cbn [mergeLoop]. destruct (seq !! i) as [t|] eqn:Ei.
    + cbv zeta. apply lookup_lt_Some in Ei as Hlt.
      destruct (sameStatusEnd_spec seq status (statusAt status t) (length seq) i
                  ltac:(lia)) as (H1 & H2 & H3 & H4).
      set (j := sameStatusEnd (length seq) seq status (statusAt status t) i) in *.
      assert (i < j)%nat.
      { destruct (decide (i = j)) as [E|]; [|lia].
        exfalso. apply (H4 t); [by rewrite <- E|done]. }
      apply IH; [lia|lia|]. apply (Hstep i j t acc); try done. lia.
    + apply lookup_ge_None in Ei. by replace (length seq) with i by lia.
Qed.


Lemma bucketGrid_lookup_Some first lim (k : nat) :
  (k < length (bucketGrid first lim))%nat ->
  bucketGrid first lim !! k = Some (first + binWidth * Z.of_nat k).
Proof.
  intros Hk. destruct (bucketGrid first lim !! k) as [t|] eqn:E.
  - by apply bucketGrid_lookup in E as ->.
  - apply lookup_ge_None in E. lia.
Qed.

Lemma findRange_spec ranges : forall idx t,
  (findRange ranges idx t = (EmptyString, EmptyString, -1)
   /\ Forall (fun r => ~ holds r t) ranges)
  \/ exists l1 r l2,
       ranges = l1 ++ r :: l2 /\ Forall (fun r => ~ holds r t) l1 /\ holds r t
       /\ findRange ranges idx t = (Tag r, Note r, idx + Z.of_nat (length l1)).
Proof.
  induction ranges as [|r rs IH]; intros idx t.
  - left. by split.
  - cbn [findRange].
    destruct (negb (t <? Start r) && (t <? End_ r)) eqn:E.
    + right. exists [], r, rs. simpl. repeat split; try done; try (unfold holds; lia).
      f_equal. lia.
    + destruct (IH (idx + 1) t) as [(H1 & H2)|(l1 & r' & l2 & -> & H1 & H2 & H3)].
      * left. split; [done|]. constructor; [unfold holds; lia|done].
      * right. exists (r :: l1), r', l2. split; [done|].
        split; [constructor; [unfold holds; lia|done]|]. split; [done|].
        rewrite H3. f_equal. simpl length. lia.
Qed.

Lemma head_snoc {A} (l : list A) x :
  head (l ++ [x]) = match head l with Some y => Some y | None => Some x end.
Proof. by destruct l. Qed.

Lemma chained_snoc bs nb :
  chained bs ->
  (forall b, last bs = Some b ->
     blockEnd b = blockStart nb /\ blockStatus b <> blockStatus nb) ->
  chained (bs ++ [nb]).
Proof.
  intros Hc Hl k b b' Hb Hb'.
  destruct (decide (S k < length bs)%nat) as [Hk|Hk].
  - rewrite lookup_app_l in Hb, Hb' by lia. by apply (Hc k).
  - apply lookup_lt_Some in Hb' as Hlt. rewrite length_app in Hlt. simpl in Hlt.
    assert (S k = length bs) as Ek by lia.
    rewrite lookup_app_l in Hb by lia.
    rewrite lookup_app_r, Ek, Nat.sub_diag in Hb' by lia. injection Hb' as <-.
    apply Hl. rewrite last_lookup. by replace (Nat.pred (length bs)) with k by lia.
Qed.

Lemma buildTimelineBlocks_inv loc s now :
  let first := floorToBin loc (startOfDay loc now) in
  let lim := floorToBin loc now in
  let seq := buildSeq loc (startOfDay loc now) now in
  let status := statusMap seq (fetchBins loc s (startOfDay loc now) now) in
  let bs := buildTimelineBlocks loc s now in
  (seq = [] -> bs = [])
  /\ (seq <> [] ->
        exists b b', head bs = Some b /\ blockStart b = first
                     /\ last bs = Some b'
                     /\ blockEnd b' = first + binWidth * Z.of_nat (length seq))
  /\ chained bs
  /\ Forall (blockOK loc (Ranges s) seq status) bs.
Proof.
  intros first lim seq status bs.
  assert (Hgrid : forall k, (k < length seq)%nat ->
            seq !! k = Some (first + binWidth * Z.of_nat k)).
  { intros k Hk. unfold seq in *. rewrite buildSeq_grid in *.
    by apply bucketGrid_lookup_Some. }
  assert (Hfirst : bucketStart loc first) by apply floorToBin_bucketStart.
  set (Inv := fun (i : nat) (acc : list TimelineBlock) =>
    (i = 0%nat -> acc = [])
    /\ ((0 < i)%nat ->
          exists b b', head acc = Some b /\ blockStart b = first
                       /\ last acc = Some b'
                       /\ blockEnd b' = first + binWidth * Z.of_nat i
                       /\ forall u, seq !! i = Some u ->
                            statusAt status u <> blockStatus b')
    /\ chained acc
    /\ Forall (blockOK loc (Ranges s) seq status) acc).
  assert (Hend : Inv (length seq) bs).
  { unfold bs, buildTimelineBlocks. cbv zeta. fold seq. fold status.
    apply (mergeLoop_inv Inv); [|lia|lia|].
    - intros i j t acc Hi Hij Hseg Hmax (I0 & I1 & I2 & I3).
      rewrite (Hgrid (j - 1)%nat) by lia. cbn [default from_option]. unfold id.
      assert (Et : t = first + binWidth * Z.of_nat i).
      { rewrite Hgrid in Hi by lia. by injection Hi as <-. }
      replace (first + binWidth * Z.of_nat (j - 1) + binWidth)
        with (first + binWidth * Z.of_nat j) by (unfold binWidth, binMinutes; lia).
      set (nb := blockOf (Ranges s) t (statusAt status t)
                   (first + binWidth * Z.of_nat j)).
      assert (Hlast : forall b, last acc = Some b ->
                blockEnd b = blockStart nb
                /\ blockStatus b <> blockStatus nb).
      { intros b Hb. destruct (decide (i = 0%nat)) as [E0|E0].
        - rewrite (I0 E0) in Hb. done.
        - destruct (I1 ltac:(lia)) as (b0 & b' & _ & _ & Hl & He & Hne).
          rewrite Hl in Hb. injection Hb as <-. cbn. split; [unfold binWidth, binMinutes in *; lia|].
          intros E. apply (Hne t Hi). done. }
      split; [lia|]. split; [|split].
      + intros _. exists (match head acc with Some y => y | None => nb end), nb.
        rewrite head_snoc, last_snoc. split; [by destruct (head acc)|].
        split; [|split; [done|split; [done|]]].
        * destruct (decide (i = 0%nat)) as [E0|E0].
          -- rewrite (I0 E0). cbn. subst i. unfold binWidth, binMinutes in *. lia.
          -- destruct (I1 ltac:(lia)) as (b0 & b' & -> & Hb0 & _). done.
        * intros u Hu. cbn. by apply Hmax.
      + by apply chained_snoc.
      + apply Forall_app. split; [done|]. apply Forall_singleton.
        split; [done|]. cbn [blockStart blockEnd blockStatus blockDuration nb blockOf].
        split; [unfold binWidth, binMinutes in *; lia|].
        split; [unfold bucketStart in *; zmod|].
        split; [unfold bucketStart in *; zmod|].
        split.
        * unfold minutesBetween.
          apply Z.quot_div_nonneg; unfold binWidth, binMinutes in *; lia.
        * intros u Hu Hr. apply list_elem_of_lookup in Hu as [k Hk].
          apply lookup_lt_Some in Hk as Hlt. pose proof Hk as Hk'.
          rewrite Hgrid in Hk' by done. injection Hk' as Eu.
          apply (Hseg k u); [|done]. unfold binWidth, binMinutes in *. lia.
    - unfold Inv. split; [done|]. split; [lia|]. split.
      + intros k b b' Hb. done.
      + constructor. }
  destruct Hend as (I0 & I1 & I2 & I3).
  split; [|split; [|done]].
  - intros E. apply I0. by rewrite E.
  - intros Hne. destruct (I1 ltac:(destruct seq; [done|simpl; lia]))
      as (b & b' & H1 & H2 & H3 & H4 & _).
    by exists b, b'.
Qed.

Lemma buildSeq_end loc start end_ :
  buildSeq loc start end_ <> [] ->
  floorToBin loc start
  + binWidth * Z.of_nat (length (buildSeq loc start end_))
  = floorToBin loc end_.
Proof.
  rewrite buildSeq_grid. intros Hne.
  pose proof (bucketGrid_length (floorToBin loc start) (floorToBin loc end_)) as Hl.
  pose proof (floorToBin_bucketStart loc start) as H1.
  pose proof (floorToBin_bucketStart loc end_) as H2.
  destruct (decide (floorToBin loc end_ <= floorToBin loc start)) as [Hle|Hlt].
  - by rewrite bucketGrid_nil in Hne.
  - unfold bucketStart in *. zmod.
Qed.

Lemma buildSeq_nil loc start end_ :
  buildSeq loc start end_ = [] <-> floorToBin loc end_ <= floorToBin loc start.
Proof.
  rewrite buildSeq_grid. split.
  - intros E. destruct (decide (floorToBin loc end_ <= floorToBin loc start));
      [done|]. rewrite bucketGrid_cons in E by lia. done.
  - apply bucketGrid_nil.
Qed.

(** X22.  The timeline blocks tile the day.  The blocks that
    [buildTimelineBlocks] makes start at the first bucket of the day and end
    at the start of the current bucket; each block ends where the next one
    starts, and the next one has another status, so the blocks are maximal;
    each block starts and ends on bucket starts, lasts its length in
    minutes, gives its status to every bucket inside it, and carries the tag,
    note and index of the first stored range that holds its start. *)
Theorem buildTimelineBlocks_tiles (loc : Z) (s : Store) (now : Z) :
  let first := floorToBin loc (startOfDay loc now) in
  let lim := floorToBin loc now in
  let seq := buildSeq loc (startOfDay loc now) now in
  let status := statusMap seq (fetchBins loc s (startOfDay loc now) now) in
  let bs := buildTimelineBlocks loc s now in
  (lim <= first -> bs = [])
  /\ (first < lim ->
        exists b b', head bs = Some b /\ blockStart b = first
                     /\ last bs = Some b' /\ blockEnd b' = lim)
  /\ chained bs
  /\ Forall (blockOK loc (Ranges s) seq status) bs
  /\ (forall b, b ∈ bs ->
        (rangeIdx b = -1 /\ blockTag b = EmptyString
         /\ Forall (fun r => ~ holds r (blockStart b)) (Ranges s))
        \/ exists l1 r l2,
             Ranges s = l1 ++ r :: l2 /\ rangeIdx b = Z.of_nat (length l1)
             /\ Forall (fun r => ~ holds r (blockStart b)) l1
             /\ holds r (blockStart b)
             /\ blockTag b = Tag r /\ blockNote b = Note r).
Proof.
  intros first lim seq status bs.
  destruct (buildTimelineBlocks_inv loc s now) as (H0 & H1 & H2 & H3).
  fold seq in H0, H1, H3. fold status in H3. fold bs in H0, H1, H2, H3.
  fold first in H1.
  split; [|split; [|split; [done|split; [done|]]]].
  - intros Hle. apply H0. by apply buildSeq_nil.
  - intros Hlt.
    assert (Hne : seq <> []).
    { intros E. apply buildSeq_nil in E. fold lim first in E. lia. }
    destruct (H1 Hne) as (b & b' & Hb & Hs & Hb' & He).
    exists b, b'. repeat split; try done. rewrite He. by apply buildSeq_end.
  - intros b Hb. rewrite Forall_forall in H3.
    destruct (H3 b Hb) as (Eb & _).
    pose proof (f_equal rangeIdx Eb) as Ei.
    pose proof (f_equal blockTag Eb) as Etag.
    pose proof (f_equal blockNote Eb) as En.
    unfold blockOf in Ei, Etag, En. cbn [rangeIdx blockTag blockNote] in Ei, Etag, En.
    destruct (findRange_spec (Ranges s) 0 (blockStart b))
      as [(Hf & Hall)|(l1 & r & l2 & El & Hall & Hr & Hf)];
      rewrite Hf in Ei, Etag, En; cbn [fst snd] in Ei, Etag, En.
    + left. done.
    + right. exists l1, r, l2. repeat split; try done; try apply Hr; lia.
Qed.




(** ** Tagging a block *)






Lemma saveTag_fields s b tag :
  Bins (saveTag s b tag) = Bins s /\ Conf (saveTag s b tag) = Conf s
  /\ Tags (saveTag s b tag) = Tags s.
Proof. unfold saveTag. by destruct (_ && _), s. Qed.







(** ** The minutes of a day *)

Lemma fetchBins_bucketStart loc s start end_ t v :
  alignedBins loc s ->
  fetchBins loc s start end_ !! t = Some v -> bucketStart loc t.
Proof.
  intros Hal. rewrite fetchBins_lookup.
  destruct (lastAssigning loc start end_ (Ranges s) t) as [r|] eqn:E.
  - intros _. apply lastAssigning_Some in E as (l1 & l2 & _ & Hr & _).
    destruct Hr as (_ & _ & _ & _ & Hg).
    pose proof (floorToBin_bucketStart loc (Start r)) as Hb.
    unfold bucketStart in *. zmod.
  - intros Hraw. apply fetchBins_raw_Some in Hraw as (k & Hk & Hp & _).
    specialize (Hal k v Hk). cbv beta in Hal. rewrite Hp in Hal.
    rewrite <- Hal. apply floorToBin_bucketStart.
Qed.

Lemma map_size_bound (m : gmap Z Z) (l : list Z) :
  (forall t v, m !! t = Some v -> t ∈ l) -> (size m <= length l)%nat.
Proof.
  intros H. rewrite <- length_map_to_list.
  rewrite <- (length_fmap fst (map_to_list m)).
  apply submseteq_length, NoDup_submseteq; [apply NoDup_fst_map_to_list|].
  intros t Ht. apply list_elem_of_fmap in Ht as ([t' v] & -> & Hin).
  apply elem_of_map_to_list in Hin. by eapply H.
Qed.

Lemma workMinutes_bound loc s start n :
  alignedBins loc s -> 0 <= n <= 288 ->
  0 <= workMinutes (fetchBins loc s start (start + binWidth * n)) <= binMinutes * n.
Proof.
  intros Hal Hn. rewrite workMinutes_count.
  set (m := fetchBins loc s start (start + binWidth * n)).
  assert (Hsz : Z.of_nat (size m) <= n).
  { destruct (decide (n = 0)) as [->|Hn0].
    { unfold m. rewrite fetchBins_empty_window by lia. by rewrite map_size_empty. }
    set (first := start + (- (start + loc)) mod binWidth).
    pose proof (map_size_bound m (bucketGrid first (first + binWidth * n))) as Hb.
    pose proof (bucketGrid_length first (first + binWidth * n)) as Hlen.
    assert (Hg : Z.of_nat (length (bucketGrid first (first + binWidth * n))) = n)
      by (rewrite Hlen; zmod).
    rewrite <- Hg. apply inj_le, Hb. intros t v Htv.
    apply fetchBins_in_window in Htv as Hw.
    apply (fetchBins_bucketStart loc s _ _ t v Hal) in Htv.
    apply elem_of_bucketGrid. unfold first, bucketStart in *. zmod. }
  pose proof (map_size_filter (fun tv : Z * Z => tv.2 = working) m) as Hf.
  unfold workingCount. rewrite wrap64_id.
  - unfold binMinutes. lia.
  - unfold GoInt.in_int64, GoInt.min_int64, GoInt.max_int64, binMinutes. lia.
Qed.

Lemma dayMinutes_bound loc s d :
  alignedBins loc s -> 0 <= dayMinutes loc s d <= 1440.
Proof.
  intros Hal. unfold dayMinutes. cbv zeta.
  pose proof (workMinutes_bound loc s (startOfDay loc d) 288 Hal ltac:(lia)) as H.
  by change (startOfDay loc d + binWidth * 288) with (startOfDay loc d + 86400) in H.
Qed.

(** ** Best and worst day *)

Lemma bestWorst_fold (l : list (Z * Z)) :
  Forall (fun dm : Z * Z => 0 <= dm.2 < 9999) l ->
  let r := foldl (fun acc (dm : Z * Z) => bestWorstDay acc dm.1 dm.2)
             (mkBestWorst None (-1) None 9999) l in
  (Forall (fun dm : Z * Z => dm.2 = 0) l /\ r = mkBestWorst None (-1) None 9999)
  \/ exists p1 db mb p2 q1 dw mw q2,
       l = p1 ++ (db, mb) :: p2
       /\ Forall (fun dm : Z * Z => dm.2 < mb) p1
       /\ Forall (fun dm : Z * Z => dm.2 <= mb) p2
       /\ l = q1 ++ (dw, mw) :: q2
       /\ Forall (fun dm : Z * Z => dm.2 = 0 \/ mw < dm.2) q1
       /\ Forall (fun dm : Z * Z => dm.2 = 0 \/ mw <= dm.2) q2
       /\ 0 < mw /\ mw <= mb
       /\ r = mkBestWorst (Some db) mb (Some dw) mw.
Proof.
  induction l as [|[d m] l IH] using rev_ind; intros Hall r.
  - left. by split.
  - apply Forall_app in Hall as [Hall Hm]. rewrite Forall_singleton in Hm.
    cbn [snd] in Hm. unfold r. rewrite foldl_app. cbn [foldl fst snd].
    destruct (IH Hall) as [[Hz ->]|(p1 & db & mb & p2 & q1 & dw & mw & q2 & E1 & Hp1
                                     & Hp2 & E2 & Hq1 & Hq2 & Hmw & Hmb & ->)];
      clear IH; unfold bestWorstDay.
    + destruct (m =? 0) eqn:E0.
      * apply Z.eqb_eq in E0. left. split; [|done].
        apply Forall_app. split; [done|]. by apply Forall_singleton.
      * apply Z.eqb_neq in E0. right. cbn [bestMins worstMins bestDay worstDay].
        assert (H1 : (-1 <? m) = true) by (apply Z.ltb_lt; lia).
        rewrite H1. cbn [worstMins bestMins bestDay].
        assert (H2 : (m <? 9999) = true) by (apply Z.ltb_lt; lia).
        rewrite H2.
        exists l, d, m, [], l, d, m, []. repeat split; try done; try lia.
        -- eapply Forall_impl; [exact Hz|]. intros [d' m'] Hd. cbn in *. lia.
        -- eapply Forall_impl; [exact Hz|]. intros [d' m'] Hd. cbn in *. lia.
    + right. destruct (m =? 0) eqn:E0.
      * apply Z.eqb_eq in E0. subst m.
        exists p1, db, mb, (p2 ++ [(d, 0)]), q1, dw, mw, (q2 ++ [(d, 0)]).
        repeat split; try done;
          try (rewrite E1, <- app_assoc; done);
          try (rewrite E2, <- app_assoc; done);
          apply Forall_app; (split; [done|]); apply Forall_singleton; cbn; lia.
      * apply Z.eqb_neq in E0. cbn [bestMins].
        assert (Hlb : Forall (fun dm : Z * Z => dm.2 <= mb) l).
        { rewrite E1. apply Forall_app. split.
          - eapply Forall_impl; [exact Hp1|]. intros [d' m'] Hd. cbn in *. lia.
          - constructor; [cbn; lia|done]. }
        assert (Hlw : Forall (fun dm : Z * Z => dm.2 = 0 \/ mw <= dm.2) l).
        { rewrite E2. apply Forall_app. split.
          - eapply Forall_impl; [exact Hq1|]. intros [d' m'] Hd. cbn in *. lia.
          - constructor; [cbn; lia|done]. }
        destruct (mb <? m) eqn:Eb; cbn [worstMins bestMins bestDay worstDay];
          destruct (m <? mw) eqn:Ew;
          [apply Z.ltb_lt in Eb, Ew | apply Z.ltb_lt in Eb; apply Z.ltb_ge in Ew
          | apply Z.ltb_ge in Eb; apply Z.ltb_lt in Ew
          | apply Z.ltb_ge in Eb, Ew].
        -- lia.
        -- exists l, d, m, [], q1, dw, mw, (q2 ++ [(d, m)]).
           repeat split; try done; try lia;
             try (rewrite E2, <- app_assoc; done).
           ++ eapply Forall_impl; [exact Hlb|]. intros [d' m'] Hd. cbn in *. lia.
           ++ apply Forall_app. split; [done|]. apply Forall_singleton. cbn. lia.
        -- exists p1, db, mb, (p2 ++ [(d, m)]), l, d, m, [].
           repeat split; try done; try lia;
             try (rewrite E1, <- app_assoc; done).
           ++ apply Forall_app. split; [done|]. apply Forall_singleton. cbn. lia.
           ++ eapply Forall_impl; [exact Hlw|]. intros [d' m'] Hd. cbn in *. lia.
        -- exists p1, db, mb, (p2 ++ [(d, m)]), q1, dw, mw, (q2 ++ [(d, m)]).
           repeat split; try done;
             try (rewrite E1, <- app_assoc; done);
             try (rewrite E2, <- app_assoc; done);
             apply Forall_app; (split; [done|]); apply Forall_singleton; cbn; lia.
Qed.

(** X25.  The best and the worst of the last thirty days.  On a store whose
    samples sit on bucket starts, [findBestWorstDays] returns its two
    sentinels, best -1 and worst 9999 with no day, when no day had working
    time.  Otherwise the best day is the earliest day with the largest
    working time and the worst day is the earliest day with the smallest
    working time that is not zero; both are between 5 and 1440 minutes. *)
Theorem findBestWorstDays_spec (loc : Z) (s : Store) (now : Z) :
  alignedBins loc s ->
  let days := lastThirtyDays loc s now in
  let r := findBestWorstDays loc s now in
  (Forall (fun dm : Z * Z => dm.2 = 0) days /\ r = mkBestWorst None (-1) None 9999)
  \/ exists p1 db mb p2 q1 dw mw q2,
       days = p1 ++ (db, mb) :: p2
       /\ Forall (fun dm : Z * Z => dm.2 < mb) p1
       /\ Forall (fun dm : Z * Z => dm.2 <= mb) p2
       /\ days = q1 ++ (dw, mw) :: q2
       /\ Forall (fun dm : Z * Z => dm.2 = 0 \/ mw < dm.2) q1
       /\ Forall (fun dm : Z * Z => dm.2 = 0 \/ mw <= dm.2) q2
       /\ 0 < mw <= mb /\ mb <= 1440
       /\ r = mkBestWorst (Some db) mb (Some dw) mw.
Proof.
  intros Hal days r.
  assert (Er : r = foldl (fun acc (dm : Z * Z) => bestWorstDay acc dm.1 dm.2)
                     (mkBestWorst None (-1) None 9999) days).
  { unfold r, findBestWorstDays, days, lastThirtyDays. by rewrite foldl_fmap. }
  assert (Hb : Forall (fun dm : Z * Z => 0 <= dm.2 <= 1440) days).
  { unfold days, lastThirtyDays. apply Forall_fmap, Forall_forall. intros i _.
    cbn. by apply dayMinutes_bound. }
  destruct (bestWorst_fold days) as [H|H].
  - eapply Forall_impl; [exact Hb|]. intros [d m] Hd. cbn in *. lia.
  - left. by rewrite Er.
  - right. destruct H as (p1 & db & mb & p2 & q1 & dw & mw & q2 & E1 & Hp1 & Hp2
                          & E2 & Hq1 & Hq2 & Hmw & Hmb & Hr).
    exists p1, db, mb, p2, q1, dw, mw, q2. rewrite Er.
    repeat split; try done.
    rewrite Forall_forall in Hb.
    assert (Hin : (db, mb) ∈ days).
    { rewrite E1. apply elem_of_app. right. apply elem_of_cons. by left. }
    specialize (Hb _ Hin). cbn in Hb. lia.
Qed.

Lemma findBestWorstDays_spec_witness :
  let days := lastThirtyDays 0 (sampledStore 1700000100 3) 1700001000 in
  let r := findBestWorstDays 0 (sampledStore 1700000100 3) 1700001000 in
  (Forall (fun dm : Z * Z => dm.2 = 0) days /\ r = mkBestWorst None (-1) None 9999)
  \/ exists p1 db mb p2 q1 dw mw q2,
       days = p1 ++ (db, mb) :: p2
       /\ Forall (fun dm : Z * Z => dm.2 < mb) p1
       /\ Forall (fun dm : Z * Z => dm.2 <= mb) p2
       /\ days = q1 ++ (dw, mw) :: q2
       /\ Forall (fun dm : Z * Z => dm.2 = 0 \/ mw < dm.2) q1
       /\ Forall (fun dm : Z * Z => dm.2 = 0 \/ mw <= dm.2) q2
       /\ 0 < mw <= mb /\ mb <= 1440
       /\ r = mkBestWorst (Some db) mb (Some dw) mw.
Proof.
  apply (findBestWorstDays_spec 0 (sampledStore 1700000100 3) 1700001000).
  apply (bool_decide_unpack _). vm_compute. exact I.
Defined.

(** ** Progress bars *)

Lemma in_int64_small z : - 2 ^ 62 <= z <= 2 ^ 62 -> GoInt.in_int64 z.
Proof. unfold GoInt.in_int64, GoInt.min_int64, GoInt.max_int64. lia. Qed.

Lemma createProgressBar_filled pct width :
  0 <= pct <= 2 ^ 30 -> - 2 ^ 30 <= width <= 2 ^ 30 ->
  GoInt.div (GoInt.mul (if 100 <? pct then 100 else pct) width) 100
  = Z.quot (Z.min pct 100 * width) 100
  /\ GoInt.wrap64 (width - Z.quot (Z.min pct 100 * width) 100)
     = width - Z.quot (Z.min pct 100 * width) 100.
Proof.
  intros Hp Hw.
  assert (Ep : (if 100 <? pct then 100 else pct) = Z.min pct 100).
  { destruct (100 <? pct) eqn:E; lia. }
  rewrite Ep. assert (Hm : 0 <= Z.min pct 100 <= 100) by lia.
  assert (Hprod : - 2 ^ 37 <= Z.min pct 100 * width <= 2 ^ 37) by nia.
  unfold GoInt.div, GoInt.mul.
  rewrite (wrap64_id (Z.min pct 100 * width)) by (apply in_int64_small; lia).
  pose proof (Z.quot_rem' (Z.min pct 100 * width) 100) as Hq.
  pose proof (Z.rem_bound_abs (Z.min pct 100 * width) 100 ltac:(lia)) as Hr.
  split; apply wrap64_id, in_int64_small; lia.
Qed.

(** X26.  A progress bar has the width it is asked for, or panics.  For a
    percentage that is not negative, [createProgressBar] with a width that
    is not negative returns exactly [width] characters: one full block for
    each whole hundredth of percentage times width, the percentage capped
    at 100, and light shade after them.  With a negative width
    [strings.Repeat] panics.  [View] asks for the width of its week, month
    and year bars without a lower bound, and that width is negative for
    every terminal narrower than 51 columns. *)
Theorem createProgressBar_spec (pct width : Z) :
  0 <= pct <= 2 ^ 30 -> - 2 ^ 30 <= width <= 2 ^ 30 ->
  (0 <= width ->
     exists filled : Z,
       filled = (Z.min pct 100 * width) / 100 /\ 0 <= filled <= width
       /\ (100 <= pct -> filled = width)
       /\ createProgressBar pct width
          = Some (replicate (Z.to_nat filled) Filled
                  ++ replicate (Z.to_nat (width - filled)) Shade)
       /\ forall bar, createProgressBar pct width = Some bar ->
            Z.of_nat (length bar) = width)
  /\ (width < 0 -> createProgressBar pct width = None)
  /\ (forall termWidth, 0 < termWidth < 51 ->
        periodBarWidth termWidth < 0
        /\ createProgressBar pct (periodBarWidth termWidth) = None).
Proof.
  intros Hp Hw.
  assert (Hneg : forall w, - 2 ^ 30 <= w < 0 -> createProgressBar pct w = None).
  { intros w Hw'. unfold createProgressBar. cbv zeta.
    destruct (createProgressBar_filled pct w Hp ltac:(lia)) as [-> ->].
    assert (Hq : w <= Z.quot (Z.min pct 100 * w) 100 <= 0).
    { pose proof (Z.quot_rem' (Z.min pct 100 * w) 100) as Hq.
      pose proof (Z.rem_bound_neg_neg (Z.min pct 100 * w) 100) as Hr1.
      pose proof (Z.rem_bound_abs (Z.min pct 100 * w) 100 ltac:(lia)) as Hr.
      nia. }
    unfold Repeat.
    destruct (Z.quot (Z.min pct 100 * w) 100 <? 0) eqn:E1; [done|].
    apply Z.ltb_ge in E1.
    assert (E2 : (w - Z.quot (Z.min pct 100 * w) 100 <? 0) = true)
      by (apply Z.ltb_lt; lia).
    by rewrite E2. }
  split; [|split].
  - intros Hw0. exists ((Z.min pct 100 * width) / 100).
    assert (Hf : 0 <= (Z.min pct 100 * width) / 100 <= width).
    { split; [apply Z.div_pos; nia|].
      apply Z.div_le_upper_bound; nia. }
    assert (Hc : createProgressBar pct width
                 = Some (replicate (Z.to_nat ((Z.min pct 100 * width) / 100)) Filled
                         ++ replicate
                              (Z.to_nat (width - (Z.min pct 100 * width) / 100))
                              Shade)).
    { unfold createProgressBar. cbv zeta.
      destruct (createProgressBar_filled pct width Hp Hw) as [-> ->].
      rewrite Z.quot_div_nonneg by nia. unfold Repeat.
      assert (E1 : ((Z.min pct 100 * width) / 100 <? 0) = false)
        by (apply Z.ltb_ge; lia).
      assert (E2 : (width - (Z.min pct 100 * width) / 100 <? 0) = false)
        by (apply Z.ltb_ge; lia).
      by rewrite E1, E2. }
    split; [done|]. split; [done|]. split; [|split; [done|]].
    + intros H100. replace (Z.min pct 100) with 100 by lia.
      rewrite Z.mul_comm. apply Z.div_mul. lia.
    + intros bar Hbar. rewrite Hc in Hbar. injection Hbar as <-.
      rewrite length_app, !length_replicate. lia.
  - intros Hw0. apply Hneg. lia.
  - intros tw Htw.
    assert (Ew : periodBarWidth tw = Z.quot tw 3 - 17).
    { unfold periodBarWidth, GoInt.div.
      pose proof (Z.quot_rem' tw 3) as Hq.
      pose proof (Z.rem_bound_abs tw 3 ltac:(lia)) as Hr.
      rewrite (wrap64_id (Z.quot tw 3)) by (apply in_int64_small; lia).
      rewrite (wrap64_id (Z.quot tw 3 - 2)) by (apply in_int64_small; lia).
      rewrite wrap64_id by (apply in_int64_small; lia). lia. }
    assert (Hq : 0 <= Z.quot tw 3 <= 16).
    { rewrite Z.quot_div_nonneg by lia. Z.div_mod_to_equations. lia. }
    rewrite Ew. split; [lia|]. apply Hneg. lia.
Qed.

Lemma createProgressBar_spec_witness :
  (0 <= 40 ->
     exists filled : Z,
       filled = (Z.min 75 100 * 40) / 100 /\ 0 <= filled <= 40
       /\ (100 <= 75 -> filled = 40)
       /\ createProgressBar 75 40
          = Some (replicate (Z.to_nat filled) Filled
                  ++ replicate (Z.to_nat (40 - filled)) Shade)
       /\ forall bar, createProgressBar 75 40 = Some bar ->
            Z.of_nat (length bar) = 40)
  /\ (40 < 0 -> createProgressBar 75 40 = None)
  /\ (forall termWidth, 0 < termWidth < 51 ->
        periodBarWidth termWidth < 0
        /\ createProgressBar 75 (periodBarWidth termWidth) = None).
Proof.
  apply (createProgressBar_spec 75 40); lia.
Defined.

(** ** The marks of a day *)







(** ** The dashboard *)

Lemma index_Some {A} (l : list A) i :
  0 <= i < len l -> exists x, index l i = Some x /\ l !! Z.to_nat i = Some x.
Proof.
  intros Hi. unfold index, len in *.
  assert (E : (i <? 0) = false) by (apply Z.ltb_ge; lia). rewrite E.
  destruct (lookup_lt_is_Some_2 l (Z.to_nat i) ltac:(lia)) as [x Hx].
  by exists x.
Qed.

Lemma handleTagDialog_safe loc now file m key :
  cursorsOK m ->
  exists m' file',
    handleTagDialog loc now file m key = Some (m', file')
    /\ cursorsOK m'
    /\ (file' <> file -> key = "enter"%string /\ showTagDialog m' = false
                        /\ showingTagSuggestions m = false
                        /\ selectedTimeline m < len (timelineBlocks m))
    /\ selectedTimeline m' = selectedTimeline m.
Proof.
  intros (H1 & H2 & H3). unfold handleTagDialog.
  destruct (String.eqb key "esc") eqn:Eesc.
  { eexists _, _. split; [done|]. by repeat split. }
  destruct (String.eqb key "enter") eqn:Eenter.
  { apply String.eqb_eq in Eenter as ->.
    destruct (showingTagSuggestions m) eqn:Es.
    - assert (Hlt : (selectedTag m <? len (availableTags m)) = true)
        by (apply Z.ltb_lt; auto).
      rewrite Hlt. cbn [andb].
      destruct (index_Some (availableTags m) (selectedTag m)) as (tag & -> & _);
        [split; [done|auto]|].
      eexists _, _. split; [done|]. by repeat split.
    - cbn [andb].
      destruct (selectedTimeline m <? len (timelineBlocks m)) eqn:El.
      + apply Z.ltb_lt in El.
        destruct (index_Some (timelineBlocks m) (selectedTimeline m))
          as (block & -> & _); [done|].
        eexists _, _. split; [done|]. by repeat split.
      + eexists _, _. split; [done|]. by repeat split. }
  destruct (String.eqb key "up") eqn:Eup.
  { destruct (showingTagSuggestions m && (0 <? selectedTag m)) eqn:E.
    - apply andb_prop in E as [Es E]. apply Z.ltb_lt in E.
      eexists _, _. split; [done|]. repeat split; try done; cbn; try lia.
      intros _. specialize (H3 Es). lia.
    - eexists _, _. split; [done|]. by repeat split. }
  destruct (String.eqb key "down") eqn:Edown.
  { destruct (showingTagSuggestions m
              && (selectedTag m <? len (availableTags m) - 1)) eqn:E.
    - apply andb_prop in E as [Es E]. apply Z.ltb_lt in E.
      eexists _, _. split; [done|]. repeat split; try done; cbn; lia.
    - eexists _, _. split; [done|]. by repeat split. }
  destruct (String.eqb key "tab") eqn:Etab.
  { destruct (0 <? len (availableTags m)) eqn:E.
    - apply Z.ltb_lt in E. cbn [showingTagSuggestions setShowingTagSuggestions].
      destruct (showingTagSuggestions m) eqn:Es; cbn [negb].
      + eexists _, _. split; [done|]. by repeat split.
      + eexists _, _. split; [done|]. repeat split; try done; cbn; lia.
    - eexists _, _. split; [done|]. by repeat split. }
  destruct (String.eqb key "backspace") eqn:Eback.
  { destruct (0 <? String.length (tagInput m))%nat;
      (eexists _, _; split; [done|]; by repeat split). }
  destruct (String.length key =? 1)%nat;
    (eexists _, _; split; [done|]; by repeat split).
Qed.

(** X28.  The handlers of the dashboard never index out of range and keep
    their cursors valid.  From a model whose cursors are not negative and
    whose tag cursor is on a suggestion while suggestions are shown, [Update]
    returns a model of which the same holds, for every message.  It quits
    only on q, esc or ctrl+c outside the tag dialog; it writes the document
    only on enter inside the dialog, which closes the dialog; and outside
    the dialog a key leaves store and blocks alone and keeps a timeline
    cursor that is on a block on a block. *)
Theorem Update_safe (loc now : Z) (file : File) (m : dashboardModel) (msg : Msg) :
  cursorsOK m ->
  exists m' file' cmd,
    Update loc now file m msg = Some (m', file', cmd)
    /\ cursorsOK m'
    /\ (cmd = CmdQuit ->
          showTagDialog m = false
          /\ (msg = KeyMsg "q" \/ msg = KeyMsg "esc" \/ msg = KeyMsg "ctrl+c"))
    /\ (file' <> file ->
          showTagDialog m = true /\ msg = KeyMsg "enter"
          /\ showTagDialog m' = false)
    /\ (forall key, msg = KeyMsg key -> showTagDialog m = false ->
          mStore m' = mStore m /\ timelineBlocks m' = timelineBlocks m
          /\ (selectedTimeline m < len (timelineBlocks m) ->
                selectedTimeline m' < len (timelineBlocks m'))).
Proof.
  intros Hok. pose proof Hok as (H1 & H2 & H3).
  destruct msg as [key|w h| |]; cbn [Update].
  - destruct (showTagDialog m) eqn:Ed.
    + destruct (handleTagDialog_safe loc now file m key Hok)
        as (m' & file' & -> & Hok' & Hfile & _).
      exists m', file', CmdNil. split; [done|]. split; [done|].
      split; [done|]. split; [|done].
      intros Hne. destruct (Hfile Hne) as (-> & Hd & _). done.
    + destruct (String.eqb key "q" || String.eqb key "esc"
                || String.eqb key "ctrl+c") eqn:Eq.
      { exists m, file, CmdQuit. split; [done|]. split; [done|]. split.
        - intros _. split; [done|].
          apply orb_prop in Eq as [Eq|Eq]; [apply orb_prop in Eq as [Eq|Eq]|];
            apply String.eqb_eq in Eq as ->; auto.
        - split; [done|]. by intros k _ _. }
      destruct (String.eqb key "up" || String.eqb key "k").
      { destruct (0 <? selectedTimeline m) eqn:E.
        - apply Z.ltb_lt in E. eexists _, _, _. split; [done|].
          split; [repeat split; try done; cbn; lia|].
          split; [done|]. split; [done|]. intros k _ _. cbn. repeat split. lia.
        - eexists _, _, _. split; [done|]. split; [done|].
          split; [done|]. split; [done|]. by intros k _ _. }
      destruct (String.eqb key "down" || String.eqb key "j").
      { destruct (selectedTimeline m <? len (timelineBlocks m) - 1) eqn:E.
        - apply Z.ltb_lt in E. eexists _, _, _. split; [done|].
          split; [repeat split; try done; cbn; lia|].
          split; [done|]. split; [done|]. intros k _ _. cbn. repeat split. lia.
        - eexists _, _, _. split; [done|]. split; [done|].
          split; [done|]. split; [done|]. by intros k _ _. }
      destruct (String.eqb key "enter").
      { destruct (0 <? len (timelineBlocks m)).
        - eexists _, _, _. split; [done|].
          split; [repeat split; try done; cbn; lia|].
          split; [done|]. split; [done|]. by intros k _ _.
        - eexists _, _, _. split; [done|]. split; [done|].
          split; [done|]. split; [done|]. by intros k _ _. }
      eexists _, _, _. split; [done|]. split; [done|].
      split; [done|]. split; [done|]. by intros k _ _.
  - eexists _, _, _. split; [done|]. split; [done|]. by repeat split.
  - destruct (negb (showTagDialog m)); [destruct (loadStore file)|];
      (eexists _, _, _; split; [done|]; split; [done|]; by repeat split).
  - eexists _, _, _. split; [done|]. split; [done|]. by repeat split.
Qed.

Lemma Update_safe_witness :
  let m := mkModel (sampledStore 1700000100 3) 120 40 0 false EmptyString [] 0
             (buildTimelineBlocks 0 (sampledStore 1700000100 3) 1700001000) false in
  exists m' file' cmd,
    Update 0 1700001000 Missing m (KeyMsg "j") = Some (m', file', cmd)
    /\ cursorsOK m'
    /\ (cmd = CmdQuit ->
          showTagDialog m = false
          /\ (KeyMsg "j" = KeyMsg "q" \/ KeyMsg "j" = KeyMsg "esc"
              \/ KeyMsg "j" = KeyMsg "ctrl+c"))
    /\ (file' <> Missing ->
          showTagDialog m = true /\ KeyMsg "j" = KeyMsg "enter"
          /\ showTagDialog m' = false)
    /\ (forall key, KeyMsg "j" = KeyMsg key -> showTagDialog m = false ->
          mStore m' = mStore m /\ timelineBlocks m' = timelineBlocks m
          /\ (selectedTimeline m < len (timelineBlocks m) ->
                selectedTimeline m' < len (timelineBlocks m'))).
Proof.
  apply (Update_safe 0 1700001000 Missing
           (mkModel (sampledStore 1700000100 3) 120 40 0 false EmptyString [] 0
              (buildTimelineBlocks 0 (sampledStore 1700000100 3) 1700001000) false)
           (KeyMsg "j")).
  unfold cursorsOK. cbn. split; [lia|]. split; [lia|]. discriminate.
Defined.

Lemma contains_elem slice item : contains slice item = true <-> item ∈ slice.
Proof.
  induction slice as [|s rest IH]; cbn [contains].
  - split; [done|]. intros H. by apply elem_of_nil in H.
  - destruct (String.eqb s item) eqn:E.
    + apply String.eqb_eq in E as ->. split; [|done]. intros _.
      apply elem_of_cons. by left.
    + apply String.eqb_neq in E. rewrite IH, elem_of_cons. split; [auto|].
      intros [->|H]; done.
Qed.

Lemma strLe_total : Total strLe.
Proof. intros a b. unfold strLe. apply String.leb_total. Qed.

Lemma tagStore_spec store block tag :
  let store' := tagStore store block tag in
  Bins store' = Bins store /\ Conf store' = Conf store
  /\ Ranges store' = Ranges (saveTag store block tag)
  /\ ((tag = EmptyString \/ tag ∈ Tags store) /\ Tags store' = Tags store
      \/ (tag <> EmptyString /\ (tag ∉ Tags store)
          /\ Tags store' = sortStrings (Tags store ++ [tag]))).
Proof.
  intros store'. unfold store', tagStore. cbv zeta.
  destruct (saveTag_fields store block tag) as (Hb & Hc & Ht).
  destruct (String.eqb tag EmptyString) eqn:Ee; cbn [negb andb].
  - apply String.eqb_eq in Ee. repeat split; try done. left. split; [by left|done].
  - apply String.eqb_neq in Ee.
    destruct (contains (Tags (saveTag store block tag)) tag) eqn:Ec; cbn [negb].
    + apply contains_elem in Ec. rewrite Ht in Ec.
      repeat split; try done. left. split; [by right|done].
    + assert (Hn : tag ∉ Tags store).
      { intros Hin. rewrite <- Ht in Hin. apply contains_elem in Hin. congruence. }
      cbn [setTags Bins Conf Ranges Tags]. repeat split; try done.
      right. by rewrite Ht.
Qed.

(** X29.  Saving a tag from the dialog.  On enter in the tag dialog, with no
    suggestions shown and the timeline cursor on a block, the store becomes
    the one [saveTag] gives with the tag added to the catalogue when it is
    new and not empty; the document is replaced by that store, whatever the
    document held, so its samples are those the dashboard had loaded; the
    blocks are rebuilt from it and the dialog is closed.  The catalogue
    gains the tag and nothing else, keeps being free of repeats, and is
    sorted after an addition. *)
Theorem handleTagDialog_saves (loc now : Z) (file : File) (m : dashboardModel)
    (block : TimelineBlock) :
  showingTagSuggestions m = false ->
  index (timelineBlocks m) (selectedTimeline m) = Some block ->
  exists m',
    handleTagDialog loc now file m "enter" = Some (m', Doc (mStore m'))
    /\ mStore m' = tagStore (mStore m) block (tagInput m)
    /\ Ranges (mStore m') = Ranges (saveTag (mStore m) block (tagInput m))
    /\ Bins (mStore m') = Bins (mStore m)
    /\ Conf (mStore m') = Conf (mStore m)
    /\ timelineBlocks m' = buildTimelineBlocks loc (mStore m') now
    /\ showTagDialog m' = false /\ showingTagSuggestions m' = false
    /\ (forall t, t ∈ Tags (mStore m')
          <-> t ∈ Tags (mStore m) \/ (t = tagInput m /\ t <> EmptyString))
    /\ (NoDup (Tags (mStore m)) -> NoDup (Tags (mStore m')))
    /\ (Tags (mStore m') = Tags (mStore m) \/ Sorted strLe (Tags (mStore m'))).
Proof.
  intros Hs Hidx.
  assert (Hlt : (selectedTimeline m <? len (timelineBlocks m)) = true).
  { apply Z.ltb_lt. unfold index, len in *.
    destruct (selectedTimeline m <? 0) eqn:E; [done|]. apply Z.ltb_ge in E.
    apply lookup_lt_Some in Hidx. lia. }
  exists (setShowingTagSuggestions
            (setShowTagDialog
               (setStore loc now m (tagStore (mStore m) block (tagInput m))) false)
            false).
  unfold handleTagDialog.
  change (String.eqb "enter" "esc") with false.
  change (String.eqb "enter" "enter") with true. cbv iota.
  rewrite Hs, Hlt, Hidx. cbn [andb]. unfold saveStore.
  split; [reflexivity|]. cbn [mStore setShowingTagSuggestions setShowTagDialog
    setStore timelineBlocks showTagDialog showingTagSuggestions].
  destruct (tagStore_spec (mStore m) block (tagInput m))
    as (Hb & Hc & Hr & [[Hold Ht]|(Hne & Hnew & Ht)]).
  - rewrite Ht. repeat (split; [done|]). split; [|split; [done|by left]].
    intros t. split; [by left|].
    intros [H|[-> Hne]]; [done|]. by destruct Hold.
  - rewrite Ht. unfold sortStrings.
    pose proof (merge_sort_Permutation strLe (Tags (mStore m) ++ [tagInput m]))
      as Hp.
    repeat (split; [done|]). split; [|split].
    + intros t. rewrite Hp, elem_of_app, list_elem_of_singleton. split.
      * intros [H| ->]; auto.
      * intros [H|[-> _]]; auto.
    + intros Hnd. rewrite Hp. apply NoDup_app. split; [done|].
      split; [|apply NoDup_singleton].
      intros t Ht' Hin. apply list_elem_of_singleton in Hin as ->. done.
    + right. pose proof strLe_total as Htot. apply Sorted_merge_sort. exact Htot.
Qed.

Lemma handleTagDialog_saves_witness :
  let store := sampledStore 1700000100 3 in
  let block := mkBlock 1699920000 1700000100 0 1335 EmptyString EmptyString (-1) in
  let m := mkModel store 120 40 0 true "email" [] 0 [block] false in
  exists m',
    handleTagDialog 0 1700001000 Missing m "enter" = Some (m', Doc (mStore m'))
    /\ mStore m' = tagStore (mStore m) block (tagInput m)
    /\ Ranges (mStore m') = Ranges (saveTag (mStore m) block (tagInput m))
    /\ Bins (mStore m') = Bins (mStore m)
    /\ Conf (mStore m') = Conf (mStore m)
    /\ timelineBlocks m' = buildTimelineBlocks 0 (mStore m') 1700001000
    /\ showTagDialog m' = false /\ showingTagSuggestions m' = false
    /\ (forall t, t ∈ Tags (mStore m')
          <-> t ∈ Tags (mStore m) \/ (t = tagInput m /\ t <> EmptyString))
    /\ (NoDup (Tags (mStore m)) -> NoDup (Tags (mStore m')))
    /\ (Tags (mStore m') = Tags (mStore m) \/ Sorted strLe (Tags (mStore m'))).
Proof.
  apply (handleTagDialog_saves 0 1700001000 Missing
           (mkModel (sampledStore 1700000100 3) 120 40 0 true "email" [] 0
              [mkBlock 1699920000 1700000100 0 1335 EmptyString EmptyString (-1)]
              false)
           (mkBlock 1699920000 1700000100 0 1335 EmptyString EmptyString (-1))).
  - reflexivity.
  - reflexivity.
Defined.

(** ** Tag analytics *)

Lemma tagStep_cases start end_ acc r :
  (taggedIn start end_ r
   /\ tagStep start end_ acc r
      = (<[Tag r := GoInt.add (default 0 (acc.1 !! Tag r))
                      (clippedMinutes start end_ r)]> acc.1, acc.2))
  \/ (~ taggedIn start end_ r /\ (tagStep start end_ acc r).1 = acc.1).
Proof.
  unfold tagStep, taggedIn, clippedMinutes, working.
  destruct (Status r =? 1) eqn:Es; cbn [negb orb].
  2:{ right. apply Z.eqb_neq in Es. split; [tauto|done]. }
  apply Z.eqb_eq in Es.
  destruct (End_ r <? start) eqn:Ee; cbn [orb].
  { right. apply Z.ltb_lt in Ee. split; [lia|done]. }
  apply Z.ltb_ge in Ee.
  destruct (Start r <? end_) eqn:Eb; cbn [negb].
  2:{ right. apply Z.ltb_ge in Eb. split; [lia|done]. }
  apply Z.ltb_lt in Eb. cbv zeta.
  assert (E1 : (if Start r <? start then start else Start r) = Z.max (Start r) start)
    by (destruct (Start r <? start) eqn:E; lia).
  assert (E2 : (if end_ <? End_ r then end_ else End_ r) = Z.min (End_ r) end_)
    by (destruct (end_ <? End_ r) eqn:E; lia).
  rewrite E1, E2.
  destruct (0 <? minutesBetween (Z.max (Start r) start) (Z.min (End_ r) end_)) eqn:Em.
  2:{ right. apply Z.ltb_ge in Em. split; [lia|done]. }
  apply Z.ltb_lt in Em.
  destruct (String.eqb (Tag r) EmptyString) eqn:Et; cbn [negb].
  - right. apply String.eqb_eq in Et. split; [tauto|done].
  - left. apply String.eqb_neq in Et. by repeat split.
Qed.

Lemma tagStep_keys start end_ (rs : list Range) : forall acc tag,
  is_Some ((foldl (tagStep start end_) acc rs).1 !! tag)
  <-> is_Some (acc.1 !! tag)
      \/ exists r, r ∈ rs /\ Tag r = tag /\ taggedIn start end_ r.
Proof.
  induction rs as [|r rs IH]; intros acc tag.
  - cbn [foldl]. split; [by left|]. intros [H|(r & Hr & _)]; [done|].
    by apply elem_of_nil in Hr.
  - cbn [foldl]. rewrite IH.
    destruct (tagStep_cases start end_ acc r) as [[Ht ->]|[Hn ->]].
    + cbn [fst]. split.
      * intros [H|(r' & Hr' & E & Ht')].
        -- destruct (decide (Tag r = tag)) as [<-|Hne].
           ++ right. exists r. split; [apply elem_of_cons; by left|done].
           ++ left. by rewrite lookup_insert_ne in H.
        -- right. exists r'. split; [apply elem_of_cons; by right|done].
      * intros [H|(r' & Hr' & E & Ht')].
        -- left. destruct (decide (Tag r = tag)) as [<-|Hne].
           ++ rewrite lookup_insert_eq. by eexists.
           ++ by rewrite lookup_insert_ne.
        -- apply elem_of_cons in Hr' as [->|Hr'].
           ++ left. rewrite <- E, lookup_insert_eq. by eexists.
           ++ right. by exists r'.
    + split.
      * intros [H|(r' & Hr' & E & Ht')]; [by left|].
        right. exists r'. split; [apply elem_of_cons; by right|done].
      * intros [H|(r' & Hr' & E & Ht')]; [by left|].
        apply elem_of_cons in Hr' as [->|Hr']; [done|].
        right. by exists r'.
Qed.

Lemma untagged_fold_nil (l : list (Z * Z)) : forall u,
  foldl (fun untagged (tv : Z * Z) =>
           if tv.2 =? 1 then
             if covered [] tv.1 then untagged else GoInt.add untagged binMinutes
           else untagged) u l
  = foldl (fun acc (tv : Z * Z) => if tv.2 =? 1 then GoInt.add acc binMinutes else acc)
      u l.
Proof. induction l as [|tv l IH]; intros u; [done|]. cbn [foldl]. apply IH. Qed.

(** X30.  The labels of the tag analytics.  A tag other than the label of
    untagged time is reported for a period exactly when a stored working
    range carries it and has at least one whole minute inside the period;
    idle ranges, ranges outside the period and the empty tag never give a
    label.  For a store without ranges the report is the single label of
    untagged time with the working minutes of the period, or nothing when
    there are none. *)
Theorem calculateTagHours_labels (loc : Z) (s : Store) (start end_ : Z) :
  (forall tag, tag <> "(untagged)"%string ->
     (is_Some (calculateTagHours loc s start end_ !! tag)
      <-> exists r, r ∈ Ranges s /\ Tag r = tag /\ taggedIn start end_ r))
  /\ calculateTagHours loc s start end_ !! EmptyString = None
  /\ (Ranges s = [] ->
        calculateTagHours loc s start end_
        = if 0 <? workMinutes (fetchBins loc s start end_)
          then {[ "(untagged)"%string := workMinutes (fetchBins loc s start end_) ]}
          else ∅).
Proof.
  assert (Hkeys : forall tag, tag <> "(untagged)"%string ->
     (is_Some (calculateTagHours loc s start end_ !! tag)
      <-> exists r, r ∈ Ranges s /\ Tag r = tag /\ taggedIn start end_ r)).
  { intros tag Hne. unfold calculateTagHours. cbv zeta.
    set (u := foldl _ (foldl (tagStep start end_) (∅, 0) (Ranges s)).2 _).
    assert (E : (if 0 <? u
                 then <["(untagged)"%string := u]>
                        (foldl (tagStep start end_) (∅, 0) (Ranges s)).1
                 else (foldl (tagStep start end_) (∅, 0) (Ranges s)).1) !! tag
                = (foldl (tagStep start end_) (∅, 0) (Ranges s)).1 !! tag).
    { destruct (0 <? u); [|done]. by rewrite lookup_insert_ne. }
    rewrite E, tagStep_keys. cbn [fst]. rewrite lookup_empty. split.
    - intros [[x Hx]|H]; done.
    - intros H. by right. }
  split; [exact Hkeys|]. split.
  - destruct (calculateTagHours loc s start end_ !! EmptyString) as [v|] eqn:E;
      [|done].
    assert (Hs : is_Some (calculateTagHours loc s start end_ !! EmptyString))
      by (by eexists).
    apply Hkeys in Hs as (r & _ & Et & Ht); [|done].
    by destruct Ht as (_ & _ & _ & _ & Hne).
  - intros Hr. unfold calculateTagHours, workMinutes. cbv zeta.
    rewrite Hr. cbn [foldl fst snd]. rewrite untagged_fold_nil.
    destruct (0 <? _); [|done]. by rewrite insert_empty.
Qed.
